(* ===== verification/_CoqProject ===== *)
-Q . S2P
Prelude.v
PyRandom.v
Racer.v
Lomuto.v
State.v
Engine.v
Game.v
Display.v
Format.v
Race.v
Phases.v
Main.v
Timing.v
