(* ===== verification/Prelude.v ===== *)
(** * Race Sorter: a verification development of src/project/code.py

    The program is a pygame "race" that sorts six racers with an
    instrumented in-place QuickSort and animates the result.  Everything
    lives in one file, src/project/code.py:

    - [class Racer] (lines 33-80): one participant.  Its attributes
      [base_speed], [acceleration], [handling] are drawn at creation, its
      [sort_value] (0.5 speed + 0.3 accel + 0.2 handling) is computed once
      in [__init__]; [lane], [position], [x], [y], [speed], [finished],
      [power_active] and [power_timer] are mutated later.
    - [class RaceSorterGame] (lines 82-428): the game object [self].  It
      owns the list [self.racers] (references to [Racer] objects), the
      instrumentation [self.sort_operations] and [self.pivot_highlights],
      and the flags [running], [racing], [race_complete],
      [show_comparison], [algorithm_mode].  Its methods are the sorting
      engine ([partition], [quicksort_randomized],
      [quicksort_deterministic], [find_median]), the registry
      ([init_racers]), the race driver ([start_race], [update]) and the
      presentation ([draw_*], [handle_events], [run]).

    Components interact through the shared object [self]: the sorting
    methods receive [arr] (always [self.racers]) and mutate it in place,
    mutate the [lane] field of the racer objects it refers to, append to
    [self.pivot_highlights] and bump [self.sort_operations]; [start_race]
    then reads the sorted list, asks [find_median] for one of its racer
    objects and mutates that object ([activate_power]).

    ** Files

    - [Prelude] (this file): the Python effects the code uses, as a small
      state-and-exception monad [PyM] with its notation in [py_scope];
      Python list indexing ([arr[i]] with negative indices, [IndexError]
      out of range) and item assignment; the key-order interface
      [KeyOrder] with its instance on [Q]; the hint database [pysim]
      and the tactics shared by the components.
    - [PyRandom]: the interface the code needs from Python's [random]
      module ([randint], [uniform], [random]) as a type class with its
      range laws, and a linear congruential instance for concrete runs.
    - [Racer]: the [Racer] record (line 33) with [__init__],
      [calculate_sort_value], [update] and [activate_power].
    - [Lomuto]: module [Lomuto], the reference model of the sorting
      engine on a plain list:
      Lomuto [partition], a pivot-selection policy (deterministic: last
      element; randomized: draw an index and swap it to [low]) and the
      fuelled recursion of [quicksort_*], with the correctness theorems
      (permutation, sortedness, frame), termination with enough fuel,
      the bounds on the instrumentation and the worst case on sorted
      input.
    - [State]: the game object [self] as the record [Game] (every field
      [__init__] assigns but the pygame screen, clock and fonts), with
      the heap of [Racer] objects, the next free reference and the
      generator state, and one setter per field.
    - [Engine]: the translation of [partition], [quicksort_randomized]
      and [quicksort_deterministic] (lines 121-162) over the game state:
      a store of racer objects, the list of references [self.racers],
      the instrumentation fields and the random generator.  The
      refinement theorems show that each method runs without exception
      and moves [self.racers] exactly as the [Lomuto] model, keeps every
      attribute of every racer other than [lane], and what it does to
      the lanes.
    - [Game]: module [RaceSorterGame] with [__init__] ([new_game]),
      [init_racers], [find_median], [start_race], [update],
      [handle_events] and one iteration of the loop of [run] ([frame],
      without the drawing); [reachable] is the set of states of a run
      (a new game, then frames while [running]).  Python's [sorted] is a
      stable insertion sort, [time.time()] and the frame time [dt] are
      parameters of the handlers.
    - [Race]: the progress of a race over frames without input:
      [Racer.update] moves an unfinished racer at least [min_advance dt0]
      per frame of [dt0] seconds or more, and the invariant [in_race k]
      of a race whose racers have all come at least [k] forward.
    - [Phases]: the flags [running], [racing], [race_complete] and
      [show_comparison] read as an abstract state ([abs]: a phase
      [Idle | Racing | Finished | Stopped] and whether the comparison
      screen is open) and the deterministic machine they are meant to
      follow ([astep] per event, [aupdate] for [update], [aframe] per
      turn); every event handler and every frame maps the abstract state
      exactly as the machine does.
    - [Display]: the drawing methods [draw_track], [draw_racers],
      [draw_ui], [draw_comparison] and the drawing part of [run]
      ([frame_display]) as the lists of pygame calls they make, with
      Python's [int()] and [:.2f] formatting for the f-strings.
    - [Format]: the [:.2f] text of the finish times: the rounding is
      Python's round-half-even and the text reads back as the rounded
      hundredths ([parse_2f]).
    - [Main]: [RaceSorterGame.run] (lines 401-428) as [run], fed with a
      list of turns (the milliseconds [clock.tick(FPS)] returns, the
      reading of [time.time()] and the events of the turn): while
      [running] it runs [frame] and draws [frame_display], and once
      [running] is false it calls [pygame.quit()]; its result is the
      list of every pygame call of the run.  [main] is the [__main__]
      block (lines 431-433): [RaceSorterGame()] then [run()].  The
      loop's theorems compose those of the components: the colour
      invariant [col_inv] of the racer heap, [reachable], the race
      invariant of [Race] and the phase machine of [Phases].
    - [Timing]: the finish times [update] stamps (line 220) and the
      invariant [timed] of the race result: at a clock reading [t] the
      times of [finish_order] are in order and in [[0, t -
      race_start_time]], kept by every turn whose reading does not go
      back ([clock_from]).

    ** Modelling choices

    - Python ints are [Z]; list positions in the reference model are
      [nat].  Python floats are modelled by exact rationals [Q]: the
      comparisons [<=] of the code are [Qle_bool]; rounding of
      [0.5 * a + 0.3 * b + 0.2 * c] is not modelled.
    - Racer objects live in a store [nat -> Racer]; [self.racers] is a
      list of references and [Racer(...)] allocates the next one.  Item
      swaps move references, lane swaps write the objects, so the
      aliasing of the source is kept; so is the identity test
      [racer not in self.finish_order].
    - Recursion of [quicksort_*] is fuelled; running out of fuel is
      Python's [RecursionError].  The termination theorems show that a
      fuel of at least [max 1 n] never runs out.  [start_race] runs the
      sorts with the fuel [RECURSION_LIMIT - 5 = 995]: Python's default
      limit of 1000 frames less the frames below the deepest sort call.
      Six racers need six.
    - The liveness theorem bounds the frames a race takes by
      [race_frames dt0 = ceil (475 / min_advance dt0)], where
      [min_advance dt0 = min (20 dt0, 80) dt0] is the least gain of
      [position] per frame: after the acceleration step the speed is at
      least [min (20 dt0, 80)] (the least [acceleration] and [base_speed]
      of [init_racers], boost at least 1) whatever the speed was, and
      the finish line [x = 1050] is [position = 475].  The bound ignores
      the speed a racer keeps between frames, so it is loose (2375
      frames of a tenth of a second); it holds for every generator.
    - The random module is an interface: every theorem holds for every
      generator that satisfies the range laws of [randint] and
      [uniform] (class [PyRandomLaws]).
    - Strings are their UTF-8 bytes ([String.string]), as the source file
      spells them.
    - The loop [run] takes a finite list of turns: a run of the game is
      any prefix of the infinite loop, and a theorem about [run] holds
      for every such prefix.  When the list ends while [running] is
      still true, no [pygame.quit()] is emitted (the real loop would
      go on).

    ** Not modelled

    - pygame itself (the window, rasterising, fonts and their metrics,
      the waiting of [clock.tick]), which the code only calls: its
      calls are commands of a display list ([Display.draw_cmd]), and
      the value [clock.tick] returns, [time.time()] and the events are
      inputs of [Main.run].
    - Python's [random] module and [sorted] are specified from their
      documentation (the classes of [PyRandom], [Game.py_sorted]), not
      translated, as they are not code of this repository.
    - Rounding of float arithmetic (see above).  Everything of
      src/project/code.py that is not pygame is modelled.

    ** Theorems (see PROJECT.json for the list of claims)

    - functional correctness of [partition] and of both QuickSorts
      (sorted by [sort_value], permutation of the references, nothing
      outside [low..high] touched), and their refinement of the model;
    - termination with a fuel of at least [max 1 n];
    - instrumentation: [sort_operations] counts the entries of
      [pivot_highlights], at most [n - 1] of them, each inside the list;
    - lanes: the deterministic sort leaves the lane values at their
      positions;
    - worst case of the deterministic mode on sorted input of any
      length [n]: [n - 1] partition calls, where the spec says [n];
    - the randomized pivot is the old [arr[high]], or the old [arr[low]]
      when the draw is [high];
    - [start_race] sorts, places and powers up the median; [find_median]
      returns the middle of a sorted rearrangement;
    - the invariant of every reachable state (six distinct racers, lanes
      a permutation of [0..5], keys in [58, 91], all on the track, no
      repeat in the finish order), and that no frame raises;
    - pressing R or D during a race keeps the old race state;
    - the in-place sort of [start_race] equals Python's [sorted] by
      [sort_value] when the keys are distinct (equivalence), and
      [partition] past the end raises [IndexError] before it writes;
    - the whole program: [main] raises nothing on any input and any
      generator, ends in a reachable state, and calls [pygame.quit()]
      last exactly when [running] turned false; a turn with QUIT ends
      the loop;
    - liveness: pressing SPACE and waiting, the loop completes the race
      within [race_frames dt0] turns and every racer gets its place in
      [finish_order];
    - exact refinement of the abstract machine by every frame of a run;
      [race_complete] holds only during a race and as soon as all its
      racers have finished; events after QUIT in the same frame are
      still handled (a race can start in a game that is stopping);
    - the finish panel is in the order of its times when the clock
      never goes back;
    - what is drawn: every pygame call [main] makes is well typed
      (colours in range, by the invariant [col_inv]); after SPACE every
      car sits on a lane line rather than between two, the glow
      surrounds exactly the median racer; at the end of a race the
      banner and the full finish panel are shown;
    - the finish times are printed rounded half to even, with two digits
      after the point, and the text reads back as the rounded value
      (round trip). *)

From stdpp Require Export base list.
From Stdlib Require Export ZArith QArith Lia Lqa.
From stdpp Require Import sorting.

#[local] Open Scope nat_scope.

(** ** Python exceptions and the state-and-exception monad *)

(** The exceptions the modelled code can raise. *)
Inductive exc : Type :=
  | IndexError        (** list index out of range *)
  | ValueError        (** e.g. [random.randint] on an empty range *)
  | RecursionError.   (** maximum recursion depth exceeded *)

#[export] Instance exc_eq_dec : EqDecision exc.
Proof. solve_decision. Defined.

(** The outcome of running a Python statement from a state: normal
    completion with a value, or an exception raised in the state reached
    so far (Python does not roll back mutations). *)
Inductive res (S A : Type) : Type :=
  | Ok (a : A) (s : S)
  | Raise (e : exc) (s : S).
Arguments Ok {S A} a s.
Arguments Raise {S A} e s.

Definition PyM (S A : Type) : Type := S -> res S A.

Definition pret {S A} (a : A) : PyM S A := fun s => Ok a s.
Definition pbind {S A B} (m : PyM S A) (k : A -> PyM S B) : PyM S B :=
  fun s => match m s with Ok a s' => k a s' | Raise e s' => Raise e s' end.
Definition praise {S A} (e : exc) : PyM S A := fun s => Raise e s.
Definition pget {S} : PyM S S := fun s => Ok s s.
Definition pmodify {S} (f : S -> S) : PyM S unit := fun s => Ok tt (f s).

Declare Scope py_scope.
Delimit Scope py_scope with py.
Notation "x <- m ;; k" := (pbind m (fun x => k))
  (at level 100, m at level 99, right associativity) : py_scope.
Notation "m ;; k" := (pbind m (fun _ : unit => k))
  (at level 100, right associativity) : py_scope.
Open Scope py_scope.

(** ** Python lists *)

(** The position denoted by the Python index [i] in a list of length
    [len]: non-negative indices count from the front, negative ones from
    the end; anything else is out of range. *)
Definition py_index (len : nat) (i : Z) : option nat :=
  if (0 <=? i)%Z && (i <? Z.of_nat len)%Z then Some (Z.to_nat i)
  else if (- Z.of_nat len <=? i)%Z && (i <? 0)%Z then Some (Z.to_nat (Z.of_nat len + i))
  else None.

(** [l[i]] *)
Definition py_getitem {A} (l : list A) (i : Z) : option A :=
  match py_index (length l) i with Some n => l !! n | None => None end.

(** [l[i] = x] *)
Definition py_setitem {A} (l : list A) (i : Z) (x : A) : option (list A) :=
  match py_index (length l) i with Some n => Some (<[n := x]> l) | None => None end.

(** [for x in xs: body(x)] *)
Fixpoint py_for {St A : Type} (xs : list A) (body : A -> PyM St unit) : PyM St unit :=
  match xs with
  | [] => pret tt
  | x :: xs' => body x ;; py_for xs' body
  end.

(** [for i, x in enumerate(xs): body(i, x)], from the index [i]. *)
Fixpoint py_for_enum {St A : Type} (i : nat) (xs : list A) (body : nat -> A -> PyM St unit)
    : PyM St unit :=
  match xs with
  | [] => pret tt
  | x :: xs' => body i x ;; py_for_enum (S i) xs' body
  end.

(** ** Key order: the interface the sorting engine needs from the keys *)

(** The engine compares keys with one boolean test ([<=] in the code).
    It needs the test to be total and transitive, nothing more. *)
Class KeyOrder (K : Type) := {
  kle : K -> K -> bool;
  kle_total : forall a b, kle a b = true \/ kle b a = true;
  kle_trans : forall a b c, kle a b = true -> kle b c = true -> kle a c = true
}.

Lemma Qle_bool_total (x y : Q) : Qle_bool x y = true \/ Qle_bool y x = true.
Proof.
  destruct (Qlt_le_dec x y) as [H|H]; [left | right]; apply Qle_bool_iff; lra.
Qed.

Lemma Qle_bool_trans (x y z : Q) :
  Qle_bool x y = true -> Qle_bool y z = true -> Qle_bool x z = true.
Proof. rewrite !Qle_bool_iff. lra. Qed.

(** Python floats without NaN, modelled as rationals. *)
#[export] Instance Q_KeyOrder : KeyOrder Q :=
  {| kle := Qle_bool; kle_total := Qle_bool_total; kle_trans := Qle_bool_trans |}.

Lemma Zleb_total (x y : Z) : (x <=? y)%Z = true \/ (y <=? x)%Z = true.
Proof. rewrite !Z.leb_le. lia. Qed.

Lemma Zleb_trans (x y z : Z) : (x <=? y)%Z = true -> (y <=? z)%Z = true -> (x <=? z)%Z = true.
Proof. rewrite !Z.leb_le. lia. Qed.

#[export] Instance Z_KeyOrder : KeyOrder Z :=
  {| kle := Z.leb; kle_total := Zleb_total; kle_trans := Zleb_trans |}.

(** ** Shared lemmas *)

Create HintDb pysim discriminated.
Create Rewrite HintDb pysim_rw.

Lemma py_index_nonneg (len : nat) (i : nat) :
  i < len -> py_index len (Z.of_nat i) = Some i.
Proof.
  intros Hi. unfold py_index.
  replace ((0 <=? Z.of_nat i)%Z && (Z.of_nat i <? Z.of_nat len)%Z) with true
    by (symmetry; apply andb_true_iff; split; [apply Z.leb_le | apply Z.ltb_lt]; lia).
  by rewrite Nat2Z.id.
Qed.

Lemma py_getitem_nat {A} (l : list A) (i : nat) :
  i < length l -> py_getitem l (Z.of_nat i) = l !! i.
Proof. intros Hi. unfold py_getitem. by rewrite py_index_nonneg. Qed.

Lemma py_setitem_nat {A} (l : list A) (i : nat) (x : A) :
  i < length l -> py_setitem l (Z.of_nat i) x = Some (<[i := x]> l).
Proof. intros Hi. unfold py_setitem. by rewrite py_index_nonneg. Qed.

(** A list index at or past the length is out of range. *)
Lemma py_getitem_ge {A} (l : list A) (i : Z) :
  (Z.of_nat (length l) <= i)%Z -> py_getitem l i = None.
Proof.
  intros Hi. unfold py_getitem, py_index.
  destruct ((0 <=? i)%Z && (i <? Z.of_nat (length l))%Z) eqn:E1.
  { apply andb_true_iff in E1 as [_ E1]. apply Z.ltb_lt in E1. lia. }
  destruct ((- Z.of_nat (length l) <=? i)%Z && (i <? 0)%Z) eqn:E2; [|done].
  apply andb_true_iff in E2 as [_ E2]. apply Z.ltb_lt in E2. lia.
Qed.

Lemma Qle_bool_false (a b : Q) : Qle_bool a b = false -> (b < a)%Q.
Proof. intros H. apply Qnot_le_lt. intros Hle. apply Qle_bool_iff in Hle. congruence. Qed.

(** Two maps over ranges of the same length agree pointwise. *)
Lemma fmap_seq_shift {B : Type} (f g : nat -> B) (a b m : nat) :
  (forall j, (j < m)%nat -> f (a + j)%nat = g (b + j)%nat) -> f <$> seq a m = g <$> seq b m.
Proof.
  revert a b. induction m as [|m IH]; intros a b Hfg; [done|]. simpl.
  f_equal; [specialize (Hfg 0%nat); rewrite !Nat.add_0_r in Hfg; apply Hfg; lia|].
  apply IH. intros j Hj. specialize (Hfg (S j)). rewrite !Nat.add_succ_r in Hfg. apply Hfg. lia.
Qed.

(** [l[len(l) // 2]] *)
Lemma py_getitem_half {A : Type} (l : list A) :
  py_getitem l (Z.of_nat (length l) / 2) = l !! (length l / 2)%nat.
Proof.
  unfold py_getitem, py_index. destruct (length l) as [|n] eqn:Hn.
  - simpl. symmetry. apply lookup_ge_None_2. lia.
  - replace (Z.of_nat (S n) / 2)%Z with (Z.of_nat (S n / 2)) by (rewrite Nat2Z.inj_div; reflexivity).
    assert (Hlt : (S n / 2 < S n)%nat) by (apply Nat.div_lt; lia).
    rewrite (proj2 (Z.leb_le _ _)), (proj2 (Z.ltb_lt _ _)) by lia. simpl. by rewrite Nat2Z.id.
Qed.

Lemma kle_refl {K} `{KeyOrder K} (a : K) : kle a a = true.
Proof. by destruct (kle_total a a). Qed.

Lemma kle_false_flip {K} `{KeyOrder K} (a b : K) : kle a b = false -> kle b a = true.
Proof. intros Hf. destruct (kle_total a b); congruence. Qed.

(** A strongly sorted list stays sorted under any relation implied by
    the first on its elements. *)
Lemma StronglySorted_impl_on {A} (R R' : relation A) (l : list A) :
  (forall a b, a ∈ l -> b ∈ l -> R a b -> R' a b) -> StronglySorted R l -> StronglySorted R' l.
Proof.
  intros HR Hs. induction Hs as [|x l Hs IH Hx]; constructor.
  - apply IH. intros a b Ha Hb Hab. apply HR; [by right.. | done].
  - rewrite Forall_forall in Hx |- *. intros b Hb. apply HR; [left | by right | auto].
Qed.

(** Syntactic equality of rationals is decidable; on reduced fractions
    ([Qred]) it is equality of the numbers. *)
#[export] Instance Q_eq_dec : EqDecision Q.
Proof. intros [a b] [c d]. solve_decision. Defined.

(** Two keys below each other are equal as rationals, so their reduced
    forms coincide. *)
Lemma Qle_bool_antisym_Qred (a b : Q) : Qle_bool a b = true -> Qle_bool b a = true -> Qred a = Qred b.
Proof. rewrite !Qle_bool_iff. intros H1 H2. apply Qred_complete. by apply Qle_antisym. Qed.

#[export] Hint Resolve kle_refl kle_false_flip : pysim.
#[export] Hint Rewrite @py_getitem_nat @py_setitem_nat using lia : pysim_rw.

(** Sequencing a statement that completes normally. *)
Lemma pbind_Ok {S A B} (m : PyM S A) (k : A -> PyM S B) (s s' : S) (a : A) :
  m s = Ok a s' -> pbind m k s = k a s'.
Proof. intros Hm. unfold pbind. by rewrite Hm. Qed.

Lemma pbind_assoc {S A B C} (m : PyM S A) (f : A -> PyM S B) (g : B -> PyM S C) (s : S) :
  pbind (pbind m f) g s = pbind m (fun a => pbind (f a) g) s.
Proof. unfold pbind. by destruct (m s). Qed.

(** Run the first statement of a sequence with the lemma [H : m s = Ok a s']. *)
Ltac py_run H := rewrite (pbind_Ok _ _ _ _ _ H); cbn beta.

(** Run a first statement that cannot raise (an assignment). *)
Ltac py_tick := erewrite pbind_Ok; [|reflexivity]; cbn beta.

(** Close a linear goal about lengths of concatenations. *)
Ltac len_lia := repeat (rewrite ?length_app; simpl); lia.

(** Unfold one layer of the monad and its primitive operations. *)
Ltac py_unfold := unfold pbind, pret, praise, pget, pmodify in *.
