(* ===== verification/PyRandom.v ===== *)
(** * The random source the game draws from

    src/project/code.py calls Python's global [random] module in three
    places: [random.randint(low, high)] for the pivot of
    [quicksort_randomized] (line 125), [random.uniform(a, b)] for the
    racer attributes in [init_racers] (lines 112-114) and
    [random.random()] in [Racer.update] (line 66).  The module itself is
    a library the source only calls: it is modelled as an interface, a
    type class [PyRandom] over the generator state with the range laws
    of [PyRandomLaws], so that every theorem holds for every generator
    with these laws.  [LCG] is one instance, used to run the model on
    concrete inputs. *)

From S2P Require Import Prelude.

(** The three functions of [random] that the code calls, threading the
    generator state. *)
Class PyRandom (G : Type) := {
  randint : Z -> Z -> G -> Z * G;   (** [random.randint(a, b)], both ends included *)
  uniform : Q -> Q -> G -> Q * G;   (** [random.uniform(a, b)] *)
  random : G -> Q * G               (** [random.random()], in [0, 1) *)
}.

(** What Python documents of them: the draws stay in their ranges. *)
Class PyRandomLaws (G : Type) `{PyRandom G} := {
  randint_range : forall a b g, (a <= b)%Z -> (a <= fst (randint a b g) <= b)%Z;
  uniform_range : forall a b g, a <= b -> a <= fst (uniform a b g) /\ fst (uniform a b g) <= b;
  random_range : forall g, 0 <= fst (random g) /\ fst (random g) < 1
}.

(** ** A linear congruential generator *)

Module LCG.

Definition modulus : Z := 2147483648.

Definition step (s : Z) : Z := (1103515245 * s + 12345) mod modulus.

Definition lcg_randint (a b : Z) (g : Z) : Z * Z :=
  let s := step g in (a + s mod (b - a + 1), s)%Z.

Definition lcg_random (g : Z) : Q * Z :=
  let s := step g in (s # Z.to_pos modulus, s).

Definition lcg_uniform (a b : Q) (g : Z) : Q * Z :=
  let '(u, g') := lcg_random g in (a + (b - a) * u, g').

#[export] Instance lcg : PyRandom Z :=
  {| randint := lcg_randint; uniform := lcg_uniform; random := lcg_random |}.

Lemma step_range (s : Z) : (0 <= step s < modulus)%Z.
Proof. unfold step. apply Z.mod_pos_bound. reflexivity. Qed.

Lemma lcg_random_range (g : Z) : 0 <= fst (lcg_random g) /\ fst (lcg_random g) < 1.
Proof.
  unfold lcg_random; simpl. pose proof (step_range g) as Hs.
  unfold Qle, Qlt, modulus in *; simpl in *. lia.
Qed.

Lemma lcg_laws : PyRandomLaws Z.
Proof.
  split.
  - intros a b g Hab. cbn [randint lcg]. unfold lcg_randint. cbn [fst].
    assert (Hm : (0 < b - a + 1)%Z) by lia.
    pose proof (Z.mod_pos_bound (step g) _ Hm). lia.
  - intros a b g Hab. cbn [uniform lcg]. unfold lcg_uniform.
    pose proof (lcg_random_range g) as Hu.
    destruct (lcg_random g) as [u g']; simpl in *. split; nra.
  - apply lcg_random_range.
Qed.

End LCG.
