(* ===== verification/Racer.v ===== *)
(** * Racer objects (src/project/code.py, lines 33-80)

    [class Racer] as a record with one field per attribute assigned in
    [__init__], its constructor [make_racer], the method
    [calculate_sort_value], the per-frame motion step [update] and
    [activate_power].  Floats are rationals, ints are [Z].  [update] draws
    [random.random()] only when the racer is not finished, so it threads
    the generator state of [PyRandom].  The theorems bound the sort key
    from the attribute ranges of [init_racers] and show the motion step
    keeps the racer on the track and carries an unfinished one at least
    [min_advance dt0] forward ([update_moving]), the step of the liveness
    argument of [Race]. *)

From Stdlib Require Import String.
From S2P Require Import Prelude PyRandom.

Definition SCREEN_WIDTH : Q := 1200.

(** The finish line of [update] (line 73), [SCREEN_WIDTH - 150]. *)
Definition FINISH_X : Q := SCREEN_WIDTH - 150.

Definition color := (Z * Z * Z)%type.

Record Racer := mkRacer {
  name : string;
  rcolor : color;
  base_speed : Q;
  acceleration : Q;
  handling : Q;
  position : Q;
  x : Q;
  y : Z;
  speed : Q;
  lane : Z;
  finished : bool;
  finish_time : Q;
  power_active : bool;
  power_timer : Q;
  sort_value : Q
}.

(** [calculate_sort_value] (lines 51-53). *)
Definition calculate_sort_value (r : Racer) : Q :=
  base_speed r * (5 # 10) + acceleration r * (3 # 10) + handling r * (2 # 10).

(** [Racer.__init__] (lines 34-49): the fields in the order the code
    assigns them; [sort_value] is computed last from the object built
    so far. *)
Definition make_racer (nm : string) (c : color) (bs acc hd : Q) : Racer :=
  let r0 := {| name := nm; rcolor := c; base_speed := bs; acceleration := acc;
               handling := hd; position := 0; x := 100; y := 0; speed := 0;
               lane := 0; finished := false; finish_time := 0;
               power_active := false; power_timer := 0; sort_value := 0 |} in
  {| name := nm; rcolor := c; base_speed := bs; acceleration := acc;
     handling := hd; position := 0; x := 100; y := 0; speed := 0;
     lane := 0; finished := false; finish_time := 0;
     power_active := false; power_timer := 0;
     sort_value := calculate_sort_value r0 |}.

(** [racer.lane = v] *)
Definition set_lane (v : Z) (r : Racer) : Racer :=
  {| name := name r; rcolor := rcolor r; base_speed := base_speed r;
     acceleration := acceleration r; handling := handling r;
     position := position r; x := x r; y := y r; speed := speed r; lane := v;
     finished := finished r; finish_time := finish_time r;
     power_active := power_active r; power_timer := power_timer r;
     sort_value := sort_value r |}.

(** [racer.y = v] *)
Definition set_y (v : Z) (r : Racer) : Racer :=
  {| name := name r; rcolor := rcolor r; base_speed := base_speed r;
     acceleration := acceleration r; handling := handling r;
     position := position r; x := x r; y := v; speed := speed r; lane := lane r;
     finished := finished r; finish_time := finish_time r;
     power_active := power_active r; power_timer := power_timer r;
     sort_value := sort_value r |}.

(** [activate_power] (lines 77-80). *)
Definition activate_power (r : Racer) : Racer :=
  {| name := name r; rcolor := rcolor r; base_speed := base_speed r;
     acceleration := acceleration r; handling := handling r;
     position := position r; x := x r; y := y r; speed := speed r; lane := lane r;
     finished := finished r; finish_time := finish_time r;
     power_active := true; power_timer := 3;
     sort_value := sort_value r |}.

(** The reset of each racer in [start_race] (lines 179-186). *)
Definition reset_for_race (r : Racer) : Racer :=
  {| name := name r; rcolor := rcolor r; base_speed := base_speed r;
     acceleration := acceleration r; handling := handling r;
     position := 0; x := 100; y := y r; speed := 0; lane := lane r;
     finished := false; finish_time := 0;
     power_active := false; power_timer := 0;
     sort_value := sort_value r |}.

(** [racer.power_timer -= dt; if racer.power_timer <= 0:
    racer.power_active = False] (lines 215-217). *)
Definition tick_power (dt : Q) (r : Racer) : Racer :=
  let t := power_timer r - dt in
  {| name := name r; rcolor := rcolor r; base_speed := base_speed r;
     acceleration := acceleration r; handling := handling r;
     position := position r; x := x r; y := y r; speed := speed r; lane := lane r;
     finished := finished r; finish_time := finish_time r;
     power_active := if Qle_bool t 0 then false else power_active r; power_timer := t;
     sort_value := sort_value r |}.

(** [racer.finish_time = v] (line 220). *)
Definition set_finish_time (v : Q) (r : Racer) : Racer :=
  {| name := name r; rcolor := rcolor r; base_speed := base_speed r;
     acceleration := acceleration r; handling := handling r;
     position := position r; x := x r; y := y r; speed := speed r; lane := lane r;
     finished := finished r; finish_time := v;
     power_active := power_active r; power_timer := power_timer r;
     sort_value := sort_value r |}.

(** Python's [min(a, b)] on numbers: [b] only when [b < a]. *)
Definition py_min (a b : Q) : Q := if Qle_bool a b then a else b.

Section Update.
Context {G : Type} `{PyRandom G}.

(** [Racer.update(dt, boost_factor)] (lines 55-75).  The generator is
    consumed only when the racer is not finished. *)
Definition update (dt boost_factor : Q) (r : Racer) (g : G) : Racer * G :=
  if finished r then (r, g) else
  let speed1 := speed r + acceleration r * dt * boost_factor in
  let speed2 := py_min speed1 (base_speed r * boost_factor) in
  let position1 := position r + speed2 * dt in
  let '(u, g') := random g in
  let speed3 := if Qle_bool u (handling r / 100) then speed2 else speed2 * (95 # 100) in
  let x1 := 100 + position1 * 2 in
  let fin := Qle_bool FINISH_X x1 in
  ({| name := name r; rcolor := rcolor r; base_speed := base_speed r;
      acceleration := acceleration r; handling := handling r;
      position := position1; x := if fin then FINISH_X else x1; y := y r;
      speed := speed3; lane := lane r; finished := fin;
      finish_time := finish_time r; power_active := power_active r;
      power_timer := power_timer r; sort_value := sort_value r |}, g').
End Update.

(** ** What every operation keeps *)

(** The attributes fixed at construction: identity and the sort key. *)
Definition static (r : Racer) : string * color * Q * Q * Q * Q :=
  (name r, rcolor r, base_speed r, acceleration r, handling r, sort_value r).

(** The attribute ranges of [init_racers] (lines 112-114) and a sort key
    computed from them, as [__init__] does. *)
Definition key_ok (r : Racer) : Prop :=
  (80 <= base_speed r <= 120) /\ (20 <= acceleration r <= 40) /\ (60 <= handling r <= 95)
  /\ sort_value r == calculate_sort_value r.

(** A racer on the track: never past the finish line, and on it once
    finished. *)
Definition on_track (r : Racer) : Prop :=
  x r <= FINISH_X /\ (finished r = true -> x r == FINISH_X).

(** A lower bound on the distance an unfinished racer with [key_ok]
    covers in a frame of at least [dt0] seconds: its speed after the
    acceleration step is at least [min(20 * dt0, 80)], the smallest
    acceleration and top speed of [init_racers]. *)
Definition min_advance (dt0 : Q) : Q := py_min (20 * dt0) 80 * dt0.

(** A racer in a race after frames that carried it [k] pixels of
    [position]: its speed is not negative and, while unfinished, it is at
    least [k] along and short of the finish ([100 + 2 * 475 = FINISH_X]). *)
Definition moving (k : Q) (r : Racer) : Prop :=
  0 <= speed r /\ (finished r = false -> k <= position r /\ position r < 475).

Lemma static_set_lane (v : Z) (r : Racer) : static (set_lane v r) = static r.
Proof. reflexivity. Qed.
Lemma static_set_y (v : Z) (r : Racer) : static (set_y v r) = static r.
Proof. reflexivity. Qed.
Lemma static_activate_power (r : Racer) : static (activate_power r) = static r.
Proof. reflexivity. Qed.
Lemma static_reset_for_race (r : Racer) : static (reset_for_race r) = static r.
Proof. reflexivity. Qed.
Lemma static_tick_power (dt : Q) (r : Racer) : static (tick_power dt r) = static r.
Proof. reflexivity. Qed.
Lemma static_set_finish_time (v : Q) (r : Racer) : static (set_finish_time v r) = static r.
Proof. reflexivity. Qed.

#[export] Hint Rewrite static_set_lane static_set_y static_activate_power static_reset_for_race
  static_tick_power static_set_finish_time : pysim_rw.

(** [key_ok] reads only the static attributes. *)
Lemma key_ok_static (r r' : Racer) : static r' = static r -> key_ok r -> key_ok r'.
Proof.
  unfold static, key_ok, calculate_sort_value. intros E.
  injection E as _ _ Hb Ha Hh Hs. by rewrite Hb, Ha, Hh, Hs.
Qed.

Lemma make_racer_key_ok (nm : string) (c : color) (bs acc hd : Q) :
  80 <= bs <= 120 -> 20 <= acc <= 40 -> 60 <= hd <= 95 -> key_ok (make_racer nm c bs acc hd).
Proof.
  intros Hb Ha Hh. unfold key_ok, make_racer, calculate_sort_value; simpl.
  split_and!; first [done | apply Qeq_refl | lra].
Qed.

Lemma key_ok_bounds (r : Racer) : key_ok r -> 58 <= sort_value r <= 91.
Proof. intros (Hb & Ha & Hh & ->). unfold calculate_sort_value. split; lra. Qed.

(** C23. The sort key of a racer built from attributes in the ranges
    [init_racers] draws them from lies in [58, 91]:
    [0.5 * 80 + 0.3 * 20 + 0.2 * 60] and [0.5 * 120 + 0.3 * 40 + 0.2 * 95]. *)
Theorem sort_value_bounds (nm : string) (c : color) (bs acc hd : Q) :
  80 <= bs <= 120 -> 20 <= acc <= 40 -> 60 <= hd <= 95 ->
  key_ok (make_racer nm c bs acc hd) /\ 58 <= sort_value (make_racer nm c bs acc hd) <= 91.
Proof.
  intros Hb Ha Hh. pose proof (make_racer_key_ok nm c bs acc hd Hb Ha Hh) as Hk.
  split; [exact Hk | exact (key_ok_bounds _ Hk)].
Qed.

Lemma py_min_glb (a b c : Q) : c <= a -> c <= b -> c <= py_min a b.
Proof. unfold py_min. by destruct (Qle_bool a b). Qed.

Lemma py_min_lb (a b : Q) : py_min a b <= a /\ py_min a b <= b.
Proof.
  unfold py_min. destruct (Qle_bool a b) eqn:E.
  - apply Qle_bool_iff in E. lra.
  - apply Qle_bool_false in E. lra.
Qed.

Lemma min_advance_pos (dt0 : Q) : 0 < dt0 -> 0 < min_advance dt0.
Proof.
  intros Hd. unfold min_advance, py_min. destruct (Qle_bool (20 * dt0) 80); nra.
Qed.

Section UpdateFacts.
Context {G : Type} `{PyRandom G}.

(** One step of [Racer.update] keeps the static attributes, the lane
    and [y]; it keeps a racer on the track and puts an unfinished racer
    on it; a finished racer is left as it is and draws nothing from
    [random]. *)
Lemma update_facts (dt boost : Q) (r : Racer) (g : G) :
  let '(r', g') := update dt boost r g in
  (on_track r -> on_track r') /\ static r' = static r /\ lane r' = lane r /\ y r' = y r
  /\ (finished r = false -> on_track r') /\ (finished r = true -> r' = r /\ g' = g).
Proof.
  unfold update. destruct (finished r) eqn:Hf.
  - split_and!; by try discriminate.
  - destruct (random g) as [u g']. unfold on_track; simpl.
    destruct (Qle_bool FINISH_X _) eqn:Hfin; simpl.
    + split_and!; by (intros; split; [lra | reflexivity]) || done || discriminate.
    + apply Qle_bool_false in Hfin.
      split_and!; by (intros; split; [lra | discriminate]) || done || discriminate.
Qed.

(** The motion step: an unfinished racer either crosses the line or
    gains at least [min_advance dt0] of [position], and its speed stays
    non-negative; the boost factor of [update] (lines 210-213) is 1 or
    1.5, at least 1. *)
Lemma update_moving (dt0 dt boost k : Q) (r : Racer) (g : G) :
  key_ok r -> 1 <= boost -> 0 < dt0 -> dt0 <= dt -> moving k r ->
  moving (k + min_advance dt0) (update dt boost r g).1.
Proof.
  intros (Hb & Ha & _) Hbo Hd0 Hd (Hs & Hp). unfold update. destruct (finished r) eqn:Hf.
  - simpl; split; [done | intros Hc; congruence].
  - destruct (random g) as [u g']. simpl. specialize (Hp eq_refl).
    destruct (py_min_lb (20 * dt0) 80) as [Hm1 Hm2].
    assert (Hm0 : 0 <= py_min (20 * dt0) 80) by (apply py_min_glb; lra).
    assert (Hacc : 20 * dt0 <= acceleration r * dt * boost)
      by (assert (20 * dt0 <= acceleration r * dt) by nra; nra).
    assert (H2 : py_min (20 * dt0) 80 <=
                 py_min (speed r + acceleration r * dt * boost) (base_speed r * boost))
      by (apply py_min_glb; nra).
    split; cbn [speed position finished].
    + destruct (Qle_bool u _); nra.
    + destruct (Qle_bool FINISH_X _) eqn:Hfin; [discriminate|]. intros _.
      apply Qle_bool_false in Hfin. unfold FINISH_X, SCREEN_WIDTH in Hfin.
      unfold min_advance. split; nra.
Qed.
End UpdateFacts.

(** ** Concrete instances *)

#[local] Existing Instance LCG.lcg.

Lemma sort_value_bounds_witness :
  80 <= 100 <= 120 /\ 20 <= 30 <= 40 /\ 60 <= 80 <= 95 /\
  key_ok (make_racer "Flash" (255, 50, 50)%Z 100 30 80)
  /\ 58 <= sort_value (make_racer "Flash" (255, 50, 50)%Z 100 30 80) <= 91.
Proof.
  assert (H : 80 <= 100 <= 120 /\ 20 <= 30 <= 40 /\ 60 <= 80 <= 95)
    by (split_and!; apply Qle_bool_iff; vm_compute; reflexivity).
  destruct H as (H1 & H2 & H3). split_and!; try assumption.
  all: apply (sort_value_bounds "Flash" (255, 50, 50)%Z 100 30 80 H1 H2 H3).
Defined.
