(* ===== verification/Lomuto.v ===== *)
(** * Reference model of the sorting engine (src/project/code.py, lines 121-162)

    [partition], [quicksort_randomized] and [quicksort_deterministic]
    restated over a plain list [l : list A] sorted by [key : A -> K], with
    list positions as [nat].  The two QuickSorts differ only in what they
    do before [partition]; that step is a [policy]:
    [det_policy] records [high] and leaves the list alone,
    [rand_policy] draws [randint(low, high)], records it and swaps it to
    [low].  [quicksort] is the recursion shared by both, on the range of
    [n] elements from [lo] ([high = lo + n - 1]), fuelled like Python's
    recursion limit, and returns the list, the generator and the
    recorded pivot indices ([pivot_highlights]).  Everything is in
    module [Lomuto], inside the section [Model] over the key.

    [Engine] shows that the methods of the game, over the racer store,
    move [self.racers] exactly as these functions do.  The theorems here
    are about the algorithm: [partition] splits the range around the
    pivot; [quicksort] permutes the range, sorts it and leaves the rest
    alone, for every policy that draws inside the range; it never runs out
    of fuel above [n]; it records at most
    [n - 1] pivots, all inside the range; on an already sorted range the
    deterministic policy changes nothing and records [n - 1] pivots. *)

From stdpp Require Import sorting.
From S2P Require Import Prelude PyRandom.

#[local] Open Scope nat_scope.

Module Lomuto.

Section Model.
Context {A K : Type} `{KeyOrder K} (key : A -> K).

(** ** Definitions *)

(** [arr[i], arr[j] = arr[j], arr[i]]: the right-hand side is read
    first, then [arr[i]] and [arr[j]] are assigned in that order. *)
Definition swap (l : list A) (i j : nat) : list A :=
  match l !! i, l !! j with
  | Some x, Some y => <[j := x]> (<[i := y]> l)
  | _, _ => l
  end.

(** The loop [for j in range(low, high)] of [partition] (lines 152-157)
    run for [n] more iterations; [s] is [i + 1], the first position of
    the part of the range greater than the pivot. *)
Fixpoint partition_loop (pivot : K) (s j n : nat) (l : list A) : nat * list A :=
  match n with
  | O => (s, l)
  | S n' =>
      match l !! j with
      | Some v =>
          if kle (key v) pivot
          then partition_loop pivot (S s) (S j) n' (swap l s j)
          else partition_loop pivot s (S j) n' l
      | None => (s, l)
      end
  end.

(** [partition(arr, low, high)] (lines 147-162): returns [i + 1]. *)
Definition partition (lo hi : nat) (l : list A) : nat * list A :=
  match l !! hi with
  | Some p =>
      let '(s, l1) := partition_loop (key p) lo lo (hi - lo) l in
      (s, swap l1 s hi)
  | None => (lo, l)
  end.

(** What a QuickSort does before [partition]: from [low], [high], the
    list and the generator, the index it appends to
    [pivot_highlights], the list it hands to [partition] and the new
    generator. *)
Definition policy (G : Type) : Type := nat -> nat -> list A -> G -> nat * list A * G.

(** [quicksort_deterministic] (lines 139-141): [pivot_index = high]. *)
Definition det_policy {G : Type} : policy G := fun lo hi l g => (hi, l, g).

(** [quicksort_randomized] (lines 125-129):
    [pivot_index = random.randint(low, high)], then
    [arr[low], arr[pivot_index] = arr[pivot_index], arr[low]]. *)
Definition rand_policy {G : Type} `{PyRandom G} : policy G :=
  fun lo hi l g =>
    let '(p, g') := randint (Z.of_nat lo) (Z.of_nat hi) g in
    (Z.to_nat p, swap l lo (Z.to_nat p), g').

(** The recursion of both QuickSorts on the [n] elements from [lo]:
    [high = lo + n - 1], so [low < high] is [2 <= n]; the calls are
    [quicksort(low, pi - 1)] and [quicksort(pi + 1, high)].  Each call
    consumes one unit of fuel; [None] is the [RecursionError]. *)
Fixpoint quicksort {G : Type} (pol : policy G) (fuel lo n : nat)
    (l : list A) (g : G) (tr : list nat) : option (list A * G * list nat) :=
  match fuel with
  | O => None
  | S f =>
      if 2 <=? n then
        let hi := lo + n - 1 in
        let '(p, l1, g1) := pol lo hi l g in
        let '(q, l2) := partition lo hi l1 in
        match quicksort pol f lo (q - lo) l2 g1 (tr ++ [p]) with
        | Some (l3, g2, tr2) => quicksort pol f (S q) (hi - q) l3 g2 tr2
        | None => None
        end
      else Some (l, g, tr)
  end.

(** The order of the result: [a] before [b] only if [key a <= key b]. *)
Definition key_le (a b : A) : Prop := kle (key a) (key b) = true.

#[export] Instance key_le_dec : RelDecision key_le.
Proof. intros a b. unfold key_le. apply _. Defined.

(** The part of [l] that a call on [n] elements from [lo] works on. *)
Definition seg (lo n : nat) (l : list A) : list A := take n (drop lo l).

(** [l'] is [l] with the range [lo, lo + n) replaced by a permutation of
    itself. *)
Definition seg_perm (lo n : nat) (l l' : list A) : Prop :=
  exists m, l' = take lo l ++ m ++ drop (lo + n) l /\ m ≡ₚ seg lo n l.

(** ** Lists cut in three *)

Lemma seg_split (lo n : nat) (l : list A) :
  lo + n <= length l -> l = take lo l ++ seg lo n l ++ drop (lo + n) l.
Proof.
  intros Hlen. unfold seg.
  rewrite <-(take_drop lo l) at 1. f_equal.
  rewrite <-(take_drop n (drop lo l)) at 1. by rewrite drop_drop.
Qed.

Lemma shape_take (P M Q : list A) : take (length P) (P ++ M ++ Q) = P.
Proof. apply take_app_length. Qed.

Lemma shape_seg (P M Q : list A) : seg (length P) (length M) (P ++ M ++ Q) = M.
Proof. unfold seg. rewrite drop_app_length. apply take_app_length. Qed.

Lemma shape_drop (P M Q : list A) : drop (length P + length M) (P ++ M ++ Q) = Q.
Proof. rewrite drop_app_add, drop_app_length. reflexivity. Qed.

Lemma length_seg (lo n : nat) (l : list A) :
  lo + n <= length l -> length (seg lo n l) = n.
Proof. intros Hlen. unfold seg. rewrite length_take, length_drop. lia. Qed.

(** ** Swaps *)

Lemma swap_same (l : list A) (i : nat) : swap l i i = l.
Proof.
  unfold swap. destruct (l !! i) as [x|] eqn:Hx; [|done].
  rewrite list_insert_insert_eq. by apply list_insert_id.
Qed.

(** Swapping the first element of the middle with the last. *)
Lemma swap_shape (P B C : list A) (a c : A) :
  swap (P ++ a :: B ++ c :: C) (length P) (length P + S (length B))
  = P ++ c :: B ++ a :: C.
Proof.
  unfold swap.
  rewrite lookup_app_r, Nat.sub_diag by lia. simpl.
  rewrite lookup_app_r by lia. replace (length P + S (length B) - length P) with (S (length B)) by lia.
  simpl. rewrite lookup_app_r, Nat.sub_diag by lia. simpl.
  rewrite <-(Nat.add_0_r (length P)) at 2.
  rewrite insert_app_r. simpl.
  replace (length P + S (length B)) with (length P + S (length B + 0)) by lia.
  rewrite insert_app_r. simpl. rewrite insert_app_r. reflexivity.
Qed.

Lemma length_swap (l : list A) (i j : nat) : length (swap l i j) = length l.
Proof.
  unfold swap. destruct (l !! i), (l !! j); [|done..].
  by rewrite !length_insert.
Qed.

Lemma swap_perm (l : list A) (i j : nat) : swap l i j ≡ₚ l.
Proof.
  unfold swap. destruct (l !! i) eqn:Hi, (l !! j) eqn:Hj; [|done..].
  by apply Permutation_insert_swap.
Qed.

(** Swapping twice restores the list. *)
Lemma swap_involutive (l : list A) (i j : nat) :
  i < length l -> j < length l -> swap (swap l i j) i j = l.
Proof.
  intros Hi Hj. destruct (decide (i = j)) as [->|Hij]; [by rewrite !swap_same|].
  destruct (lookup_lt_is_Some_2 l i Hi) as [x Hx], (lookup_lt_is_Some_2 l j Hj) as [y Hy].
  unfold swap at 2. rewrite Hx, Hy.
  assert (E1 : <[j:=x]> (<[i:=y]> l) !! i = Some y).
  { rewrite list_lookup_insert_ne by done. by apply list_lookup_insert_eq. }
  assert (E2 : <[j:=x]> (<[i:=y]> l) !! j = Some x).
  { apply list_lookup_insert_eq. by rewrite length_insert. }
  unfold swap. rewrite E1, E2.
  rewrite (list_insert_insert_ne _ i j) by done. rewrite !list_insert_insert_eq.
  rewrite (list_insert_id (<[i:=x]> l) j y); [by apply list_insert_id |].
  by rewrite list_lookup_insert_ne.
Qed.

Lemma lookup_frame (P M Q : list A) (i : nat) :
  i < length M -> (P ++ M ++ Q) !! (length P + i) = M !! i.
Proof.
  intros Hi. rewrite lookup_app_r by lia.
  replace (length P + i - length P) with i by lia. by apply lookup_app_l.
Qed.

(** Reading a swapped list through a map that swaps back the values of
    the two swapped elements gives the original reading. *)
Lemma fmap_swap_compensate {B : Type} (f f' : A -> B) (l : list A) (a b : nat) (x y : A) :
  NoDup l -> l !! a = Some x -> l !! b = Some y ->
  f' x = f y -> f' y = f x -> (forall r, r <> x -> r <> y -> f' r = f r) ->
  f' <$> swap l a b = f <$> l.
Proof.
  intros Hnd Hx Hy Hfx Hfy Hf. apply list_eq. intros k. rewrite !list_lookup_fmap.
  pose proof (lookup_lt_Some _ _ _ Hx). pose proof (lookup_lt_Some _ _ _ Hy).
  unfold swap. rewrite Hx, Hy.
  destruct (decide (k = b)) as [->|Hkb].
  { rewrite list_lookup_insert_eq by (rewrite length_insert; done). rewrite Hy. simpl. by rewrite Hfx. }
  rewrite list_lookup_insert_ne by done.
  destruct (decide (k = a)) as [->|Hka].
  { rewrite list_lookup_insert_eq by done. rewrite Hx. simpl. by rewrite Hfy. }
  rewrite list_lookup_insert_ne by done.
  destruct (l !! k) as [z|] eqn:Hz; [|done]. simpl. f_equal. apply Hf.
  - intros ->. by apply Hka, (NoDup_lookup l k a x).
  - intros ->. by apply Hkb, (NoDup_lookup l k b y).
Qed.

(** A swap inside the middle piece leaves the outer pieces alone. *)
Lemma swap_frame (P M Q : list A) (i j : nat) :
  i < length M -> j < length M ->
  swap (P ++ M ++ Q) (length P + i) (length P + j) = P ++ swap M i j ++ Q.
Proof.
  intros Hi Hj. unfold swap. rewrite !lookup_frame by done.
  destruct (M !! i) as [a|] eqn:Ha; [|apply lookup_lt_is_Some_2 in Hi as [? Hi]; congruence].
  destruct (M !! j) as [c|] eqn:Hc; [|apply lookup_lt_is_Some_2 in Hj as [? Hj]; congruence].
  rewrite (insert_app_r P (M ++ Q) i c), (insert_app_r P _ j a).
  rewrite (insert_app_l M Q i c), (insert_app_l _ Q j a) by (rewrite ?length_insert; done).
  reflexivity.
Qed.

(** The list a swap of the first and the last element of [B ++ [v]]
    leaves in place of [B]. *)
Definition rot (B : list A) : list A :=
  match B with [] => [] | b :: B1 => B1 ++ [b] end.

Lemma rot_perm (B : list A) : rot B ≡ₚ B.
Proof. destruct B as [|b B]; simpl; [done|]. by rewrite Permutation_app_comm. Qed.

Lemma Forall_rot (P : A -> Prop) (B : list A) : Forall P B -> Forall P (rot B).
Proof. intros HB. by rewrite rot_perm. Qed.

(** The swap [arr[i], arr[j]] of the loop, with [i] the first position
    after [L] and [j] the position of [v]. *)
Lemma swap_rot (P L B rest : list A) (v : A) :
  swap (P ++ L ++ B ++ v :: rest) (length P + length L) (length P + length L + length B)
  = P ++ (L ++ [v]) ++ rot B ++ rest.
Proof.
  rewrite (app_assoc P L), <-length_app.
  destruct B as [|b B]; simpl.
  - rewrite Nat.add_0_r, swap_same. by rewrite <-!app_assoc.
  - rewrite swap_shape. by rewrite <-!app_assoc.
Qed.

(** ** Partition *)

Lemma partition_loop_range (pv : K) (s j n : nat) (l : list A) :
  s <= j -> s <= (partition_loop pv s j n l).1 <= j + n
  /\ (partition_loop pv s j n l).2 ≡ₚ l.
Proof.
  revert s j l. induction n as [|n IH]; intros s j l Hsj; simpl; [split; [lia|done]|].
  destruct (l !! j); [|simpl; split; [lia|done]].
  destruct (kle (key a) pv).
  - destruct (IH (S s) (S j) (swap l s j)) as [? Hp]; [lia|].
    split; [lia | by rewrite Hp, swap_perm].
  - destruct (IH s (S j) l) as [? ?]; [lia|]. split; [lia|done].
Qed.

Definition le_pivot (pv : K) (a : A) : Prop := kle (key a) pv = true.
Definition gt_pivot (pv : K) (a : A) : Prop := kle (key a) pv = false.

(** Invariant of the loop of [partition]: [L] (at most the pivot) sits
    before [s], [B] (above it) between [s] and [j], and [rest] is still
    to be scanned. *)
Lemma partition_loop_spec (pv : K) (P L B rest l : list A) (s j n : nat) :
  l = P ++ L ++ B ++ rest -> s = length P + length L -> j = s + length B ->
  n <= length rest -> Forall (le_pivot pv) L -> Forall (gt_pivot pv) B ->
  exists L' B',
    partition_loop pv s j n l = (length P + length L', P ++ L' ++ B' ++ drop n rest)
    /\ Forall (le_pivot pv) L' /\ Forall (gt_pivot pv) B'
    /\ L' ++ B' ≡ₚ L ++ B ++ take n rest.
Proof.
  revert l L B rest s j.
  induction n as [|n IH]; intros l L B rest s j -> Hs Hj Hn HL HB; simpl.
  { exists L, B. subst s. rewrite drop_0, take_0, app_nil_r. done. }
  destruct rest as [|v rest]; simpl in Hn; [lia|].
  assert (Hl : P ++ L ++ B ++ v :: rest = (P ++ L ++ B) ++ v :: rest) by by rewrite <-!app_assoc.
  rewrite Hl, list_lookup_middle by (rewrite !length_app; lia). rewrite <-Hl.
  destruct (kle (key v) pv) eqn:Hv.
  - subst s j. rewrite swap_rot.
    destruct (IH (P ++ (L ++ [v]) ++ rot B ++ rest) (L ++ [v]) (rot B) rest (S (length P + length L)) (S (length P + length L + length B)))
      as (L' & B' & -> & HL' & HB' & Hp);
      [done | rewrite length_app; simpl; lia | destruct B; simpl; rewrite ?length_app; simpl; lia
      | lia | apply Forall_app; auto | by apply Forall_rot |].
    exists L', B'. split_and!; [done..|].
    rewrite Hp, rot_perm. simpl. rewrite <-app_assoc. simpl.
    by rewrite (Permutation_middle B).
  - destruct (IH (P ++ L ++ B ++ v :: rest) L (B ++ [v]) rest s (S j)) as (L' & B' & -> & HL' & HB' & Hp);
      [by rewrite <-!app_assoc | done | rewrite length_app; simpl; lia | lia | done
      | apply Forall_app; auto |].
    exists L', B'. split_and!; [done..|].
    rewrite Hp. simpl. by rewrite <-app_assoc.
Qed.

(** [partition] on [lo <= hi]: the range [lo..hi] becomes
    [L ++ x :: R] where [x] was at [hi], [L] holds the elements at most
    [x], [R] those above it; the result is the position of [x]; nothing
    outside the range moves. *)
Lemma partition_spec (lo hi : nat) (l : list A) :
  lo <= hi < length l ->
  exists L x R,
    partition lo hi l = (lo + length L, take lo l ++ L ++ x :: R ++ drop (S hi) l)
    /\ Forall (le_pivot (key x)) L /\ Forall (gt_pivot (key x)) R
    /\ L ++ x :: R ≡ₚ seg lo (S hi - lo) l.
Proof.
  intros Hr. unfold partition.
  destruct (l !! hi) as [x|] eqn:Hx; [|apply lookup_ge_None in Hx; lia].
  set (P := take lo l). set (M := seg lo (hi - lo) l). set (Q := drop (S hi) l).
  assert (HP : length P = lo) by (unfold P; rewrite length_take; lia).
  assert (HM : length M = hi - lo) by (apply length_seg; lia).
  assert (Hl : l = P ++ (M ++ [x]) ++ Q).
  { rewrite (seg_split lo (hi - lo) l) at 1 by lia. f_equal. rewrite <-app_assoc. f_equal.
    replace (lo + (hi - lo)) with hi by lia. by apply drop_S. }
  destruct (partition_loop_spec (key x) P [] [] (M ++ x :: Q) l lo lo (hi - lo))
    as (L & B & -> & HL & HB & Hp);
    [by rewrite Hl, <-app_assoc | simpl; lia | simpl; lia
    | rewrite length_app; simpl; lia | constructor | constructor |].
  rewrite <-HM, take_app_length in Hp. simpl in Hp.
  pose proof (Permutation_length Hp) as Hlen. rewrite length_app in Hlen.
  rewrite <-HM, drop_app_length.
  assert (Hs : swap (P ++ L ++ B ++ x :: Q) (length P + length L) hi
               = P ++ (L ++ [x]) ++ rot B ++ Q) by (rewrite <-swap_rot; f_equal; lia).
  rewrite Hs.
  exists L, x, (rot B). rewrite <-HP. split_and!;
    [by rewrite <-!app_assoc | done | by apply Forall_rot |].
  rewrite Hl, HP, rot_perm.
  replace (S hi - lo) with (length (M ++ [x])) by (rewrite length_app; simpl; lia).
  rewrite <-HP, shape_seg, <-Hp, <-app_assoc. simpl.
  apply Permutation_app_head. by rewrite (Permutation_app_comm B [x]).
Qed.

(** ** Ranges in shape form *)

Lemma cut3 (lo n : nat) (l : list A) :
  lo + n <= length l ->
  exists P M Q, l = P ++ M ++ Q /\ length P = lo /\ length M = n.
Proof.
  intros Hlen. exists (take lo l), (seg lo n l), (drop (lo + n) l).
  split; [by apply seg_split|]. split; [rewrite length_take; lia|by apply length_seg].
Qed.

Lemma seg_perm_shape (P M Q l' : list A) :
  seg_perm (length P) (length M) (P ++ M ++ Q) l' <->
  exists M', l' = P ++ M' ++ Q /\ M' ≡ₚ M.
Proof. unfold seg_perm. by rewrite shape_take, shape_seg, shape_drop. Qed.

Lemma seg_perm_refl (lo n : nat) (l : list A) : lo + n <= length l -> seg_perm lo n l l.
Proof.
  intros Hlen. destruct (cut3 lo n l Hlen) as (P & M & Q & -> & <- & <-).
  apply seg_perm_shape. by exists M.
Qed.

Lemma seg_perm_length (lo n : nat) (l l' : list A) :
  lo + n <= length l -> seg_perm lo n l l' -> length l' = length l.
Proof.
  intros Hlen. destruct (cut3 lo n l Hlen) as (P & M & Q & -> & <- & <-).
  intros Hs. destruct (proj1 (seg_perm_shape P M Q l') Hs) as (M' & -> & Hp).
  rewrite !length_app. by rewrite (Permutation_length Hp).
Qed.

Lemma seg_perm_perm (lo n : nat) (l l' : list A) :
  lo + n <= length l -> seg_perm lo n l l' -> l' ≡ₚ l.
Proof.
  intros Hlen. destruct (cut3 lo n l Hlen) as (P & M & Q & -> & <- & <-).
  intros Hs. destruct (proj1 (seg_perm_shape P M Q l') Hs) as (M' & -> & Hp).
  by rewrite Hp.
Qed.

(** ** Pivot policies *)

(** What [quicksort] needs of a policy: the recorded index is inside
    [lo..hi] and the list handed to [partition] only permutes that
    range. *)
Definition policy_ok {G : Type} (pol : policy G) : Prop :=
  forall lo hi l g, lo <= hi < length l ->
    let '(p, l1, g1) := pol lo hi l g in
    lo <= p <= hi /\ seg_perm lo (S hi - lo) l l1.

Lemma det_policy_ok {G : Type} : policy_ok (@det_policy G).
Proof. intros lo hi l g Hr. simpl. split; [lia|]. apply seg_perm_refl. lia. Qed.

Lemma rand_policy_ok {G : Type} `{PyRandomLaws G} : policy_ok rand_policy.
Proof.
  intros lo hi l g Hr. unfold rand_policy.
  pose proof (randint_range (Z.of_nat lo) (Z.of_nat hi) g) as Hp.
  destruct (randint (Z.of_nat lo) (Z.of_nat hi) g) as [p g']. simpl in Hp.
  specialize (Hp ltac:(lia)). split; [lia|].
  destruct (cut3 lo (S hi - lo) l ltac:(lia)) as (P & M & Q & -> & HP & HM).
  rewrite <-HM, <-HP. apply seg_perm_shape.
  exists (swap M 0 (Z.to_nat p - lo)). split; [|apply swap_perm].
  rewrite <-swap_frame by lia. f_equal; lia.
Qed.

(** ** QuickSort *)

Lemma sorted_short (m : list A) : length m <= 1 -> StronglySorted key_le m.
Proof.
  destruct m as [|a [|b m]]; simpl; intros Hm; [constructor | | lia].
  repeat constructor.
Qed.

(** The two sorted sides and the pivot between them make a sorted list. *)
Lemma sorted_join (mL mR : list A) (x : A) :
  Forall (le_pivot (key x)) mL -> Forall (gt_pivot (key x)) mR ->
  StronglySorted key_le mL -> StronglySorted key_le mR ->
  StronglySorted key_le (mL ++ x :: mR).
Proof.
  intros HL HR SL SR.
  assert (HR' : Forall (key_le x) mR).
  { eapply Forall_impl; [exact HR|]. intros b Hb. by apply kle_false_flip. }
  apply StronglySorted_app_2; [|done|by constructor].
  intros a b Ha Hb. rewrite Forall_forall in HL. specialize (HL a Ha).
  apply elem_of_cons in Hb as [->|Hb]; [done|].
  rewrite Forall_forall in HR'. eapply kle_trans; [exact HL|]. by apply HR'.
Qed.

(** The postcondition of a call on the [n] elements from [lo]: the range
    is permuted and sorted, the rest untouched, and the pivots recorded
    are at most [n - 1], all inside the range. *)
Definition qs_post (lo n : nat) (l l' : list A) (tr tr' : list nat) : Prop :=
  seg_perm lo n l l' /\ StronglySorted key_le (seg lo n l') /\
  exists t, tr' = tr ++ t /\ Forall (fun p => lo <= p < lo + n) t /\ length t <= n - 1.

Lemma partition_range (lo hi : nat) (l : list A) :
  lo <= hi < length l ->
  lo <= (partition lo hi l).1 <= hi /\ (partition lo hi l).2 ≡ₚ l.
Proof.
  intros Hr. destruct (cut3 lo (S hi - lo) l) as (P & M & Q & Hl & HP & HM); [lia|].
  destruct (partition_spec lo hi l Hr) as (L & x & R & -> & _ & _ & HLR). simpl.
  rewrite <-HM, Hl, <-HP, shape_seg in HLR.
  pose proof (Permutation_length HLR) as Hlen. rewrite length_app in Hlen. simpl in Hlen.
  split; [lia|]. rewrite Hl.
  replace (S hi) with (length P + length M) by lia. rewrite <-HP, shape_take, shape_drop.
  rewrite <-HLR. by rewrite <-app_assoc.
Qed.

(** [partition] on a non-empty middle piece. *)
Lemma partition_shape (P M Q : list A) :
  1 <= length M ->
  exists L x R,
    partition (length P) (length P + length M - 1) (P ++ M ++ Q)
      = (length P + length L, P ++ L ++ x :: R ++ Q)
    /\ Forall (le_pivot (key x)) L /\ Forall (gt_pivot (key x)) R
    /\ L ++ x :: R ≡ₚ M.
Proof.
  intros HM.
  destruct (partition_spec (length P) (length P + length M - 1) (P ++ M ++ Q))
    as (L & x & R & Hpart & HL & HR & HLR); [rewrite !length_app; lia|].
  replace (S (length P + length M - 1)) with (length P + length M) in Hpart by lia.
  replace (S (length P + length M - 1) - length P) with (length M) in HLR by lia.
  rewrite shape_take, shape_drop in Hpart. rewrite shape_seg in HLR.
  by exists L, x, R.
Qed.

Lemma qs_post_shape (P M Q l' : list A) (tr tr' : list nat) :
  qs_post (length P) (length M) (P ++ M ++ Q) l' tr tr' <->
  exists M' t, l' = P ++ M' ++ Q /\ M' ≡ₚ M /\ StronglySorted key_le M'
    /\ tr' = tr ++ t /\ Forall (fun p => length P <= p < length P + length M) t
    /\ length t <= length M - 1.
Proof.
  unfold qs_post. rewrite seg_perm_shape. split.
  - intros ((M' & -> & Hp) & Hs & t & -> & Ht & Hn). exists M', t.
    rewrite <-(Permutation_length Hp), shape_seg in Hs. done.
  - intros (M' & t & -> & Hp & Hs & -> & Ht & Hn). split; [by exists M'|].
    split; [by rewrite <-(Permutation_length Hp), shape_seg|]. by exists t.
Qed.

(** One call on at least two elements: the policy and [partition] turn
    the range into [L ++ x :: R], then the two recursive calls run. *)
Lemma quicksort_step {G : Type} (pol : policy G) (Hpol : policy_ok pol)
    (f : nat) (P M Q : list A) (g : G) (tr : list nat) :
  2 <= length M ->
  exists p g1 L x R,
    length P <= p < length P + length M
    /\ Forall (le_pivot (key x)) L /\ Forall (gt_pivot (key x)) R /\ L ++ x :: R ≡ₚ M
    /\ quicksort pol (S f) (length P) (length M) (P ++ M ++ Q) g tr =
       match quicksort pol f (length P) (length L) (P ++ L ++ x :: R ++ Q) g1 (tr ++ [p]) with
       | Some (l3, g2, tr2) => quicksort pol f (S (length P + length L)) (length R) l3 g2 tr2
       | None => None
       end.
Proof.
  intros Hn. cbn [quicksort].
  destruct (2 <=? length M) eqn:Hb; [|apply Nat.leb_gt in Hb; lia].
  pose proof (Hpol (length P) (length P + length M - 1) (P ++ M ++ Q) g) as Hp.
  destruct (pol (length P) _ (P ++ M ++ Q) g) as [[p l1] g1].
  destruct Hp as [Hp Hs]; [rewrite !length_app; lia|].
  replace (S (length P + length M - 1) - length P) with (length M) in Hs by lia.
  destruct (proj1 (seg_perm_shape P M Q l1) Hs) as (M1 & -> & HM1).
  pose proof (Permutation_length HM1) as HlenM.
  rewrite <-HlenM.
  destruct (partition_shape P M1 Q) as (L & x & R & -> & HL & HR & HLR); [lia|].
  pose proof (Permutation_length HLR) as Hlen. rewrite length_app in Hlen. simpl in Hlen.
  exists p, g1, L, x, R. split_and!; [lia..|done|done|by rewrite HLR|].
  replace (length P + length L - length P) with (length L) by lia.
  by replace (length P + length M1 - 1 - (length P + length L)) with (length R) by lia.
Qed.

(** Functional correctness of both QuickSorts, for every policy that
    draws inside the range: a call on the [n] elements from [lo] that
    returns permutes them into sorted order, touches nothing else, and
    records at most [n - 1] pivots, all inside the range. *)
Theorem quicksort_correct {G : Type} (pol : policy G) (Hpol : policy_ok pol)
    (fuel lo n : nat) (l : list A) (g : G) (tr : list nat) l' g' tr' :
  lo + n <= length l ->
  quicksort pol fuel lo n l g tr = Some (l', g', tr') ->
  qs_post lo n l l' tr tr'.
Proof.
  revert lo n l g tr l' g' tr'.
  induction fuel as [|f IH]; intros lo n l g tr l' g' tr' Hlen Hq; [discriminate|].
  destruct (cut3 lo n l Hlen) as (P & M & Q & -> & <- & <-).
  apply qs_post_shape.
  destruct (decide (2 <= length M)) as [Hn|Hn].
  2: { cbn [quicksort] in Hq. destruct (Nat.leb_spec 2 (length M)); [lia|].
       injection Hq as <- <- <-. exists M, []. rewrite app_nil_r.
       split_and!; [done..|apply sorted_short; lia|done|constructor|simpl; lia]. }
  destruct (quicksort_step pol Hpol f P M Q g tr Hn)
    as (p & g1 & L & x & R & Hp & HL & HR & HLR & Hstep).
  rewrite Hstep in Hq. clear Hstep.
  pose proof (Permutation_length HLR) as Hlen1. rewrite length_app in Hlen1. simpl in Hlen1.
  destruct (quicksort pol f _ _ _ g1 _) as [[[l3 g2] tr2]|] eqn:Hq1; [|discriminate].
  apply IH, qs_post_shape in Hq1 as (mL & tL & -> & HmL & SL & -> & HtL & HnL);
    [|rewrite !length_app; lia].
  replace (P ++ mL ++ x :: R ++ Q) with ((P ++ mL ++ [x]) ++ R ++ Q) in Hq
    by by rewrite <-!app_assoc.
  replace (S (length P + length L)) with (length (P ++ mL ++ [x])) in Hq
    by (rewrite !length_app, (Permutation_length HmL); simpl; lia).
  apply IH, qs_post_shape in Hq as (mR & tR & -> & HmR & SR & -> & HtR & HnR);
    [|rewrite !length_app; lia].
  exists (mL ++ x :: mR), ([p] ++ tL ++ tR). rewrite !length_app in HtR. simpl in HtR.
  rewrite (Permutation_length HmL) in HtR.
  split_and!.
  - by rewrite <-!app_assoc.
  - by rewrite HmL, HmR.
  - apply sorted_join; [by rewrite HmL | by rewrite HmR | done | done].
  - by rewrite <-!app_assoc.
  - repeat apply Forall_app_2; [constructor; [lia|constructor] | | ];
      (eapply Forall_impl; [eassumption|]); simpl; intros; lia.
  - rewrite !length_app. simpl. lia.
Qed.

(** Termination: a fuel of at least [max 1 n] never runs out, whatever
    the policy draws inside the range. *)
Theorem quicksort_total {G : Type} (pol : policy G) (Hpol : policy_ok pol)
    (fuel lo n : nat) (l : list A) (g : G) (tr : list nat) :
  lo + n <= length l -> 1 <= fuel -> n <= fuel ->
  is_Some (quicksort pol fuel lo n l g tr).
Proof.
  revert lo n l g tr.
  induction fuel as [|f IH]; intros lo n l g tr Hlen H1 Hn; [lia|].
  destruct (cut3 lo n l Hlen) as (P & M & Q & -> & <- & <-).
  destruct (decide (2 <= length M)) as [H2|H2].
  2: { cbn [quicksort]. destruct (Nat.leb_spec 2 (length M)); [lia|]. by eexists. }
  destruct (quicksort_step pol Hpol f P M Q g tr H2)
    as (p & g1 & L & x & R & Hp & HL & HR & HLR & ->).
  pose proof (Permutation_length HLR) as Hlen1. rewrite length_app in Hlen1. simpl in Hlen1.
  destruct (IH (length P) (length L) (P ++ L ++ x :: R ++ Q) g1 (tr ++ [p]))
    as [[[l3 g2] tr2] Hq1]; [rewrite !length_app; simpl; lia | lia | lia |].
  rewrite Hq1.
  apply quicksort_correct in Hq1 as [Hs _]; [|done|rewrite !length_app; lia].
  apply seg_perm_length in Hs; [|rewrite !length_app; lia].
  apply IH; [rewrite Hs; len_lia | lia | lia].
Qed.

Lemma quicksort_S {G : Type} (pol : policy G) (f lo n : nat) (l : list A) (g : G) (tr : list nat) :
  quicksort pol (S f) lo n l g tr =
  if 2 <=? n then
    let hi := lo + n - 1 in
    let '(p, l1, g1) := pol lo hi l g in
    let '(q, l2) := partition lo hi l1 in
    match quicksort pol f lo (q - lo) l2 g1 (tr ++ [p]) with
    | Some (l3, g2, tr2) => quicksort pol f (S q) (hi - q) l3 g2 tr2
    | None => None
    end
  else Some (l, g, tr).
Proof. reflexivity. Qed.

(** More fuel does not change a result. *)
Lemma quicksort_fuel_S {G : Type} (pol : policy G) (fuel lo n : nat)
    (l : list A) (g : G) (tr : list nat) r :
  quicksort pol fuel lo n l g tr = Some r -> quicksort pol (S fuel) lo n l g tr = Some r.
Proof.
  revert lo n l g tr r.
  induction fuel as [|f IH]; intros lo n l g tr r Hq; [discriminate|].
  rewrite quicksort_S in Hq |- *. cbv zeta in Hq |- *.
  destruct (2 <=? n); [|done].
  destruct (pol lo (lo + n - 1) l g) as [[p l1] g1].
  destruct (partition lo (lo + n - 1) l1) as [q l2].
  destruct (quicksort pol f lo (q - lo) l2 g1 (tr ++ [p])) as [[[l3 g2] tr2]|] eqn:Hq1;
    [|discriminate].
  rewrite (IH _ _ _ _ _ _ Hq1). by apply IH.
Qed.

(** C22. The model's QuickSort with a policy that draws inside the range
    and a fuel of at least [max 1 n] returns, and its result is the range
    permuted into ascending order with nothing else moved, having recorded
    at most [n - 1] pivots inside the range. *)
Theorem quicksort_sorts {G : Type} (pol : policy G) (Hpol : policy_ok pol)
    (fuel lo n : nat) (l : list A) (g : G) (tr : list nat) :
  lo + n <= length l -> 1 <= fuel -> n <= fuel ->
  exists l' g' tr', quicksort pol fuel lo n l g tr = Some (l', g', tr') /\ qs_post lo n l l' tr tr'.
Proof.
  intros Hlen H1 Hn.
  destruct (quicksort_total pol Hpol fuel lo n l g tr Hlen H1 Hn) as [[[l' g'] tr'] Hq].
  exists l', g', tr'. split; [done|]. exact (quicksort_correct pol Hpol _ _ _ _ _ _ _ _ _ Hlen Hq).
Qed.

(** The deterministic policy never touches the generator. *)
Lemma quicksort_det_rng {G : Type} (fuel lo n : nat) (l : list A) (g : G) (tr : list nat) l' g' tr' :
  quicksort det_policy fuel lo n l g tr = Some (l', g', tr') -> g' = g.
Proof.
  revert lo n l g tr l' g' tr'.
  induction fuel as [|f IH]; intros lo n l g tr l' g' tr' Hq; [discriminate|].
  rewrite quicksort_S in Hq. cbv zeta in Hq.
  change (det_policy lo (lo + n - 1) l g) with (lo + n - 1, l, g) in Hq. cbn iota in Hq.
  destruct (2 <=? n); [|congruence].
  destruct (partition lo (lo + n - 1) l) as [q l2].
  destruct (quicksort det_policy f lo (q - lo) l2 g (tr ++ [lo + n - 1])) as [[[l3 g3] tr3]|] eqn:Hq1;
    [|discriminate].
  apply IH in Hq1 as ->. by apply IH in Hq.
Qed.

(** ** Already sorted input, deterministic policy *)

(** The pivots [quicksort_deterministic] records on a sorted range of [n]
    elements from [lo]: [lo + n - 1], [lo + n - 2], ..., [lo + 1]. *)
Fixpoint sorted_trace (lo n : nat) : list nat :=
  match n with
  | O => []
  | S n' => match n' with O => [] | S _ => (lo + n') :: sorted_trace lo n' end
  end.

Lemma length_sorted_trace (lo n : nat) : length (sorted_trace lo n) = n - 1.
Proof. induction n as [|[|n] IH]; simpl in *; lia. Qed.

(** When every scanned element is at most the pivot, the loop swaps each
    element with itself. *)
Lemma partition_loop_all_le (pv : K) (P M R : list A) :
  Forall (le_pivot pv) M ->
  partition_loop pv (length P) (length P) (length M) (P ++ M ++ R)
  = (length P + length M, P ++ M ++ R).
Proof.
  revert P. induction M as [|a M IH]; intros P HM; simpl; [by rewrite Nat.add_0_r|].
  inversion HM as [|? ? Ha HM']; subst.
  rewrite list_lookup_middle by done. unfold le_pivot in Ha. rewrite Ha, swap_same.
  replace (P ++ a :: M ++ R) with ((P ++ [a]) ++ M ++ R) by by rewrite <-app_assoc.
  replace (S (length P)) with (length (P ++ [a])) by len_lia.
  rewrite IH by done. f_equal. len_lia.
Qed.

(** On a range whose last element is its maximum, [partition] changes
    nothing and returns [high]. *)
Lemma partition_max_last (P M Q : list A) (x : A) :
  Forall (le_pivot (key x)) M ->
  partition (length P) (length P + length M) (P ++ M ++ x :: Q)
  = (length P + length M, P ++ M ++ x :: Q).
Proof.
  intros HM. unfold partition.
  rewrite app_assoc, list_lookup_middle by len_lia. rewrite <-app_assoc.
  replace (length P + length M - length P) with (length M) by lia.
  rewrite partition_loop_all_le by done. by rewrite swap_same.
Qed.

(** The deterministic QuickSort on an already sorted range leaves the list
    as it is and records the [n - 1] pivots of [sorted_trace]: one call of
    [partition] per element but the first, the quadratic worst case. *)
Theorem quicksort_det_sorted {G : Type} (fuel lo n : nat) (l : list A) (g : G) (tr : list nat) :
  lo + n <= length l -> 1 <= fuel -> n <= fuel -> StronglySorted key_le (seg lo n l) ->
  quicksort det_policy fuel lo n l g tr = Some (l, g, tr ++ sorted_trace lo n).
Proof.
  revert lo n l tr. induction fuel as [|f IH]; intros lo n l tr Hlen H1 Hn Hs; [lia|].
  destruct (cut3 lo n l Hlen) as (P & M & Q & -> & <- & <-).
  rewrite shape_seg in Hs. rewrite quicksort_S. cbn zeta.
  destruct (Nat.leb_spec 2 (length M)) as [H2|H2].
  2: { destruct M as [|a [|b M]]; simpl in *; [| |lia]; by rewrite app_nil_r. }
  assert (HMn : M <> []) by (intros ->; simpl in H2; lia).
  destruct (exists_last HMn) as [M0 [x ->]].
  apply StronglySorted_app in Hs as (Hle & Hs0 & _).
  assert (HM0 : Forall (le_pivot (key x)) M0).
  { apply Forall_forall. intros a Ha. apply (Hle a x Ha). by apply list_elem_of_singleton. }
  rewrite length_app in *. simpl in *.
  replace (length P + (length M0 + 1) - 1) with (length P + length M0) by lia.
  unfold det_policy. rewrite <-app_assoc. simpl.
  rewrite partition_max_last by done.
  replace (length P + length M0 - length P) with (length M0) by lia.
  rewrite IH; [|len_lia|lia|lia|by rewrite shape_seg].
  rewrite Nat.sub_diag. simpl. destruct f as [|f]; [lia|]. simpl.
  rewrite <-app_assoc. do 2 f_equal.
  destruct (length M0) as [|m] eqn:Hm; [lia|].
  replace (S m + 1) with (S (S m)) by lia. simpl. f_equal.
Qed.

(** ** The pivot of the randomized policy *)

(** C18. [quicksort_randomized] draws [pivot_index] in [low..high] and swaps
    [arr[low]] with [arr[pivot_index]] (line 129), but [partition] then
    takes [arr[high]] as its pivot (line 148).  So the pivot is the
    element drawn only when the draw is [high]; for any other draw it is
    the element that was at [high] before, and when the draw is [high] it
    is the element that was at [low]. *)
Theorem rand_policy_pivot {G : Type} `{PyRandomLaws G} (lo hi : nat) (l : list A) (g : G) :
  lo < hi < length l ->
  let '(p, l1, _) := rand_policy lo hi l g in
  lo <= p <= hi /\ l1 !! hi = (if decide (p = hi) then l !! lo else l !! hi).
Proof.
  intros Hr. unfold rand_policy.
  pose proof (randint_range (Z.of_nat lo) (Z.of_nat hi) g) as Hp.
  destruct (randint _ _ g) as [p g'] eqn:E; simpl in *.
  split; [lia|]. unfold swap.
  destruct (lookup_lt_is_Some_2 l lo) as [x Hx]; [lia|].
  destruct (lookup_lt_is_Some_2 l (Z.to_nat p)) as [y Hy]; [lia|].
  rewrite Hx, Hy. case_decide as Hph.
  - rewrite Hph, list_lookup_insert_eq; [done|]. rewrite length_insert. lia.
  - rewrite list_lookup_insert_ne by done. by rewrite list_lookup_insert_ne by lia.
Qed.

End Model.

(** A strongly sorted list is ordered at every pair of positions. *)
Lemma StronglySorted_lookup {A : Type} (R : relation A) (l : list A) (i j : nat) (x y : A) :
  StronglySorted R l -> i < j -> l !! i = Some x -> l !! j = Some y -> R x y.
Proof.
  intros Hs. revert i j. induction Hs as [|a l Hs IH Hall]; intros i j Hij Hx Hy; [done|].
  destruct i as [|i], j as [|j]; simpl in *; [lia | | lia |].
  - injection Hx as <-. rewrite Forall_forall in Hall. apply Hall.
    by apply list_elem_of_lookup_2 in Hy.
  - apply (IH i j); [lia | done | done].
Qed.

(** Reading a list through [f] commutes with swapping it. *)
Lemma fmap_swap {A B : Type} (f : A -> B) (l : list A) (i j : nat) :
  f <$> swap l i j = swap (f <$> l) i j.
Proof.
  unfold swap. rewrite !list_lookup_fmap.
  destruct (l !! i), (l !! j); simpl; [|done..].
  by rewrite !list_fmap_insert.
Qed.


(** ** Concrete runs of the model on integers *)

#[local] Existing Instance LCG.lcg.
#[local] Existing Instance LCG.lcg_laws.

Lemma quicksort_sorts_witness :
  (0 + 3 <= length [3; 1; 2]%Z)%nat /\ (1 <= 3)%nat /\ (3 <= 3)%nat /\
  exists l' g' tr', quicksort (fun z : Z => z) det_policy 3 0 3 [3; 1; 2]%Z tt [] = Some (l', g', tr')
                    /\ qs_post (fun z : Z => z) 0 3 [3; 1; 2]%Z l' [] tr'.
Proof.
  split_and!; [simpl; lia | lia | lia |].
  apply (quicksort_sorts (fun z : Z => z) det_policy det_policy_ok); simpl; lia.
Defined.

Lemma rand_policy_pivot_witness :
  (0 < 2 < length [3; 1; 2]%Z)%nat /\
  let '(p, l1, _) := rand_policy 0 2 [3; 1; 2]%Z 7%Z in
  (0 <= p <= 2)%nat /\ l1 !! 2%nat = (if decide (p = 2%nat) then [3; 1; 2]%Z !! 0%nat else [3; 1; 2]%Z !! 2%nat).
Proof.
  split; [simpl; lia|]. exact (rand_policy_pivot 0 2 [3; 1; 2]%Z 7%Z ltac:(simpl; lia)).
Defined.

End Lomuto.
