(* ===== verification/State.v ===== *)
(** * The state of a [RaceSorterGame] object (src/project/code.py, lines 82-103)

    Every method of the game reads and writes [self]; [Game] is [self]
    with the fields [__init__] assigns that the modelled methods use
    (lines 91-101), together with the part of the Python runtime they
    touch: the store of [Racer] objects (references are [nat]), the next
    free reference and the state of the [random] module.  The pygame
    screen, clock and fonts (lines 84-89) are presentation and are left
    out.  One setter per field mirrors a Python attribute assignment
    [self.f = v]. *)

From S2P Require Import Prelude PyRandom Racer.

(** [class AlgorithmMode(Enum)] (lines 29-31). *)
Inductive AlgorithmMode : Type := RANDOMIZED | DETERMINISTIC.

#[export] Instance AlgorithmMode_eq_dec : EqDecision AlgorithmMode.
Proof. solve_decision. Defined.

(** The objects of the heap, by reference. *)
Definition store_t : Type := nat -> Racer.

(** [obj.f = ...] on the object [r]: every other object is untouched. *)
Definition store_set (h : store_t) (r : nat) (v : Racer) : store_t :=
  fun r' => if Nat.eq_dec r' r then v else h r'.

Lemma store_set_eq (h : store_t) (r : nat) (v : Racer) : store_set h r v r = v.
Proof. unfold store_set. by destruct (Nat.eq_dec r r). Qed.

Lemma store_set_ne (h : store_t) (r r' : nat) (v : Racer) :
  r' <> r -> store_set h r v r' = h r'.
Proof. unfold store_set. by destruct (Nat.eq_dec r' r). Qed.

#[export] Hint Rewrite store_set_eq : pysim_rw.

Record Game (G : Type) := mkGame {
  store : store_t;                (** the [Racer] objects *)
  next_ref : nat;                 (** first unallocated reference *)
  rng : G;                        (** state of the [random] module *)
  running : bool;
  racing : bool;
  race_complete : bool;
  algorithm_mode : AlgorithmMode;
  show_comparison : bool;
  racers : list nat;              (** [self.racers] *)
  finish_order : list nat;        (** [self.finish_order] *)
  race_start_time : Q;
  sort_operations : Z;
  pivot_highlights : list Z
}.
Arguments mkGame {G}.
Arguments store {G}. Arguments next_ref {G}. Arguments rng {G}.
Arguments running {G}. Arguments racing {G}. Arguments race_complete {G}.
Arguments algorithm_mode {G}. Arguments show_comparison {G}.
Arguments racers {G}. Arguments finish_order {G}. Arguments race_start_time {G}.
Arguments sort_operations {G}. Arguments pivot_highlights {G}.

Section Setters.
Context {G : Type}.

Definition set_store (h : store_t) (s : Game G) : Game G :=
  mkGame h (next_ref s) (rng s) (running s) (racing s) (race_complete s)
    (algorithm_mode s) (show_comparison s) (racers s) (finish_order s)
    (race_start_time s) (sort_operations s) (pivot_highlights s).
Definition set_next_ref (n : nat) (s : Game G) : Game G :=
  mkGame (store s) n (rng s) (running s) (racing s) (race_complete s)
    (algorithm_mode s) (show_comparison s) (racers s) (finish_order s)
    (race_start_time s) (sort_operations s) (pivot_highlights s).
Definition set_rng (g : G) (s : Game G) : Game G :=
  mkGame (store s) (next_ref s) g (running s) (racing s) (race_complete s)
    (algorithm_mode s) (show_comparison s) (racers s) (finish_order s)
    (race_start_time s) (sort_operations s) (pivot_highlights s).
Definition set_running (b : bool) (s : Game G) : Game G :=
  mkGame (store s) (next_ref s) (rng s) b (racing s) (race_complete s)
    (algorithm_mode s) (show_comparison s) (racers s) (finish_order s)
    (race_start_time s) (sort_operations s) (pivot_highlights s).
Definition set_racing (b : bool) (s : Game G) : Game G :=
  mkGame (store s) (next_ref s) (rng s) (running s) b (race_complete s)
    (algorithm_mode s) (show_comparison s) (racers s) (finish_order s)
    (race_start_time s) (sort_operations s) (pivot_highlights s).
Definition set_race_complete (b : bool) (s : Game G) : Game G :=
  mkGame (store s) (next_ref s) (rng s) (running s) (racing s) b
    (algorithm_mode s) (show_comparison s) (racers s) (finish_order s)
    (race_start_time s) (sort_operations s) (pivot_highlights s).
Definition set_algorithm_mode (m : AlgorithmMode) (s : Game G) : Game G :=
  mkGame (store s) (next_ref s) (rng s) (running s) (racing s) (race_complete s)
    m (show_comparison s) (racers s) (finish_order s)
    (race_start_time s) (sort_operations s) (pivot_highlights s).
Definition set_show_comparison (b : bool) (s : Game G) : Game G :=
  mkGame (store s) (next_ref s) (rng s) (running s) (racing s) (race_complete s)
    (algorithm_mode s) b (racers s) (finish_order s)
    (race_start_time s) (sort_operations s) (pivot_highlights s).
Definition set_racers (l : list nat) (s : Game G) : Game G :=
  mkGame (store s) (next_ref s) (rng s) (running s) (racing s) (race_complete s)
    (algorithm_mode s) (show_comparison s) l (finish_order s)
    (race_start_time s) (sort_operations s) (pivot_highlights s).
Definition set_finish_order (l : list nat) (s : Game G) : Game G :=
  mkGame (store s) (next_ref s) (rng s) (running s) (racing s) (race_complete s)
    (algorithm_mode s) (show_comparison s) (racers s) l
    (race_start_time s) (sort_operations s) (pivot_highlights s).
Definition set_race_start_time (t : Q) (s : Game G) : Game G :=
  mkGame (store s) (next_ref s) (rng s) (running s) (racing s) (race_complete s)
    (algorithm_mode s) (show_comparison s) (racers s) (finish_order s)
    t (sort_operations s) (pivot_highlights s).
Definition set_sort_operations (n : Z) (s : Game G) : Game G :=
  mkGame (store s) (next_ref s) (rng s) (running s) (racing s) (race_complete s)
    (algorithm_mode s) (show_comparison s) (racers s) (finish_order s)
    (race_start_time s) n (pivot_highlights s).
Definition set_pivot_highlights (l : list Z) (s : Game G) : Game G :=
  mkGame (store s) (next_ref s) (rng s) (running s) (racing s) (race_complete s)
    (algorithm_mode s) (show_comparison s) (racers s) (finish_order s)
    (race_start_time s) (sort_operations s) l.

(** [self.racers[i].f = ...] through a reference: update the object. *)
Definition update_obj (r : nat) (f : Racer -> Racer) (s : Game G) : Game G :=
  set_store (store_set (store s) r (f (store s r))) s.
End Setters.
