(* ===== verification/Engine.v ===== *)
(** * The sorting engine (src/project/code.py, lines 121-162)

    [partition], [quicksort_randomized] and [quicksort_deterministic]
    translated statement by statement as computations of [PyM (Game G)]:
    [arr] is [self.racers] (the only list the game passes them), a list of
    references into the object store; [arr[i]] follows Python indexing and
    raises [IndexError] out of range; the two-target assignments
    [a, b = e1, e2] read both right-hand sides first and assign left to
    right; [arr[i].lane = v] writes the object [arr[i]] refers to.  The
    recursion is fuelled, running out of fuel being [RecursionError].

    The theorems relate each method to the reference model of [Lomuto]
    (a forward simulation): on an in-range call and a list of distinct
    references, the method raises nothing, moves [self.racers] exactly as
    the model moves its list under the key [sort_value], records the same
    pivot indices, counts them in [sort_operations], leaves every attribute
    of every racer but [lane] alone, and leaves the lane values at their
    positions ([partition], deterministic mode).  In randomized mode the
    pivot swap of line 129 moves two references without their lanes.  On
    a sorted input the deterministic sort makes [n - 1] partition calls,
    and [partition] with [high] past the end raises [IndexError] before
    it writes. *)

From Stdlib Require Import String.
From stdpp Require Import sorting.
From S2P Require Import Prelude PyRandom Racer Lomuto State.
Import Lomuto.Lomuto.

#[local] Open Scope Z_scope.

(** A list ordered at every pair of positions is strongly sorted. *)
Lemma StronglySorted_of_lookup {A : Type} (R : relation A) (l : list A) :
  (forall (i j : nat) x y, (i < j)%nat -> l !! i = Some x -> l !! j = Some y -> R x y) ->
  StronglySorted R l.
Proof.
  induction l as [|a l IH]; intros Hl; constructor.
  - apply IH. intros i j x y Hij Hx Hy. by apply (Hl (S i) (S j)); [lia|..].
  - apply Forall_lookup_2. intros j y Hy. by apply (Hl 0%nat (S j)); [lia|..].
Qed.

Section Engine.
Context {G : Type} `{PyRandom G}.
Abbreviation M := (PyM (Game G)).

(** ** Statements of the methods *)

(** [arr[i]] *)
Definition arr_get (i : Z) : M nat :=
  s <- pget ;;
  match py_getitem (racers s) i with Some r => pret r | None => praise IndexError end.

(** [arr[i] = r] *)
Definition arr_set (i : Z) (r : nat) : M unit :=
  s <- pget ;;
  match py_setitem (racers s) i r with
  | Some l => pmodify (set_racers l)
  | None => praise IndexError
  end.

(** [arr[i].sort_value] *)
Definition sort_value_at (i : Z) : M Q :=
  r <- arr_get i ;; s <- pget ;; pret (sort_value (store s r)).

(** [arr[i].lane] *)
Definition lane_at (i : Z) : M Z :=
  r <- arr_get i ;; s <- pget ;; pret (lane (store s r)).

(** [arr[i].lane = v] *)
Definition set_lane_at (i : Z) (v : Z) : M unit :=
  r <- arr_get i ;; pmodify (update_obj r (set_lane v)).

(** [arr[a], arr[b] = arr[b], arr[a]] *)
Definition swap_items (a b : Z) : M unit :=
  rb <- arr_get b ;; ra <- arr_get a ;; arr_set a rb ;; arr_set b ra.

(** [arr[a].lane, arr[b].lane = arr[b].lane, arr[a].lane] *)
Definition swap_lanes (a b : Z) : M unit :=
  vb <- lane_at b ;; va <- lane_at a ;; set_lane_at a vb ;; set_lane_at b va.

(** The loop [for j in range(low, high)] of [partition] (lines 152-157),
    [n] iterations from [j] with boundary [i]; returns the final [i]. *)
Fixpoint partition_loop (pivot : Q) (i j : Z) (n : nat) : M Z :=
  match n with
  | O => pret i
  | S n' =>
      v <- sort_value_at j ;;
      if Qle_bool v pivot then
        swap_items (i + 1) j ;;
        swap_lanes (i + 1) j ;;
        partition_loop pivot (i + 1) (j + 1) n'
      else partition_loop pivot i (j + 1) n'
  end.

(** [partition(arr, low, high)] (lines 147-162). *)
Definition partition (low high : Z) : M Z :=
  pivot <- sort_value_at high ;;
  i <- partition_loop pivot (low - 1) low (Z.to_nat (high - low)) ;;
  swap_items (i + 1) high ;;
  swap_lanes (i + 1) high ;;
  pret (i + 1).

(** [self.pivot_highlights.append(p)] *)
Definition append_highlight (p : Z) : M unit :=
  pmodify (fun s => set_pivot_highlights (pivot_highlights s ++ [p]) s).

(** [self.sort_operations += 1] *)
Definition bump_operations : M unit :=
  pmodify (fun s => set_sort_operations (sort_operations s + 1) s).

(** [random.randint(a, b)] on the module's state. *)
Definition draw_randint (a b : Z) : M Z :=
  s <- pget ;;
  let '(v, g') := randint a b (rng s) in
  pmodify (set_rng g') ;; pret v.

(** [quicksort_randomized(arr, low, high)] (lines 121-133). *)
Fixpoint quicksort_randomized (fuel : nat) (low high : Z) : M unit :=
  match fuel with
  | O => praise RecursionError
  | S f =>
      if (low <? high)%Z then
        pivot_index <- draw_randint low high ;;
        append_highlight pivot_index ;;
        bump_operations ;;
        swap_items low pivot_index ;;
        pi <- partition low high ;;
        quicksort_randomized f low (pi - 1) ;;
        quicksort_randomized f (pi + 1) high
      else pret tt
  end.

(** [quicksort_deterministic(arr, low, high)] (lines 135-145). *)
Fixpoint quicksort_deterministic (fuel : nat) (low high : Z) : M unit :=
  match fuel with
  | O => praise RecursionError
  | S f =>
      if (low <? high)%Z then
        append_highlight high ;;
        bump_operations ;;
        pi <- partition low high ;;
        quicksort_deterministic f low (pi - 1) ;;
        quicksort_deterministic f (pi + 1) high
      else pret tt
  end.

(** ** Views of the state *)

(** The lane values in the order of [self.racers]. *)
Definition lanes (s : Game G) : list Z := (fun r => lane (store s r)) <$> racers s.

(** The sort key of each object. *)
Definition keys (s : Game G) : nat -> Q := fun r => sort_value (store s r).

(** Two stores that agree on every attribute of every object but [lane]. *)
Definition same_but_lanes (h h' : store_t) : Prop :=
  forall r, set_lane 0 (h r) = set_lane 0 (h' r).

(** [s'] is [s] after an in-place reordering to [l'] that only wrote
    lanes, and the lanes read in list order are unchanged. *)
Definition relane (s : Game G) (l' : list nat) (s' : Game G) : Prop :=
  s' = set_store (store s') (set_racers l' s) /\ same_but_lanes (store s) (store s')
  /\ lanes s' = lanes s.

(** ** The primitive statements *)

Lemma arr_get_ok (s : Game G) (i r : nat) :
  racers s !! i = Some r -> arr_get (Z.of_nat i) s = Ok r s.
Proof.
  intros Hr. unfold arr_get, pbind, pget.
  rewrite py_getitem_nat by (apply lookup_lt_Some in Hr; lia). by rewrite Hr.
Qed.

Lemma arr_set_ok (s : Game G) (i r : nat) :
  (i < length (racers s))%nat ->
  arr_set (Z.of_nat i) r s = Ok tt (set_racers (<[i := r]> (racers s)) s).
Proof. intros Hi. unfold arr_set, pbind, pget. by rewrite py_setitem_nat. Qed.

Lemma sort_value_at_ok (s : Game G) (i r : nat) :
  racers s !! i = Some r -> sort_value_at (Z.of_nat i) s = Ok (sort_value (store s r)) s.
Proof. intros Hr. unfold sort_value_at. by py_run (arr_get_ok s i r Hr). Qed.

Lemma lane_at_ok (s : Game G) (i r : nat) :
  racers s !! i = Some r -> lane_at (Z.of_nat i) s = Ok (lane (store s r)) s.
Proof. intros Hr. unfold lane_at. by py_run (arr_get_ok s i r Hr). Qed.

Lemma set_lane_at_ok (s : Game G) (i r : nat) (v : Z) :
  racers s !! i = Some r -> set_lane_at (Z.of_nat i) v s = Ok tt (update_obj r (set_lane v) s).
Proof. intros Hr. unfold set_lane_at. by py_run (arr_get_ok s i r Hr). Qed.

(** The item swap is the model's [swap] on [self.racers]. *)
Lemma swap_items_ok (s : Game G) (a b : nat) :
  (a < length (racers s))%nat -> (b < length (racers s))%nat ->
  swap_items (Z.of_nat a) (Z.of_nat b) s = Ok tt (set_racers (swap (racers s) a b) s).
Proof.
  intros Ha Hb.
  destruct (lookup_lt_is_Some_2 _ _ Ha) as [x Hx], (lookup_lt_is_Some_2 _ _ Hb) as [y Hy].
  unfold swap_items.
  py_run (arr_get_ok s b y Hy). py_run (arr_get_ok s a x Hx).
  py_run (arr_set_ok s a y Ha).
  rewrite arr_set_ok by (simpl; by rewrite length_insert).
  unfold swap. by rewrite Hx, Hy.
Qed.

Lemma set_lane_lane (r : Racer) : set_lane (lane r) r = r.
Proof. by destruct r. Qed.

Lemma set_lane_set_lane (u v : Z) (r : Racer) : set_lane u (set_lane v r) = set_lane u r.
Proof. reflexivity. Qed.

Lemma lane_set_lane (v : Z) (r : Racer) : lane (set_lane v r) = v.
Proof. reflexivity. Qed.

(** The two statements that [partition] runs for each swap (lines
    155-157 and 159-160): the references are swapped and then the lane
    values of the two objects, so that each position keeps its lane. *)
Lemma swap_pair_ok (s : Game G) (a b : nat) :
  NoDup (racers s) -> (a < length (racers s))%nat -> (b < length (racers s))%nat ->
  exists s', (swap_items (Z.of_nat a) (Z.of_nat b) ;; swap_lanes (Z.of_nat a) (Z.of_nat b)) s
             = Ok tt s' /\ relane s (swap (racers s) a b) s'.
Proof.
  intros Hnd Ha Hb.
  destruct (lookup_lt_is_Some_2 _ _ Ha) as [x Hx], (lookup_lt_is_Some_2 _ _ Hb) as [y Hy].
  py_run (swap_items_ok s a b Ha Hb).
  set (s1 := set_racers (swap (racers s) a b) s).
  assert (H1a : racers s1 !! a = Some y).
  { simpl. unfold swap. rewrite Hx, Hy.
    destruct (decide (a = b)) as [->|Hab]; [by rewrite list_lookup_insert_eq by (rewrite length_insert; lia); congruence|].
    rewrite list_lookup_insert_ne by done. by rewrite list_lookup_insert_eq by done. }
  assert (H1b : racers s1 !! b = Some x).
  { simpl. unfold swap. rewrite Hx, Hy. by rewrite list_lookup_insert_eq by (rewrite length_insert; lia). }
  unfold swap_lanes.
  py_run (lane_at_ok s1 b x H1b). py_run (lane_at_ok s1 a y H1a).
  py_run (set_lane_at_ok s1 a y (lane (store s1 x)) H1a).
  rewrite (set_lane_at_ok _ b x) by done.
  eexists. split; [reflexivity|].
  assert (Hxy : a <> b -> x <> y).
  { intros Hab ->. by apply Hab, (NoDup_lookup (racers s) a b y). }
  assert (Hlane : forall r, lane (store (update_obj x (set_lane (lane (store s1 y)))
                                     (update_obj y (set_lane (lane (store s1 x))) s1)) r)
                   = if Nat.eq_dec r x then lane (store s y)
                     else if Nat.eq_dec r y then lane (store s x) else lane (store s r)).
  { intros r. simpl. unfold store_set.
    destruct (Nat.eq_dec r x) as [->|Hrx]; [done|].
    destruct (Nat.eq_dec r y) as [->|Hry]; done. }
  split_and!.
  - reflexivity.
  - intros r. simpl. unfold store_set.
    destruct (Nat.eq_dec r x) as [->|]; [|destruct (Nat.eq_dec r y) as [->|]]; simpl;
      [destruct (Nat.eq_dec x y) as [->|]|..]; reflexivity.
  - unfold lanes. cbn [racers set_store update_obj].
    apply (fmap_swap_compensate _ _ _ a b x y Hnd Hx Hy); intros;
      rewrite Hlane; simpl;
      repeat destruct (Nat.eq_dec _ _); subst; try done; exfalso; eauto.
Qed.

(** ** Reordering steps *)

(** Every object has the key [k]: the input of the reference model. *)
Definition keyed (k : nat -> Q) (s : Game G) : Prop := forall r, sort_value (store s r) = k r.

Lemma relane_refl (s : Game G) : relane s (racers s) s.
Proof. split_and!; [by destruct s | done | done]. Qed.

Lemma relane_trans (s s1 s2 : Game G) (l1 l2 : list nat) :
  relane s l1 s1 -> relane s1 l2 s2 -> relane s l2 s2.
Proof.
  intros (E1 & S1 & L1) (E2 & S2 & L2). split_and!.
  - rewrite E2 at 1. rewrite E1. reflexivity.
  - intros r. by rewrite S1, S2.
  - by rewrite L2, L1.
Qed.

Lemma relane_racers (s s' : Game G) (l' : list nat) : relane s l' s' -> racers s' = l'.
Proof. intros (E & _ & _). by rewrite E. Qed.

Lemma same_but_lanes_sort_value (h h' : store_t) (r : nat) :
  same_but_lanes h h' -> sort_value (h' r) = sort_value (h r).
Proof. intros Hs. specialize (Hs r). apply (f_equal sort_value) in Hs. simpl in Hs. done. Qed.

Lemma keyed_same (k : nat -> Q) (s s' : Game G) :
  keyed k s -> same_but_lanes (store s) (store s') -> keyed k s'.
Proof. intros Hk Hs r. by rewrite (same_but_lanes_sort_value _ _ r Hs). Qed.

Lemma relane_keyed (k : nat -> Q) (s s' : Game G) (l' : list nat) :
  keyed k s -> relane s l' s' -> keyed k s'.
Proof. intros Hk (_ & Hs & _). by apply (keyed_same k s). Qed.

(** The loop of [partition] runs as the model's loop: with [i] the
    model's [s - 1], it raises nothing, reorders [self.racers] as the
    model and keeps every position's lane. *)
Lemma partition_loop_sim (k : nat -> Q) (pv : Q) (n : nat) :
  forall (s : Game G) (i j : nat) (iz jz : Z),
  iz = Z.of_nat i - 1 -> jz = Z.of_nat j -> keyed k s -> NoDup (racers s) ->
  (i <= j)%nat -> (j + n <= length (racers s))%nat ->
  exists s', partition_loop pv iz jz n s
             = Ok (Z.of_nat (Lomuto.partition_loop k pv i j n (racers s)).1 - 1) s'
             /\ relane s (Lomuto.partition_loop k pv i j n (racers s)).2 s'.
Proof.
  induction n as [|n IH]; intros s i j iz jz -> -> Hk Hnd Hij Hlen; simpl.
  { exists s. split; [done | apply relane_refl]. }
  destruct (lookup_lt_is_Some_2 (racers s) j) as [v Hv]; [lia|]. rewrite Hv.
  py_run (sort_value_at_ok s j v Hv). rewrite (Hk v).
  destruct (Qle_bool (k v) pv).
  - destruct (swap_pair_ok s i j Hnd ltac:(lia) ltac:(lia)) as (s1 & Hs1 & Hr1).
    replace (Z.of_nat i - 1 + 1) with (Z.of_nat i) by lia.
    rewrite <-pbind_assoc. py_run Hs1.
    pose proof (relane_racers _ _ _ Hr1) as Hl1.
    destruct (IH s1 (S i) (S j) (Z.of_nat i) (Z.of_nat j + 1)) as (s2 & Hs2 & Hr2);
      [lia | lia | by eapply relane_keyed | rewrite Hl1; by rewrite swap_perm | lia
      | rewrite Hl1, length_swap; lia |].
    rewrite Hl1 in Hs2, Hr2. exists s2. split; [done | by eapply relane_trans].
  - destruct (IH s i (S j) (Z.of_nat i - 1) (Z.of_nat j + 1)) as (s2 & Hs2 & Hr2);
      [lia | lia | done | done | lia | lia |].
    by exists s2.
Qed.

(** [partition] runs as the model's [partition]. *)
Lemma partition_sim (k : nat -> Q) (s : Game G) (lo hi : nat) :
  keyed k s -> NoDup (racers s) -> (lo <= hi < length (racers s))%nat ->
  exists s', partition (Z.of_nat lo) (Z.of_nat hi) s
             = Ok (Z.of_nat (Lomuto.partition k lo hi (racers s)).1) s'
             /\ relane s (Lomuto.partition k lo hi (racers s)).2 s'.
Proof.
  intros Hk Hnd Hr.
  destruct (lookup_lt_is_Some_2 (racers s) hi) as [p Hp]; [lia|].
  unfold partition, Lomuto.partition. rewrite Hp.
  py_run (sort_value_at_ok s hi p Hp). rewrite (Hk p).
  replace (Z.to_nat (Z.of_nat hi - Z.of_nat lo)) with (hi - lo)%nat by lia.
  destruct (partition_loop_sim k (k p) (hi - lo) s lo lo (Z.of_nat lo - 1) (Z.of_nat lo))
    as (s1 & Hs1 & Hr1); [lia | lia | done | done | lia | lia |].
  py_run Hs1.
  destruct (partition_loop_range k (k p) lo lo (hi - lo) (racers s)) as [Hi Hlen]; [lia|].
  destruct (Lomuto.partition_loop k (k p) lo lo (hi - lo) (racers s)) as [i l1]. simpl in *.
  pose proof (relane_racers _ _ _ Hr1) as Hl1. pose proof (Permutation_length Hlen) as Hlen'.
  replace (Z.of_nat i - 1 + 1) with (Z.of_nat i) by lia.
  destruct (swap_pair_ok s1 i hi) as (s2 & Hs2 & Hr2);
    [by rewrite Hl1, Hlen | rewrite Hl1, Hlen'; lia | rewrite Hl1, Hlen'; lia |].
  rewrite <-pbind_assoc. py_run Hs2. rewrite Hl1 in Hr2.
  exists s2. split; [done | by eapply relane_trans].
Qed.

(** ** The QuickSorts *)

(** [s'] differs from [s] at most in the fields the sorting methods
    write: the objects, [self.racers], the random state and the two
    instrumentation fields. *)
Definition engine_frame (s s' : Game G) : Prop :=
  s' = mkGame (store s') (next_ref s) (rng s') (running s) (racing s) (race_complete s)
         (algorithm_mode s) (show_comparison s) (racers s') (finish_order s)
         (race_start_time s) (sort_operations s') (pivot_highlights s').

Lemma engine_frame_refl (s : Game G) : engine_frame s s.
Proof. by destruct s. Qed.

Lemma engine_frame_trans (s s1 s2 : Game G) :
  engine_frame s s1 -> engine_frame s1 s2 -> engine_frame s s2.
Proof. unfold engine_frame. intros E1 E2. rewrite E2 at 1. rewrite E1. reflexivity. Qed.

Lemma relane_frame (s s' : Game G) (l' : list nat) : relane s l' s' -> engine_frame s s'.
Proof. intros (E & _ & _). by rewrite E at 1. Qed.

(** The recorded pivots and the operation count after the model has
    recorded [tr], from the values [pre] and [c] they had before. *)
Definition instr (pre : list Z) (c : Z) (s : Game G) (tr : list nat) : Prop :=
  pivot_highlights s = pre ++ (Z.of_nat <$> tr) /\ sort_operations s = c + Z.of_nat (length tr).

Lemma instr_record (pre : list Z) (c : Z) (s : Game G) (tr : list nat) (p : nat) :
  instr pre c s tr ->
  instr pre c (set_sort_operations (sort_operations s + 1)
                 (set_pivot_highlights (pivot_highlights s ++ [Z.of_nat p]) s)) (tr ++ [p]).
Proof.
  intros [Hh Ho]. unfold instr.
  cbn [pivot_highlights sort_operations set_sort_operations set_pivot_highlights].
  rewrite Hh, Ho, fmap_app, length_app, <-app_assoc. split; [done|cbn [length]; lia].
Qed.

(** What a sort call guarantees of its final state [s'] from [s]: only
    the engine's fields changed, [self.racers] is [l'], the generator is
    [g'], the instrumentation recorded [tr'], no attribute but [lane]
    changed, and the lanes read in list order are related by [LR]
    (equal, or a permutation). *)
Definition qs_result (LR : relation (list Z)) (s s' : Game G) (l' : list nat) (g' : G)
    (pre : list Z) (c : Z) (tr' : list nat) : Prop :=
  engine_frame s s' /\ racers s' = l' /\ rng s' = g' /\ instr pre c s' tr'
  /\ same_but_lanes (store s) (store s') /\ LR (lanes s') (lanes s).

Section WithLaneRelation.
Context (LR : relation (list Z)) `{!PreOrder LR}.

Lemma qs_result_refl (s : Game G) (pre : list Z) (c : Z) (tr : list nat) :
  instr pre c s tr -> qs_result LR s s (racers s) (rng s) pre c tr.
Proof. intros Hi. split_and!; [apply engine_frame_refl | done.. | reflexivity]. Qed.

Lemma qs_result_trans (s s1 s2 : Game G) (l1 l2 : list nat) (g1 g2 : G) pre c tr1 tr2 :
  qs_result LR s s1 l1 g1 pre c tr1 -> qs_result LR s1 s2 l2 g2 pre c tr2 ->
  qs_result LR s s2 l2 g2 pre c tr2.
Proof.
  intros (F1 & R1 & G1 & I1 & S1 & L1) (F2 & R2 & G2 & I2 & S2 & L2). split_and!.
  - by eapply engine_frame_trans.
  - done.
  - done.
  - done.
  - intros r. by rewrite S1, S2.
  - by etransitivity.
Qed.

(** Statements run before a call that only touch the engine's fields
    can be folded into the call's guarantee. *)
Lemma qs_result_prefix (s s1 s' : Game G) (l : list nat) (g : G) pre c tr :
  engine_frame s s1 -> same_but_lanes (store s) (store s1) -> LR (lanes s1) (lanes s) ->
  qs_result LR s1 s' l g pre c tr -> qs_result LR s s' l g pre c tr.
Proof.
  intros F1 S1 L1 (F2 & R2 & G2 & I2 & S2 & L2). split_and!; [by eapply engine_frame_trans | done..
  | intros r; by rewrite S1, S2 | by etransitivity].
Qed.

Lemma relane_qs_result (s s' : Game G) (l' : list nat) pre c tr :
  relane s l' s' -> instr pre c s tr -> qs_result LR s s' l' (rng s) pre c tr.
Proof.
  intros (E & Hsb & Hln) Hi. unfold qs_result, engine_frame.
  rewrite E. split_and!; [reflexivity | reflexivity | reflexivity | exact Hi
  | rewrite <-E; exact Hsb | rewrite <-E, Hln; reflexivity].
Qed.

(** The simulation a sort method [qsf] satisfies with fuel [f] against
    the model with policy [pol]. *)
Definition qs_sim (k : nat -> Q) (pol : policy G) (qsf : nat -> Z -> Z -> M unit) (f : nat) : Prop :=
  forall (s : Game G) (lo n : nat) (tr : list nat) (pre : list Z) (c : Z) l' g' tr',
  keyed k s -> NoDup (racers s) -> (lo + n <= length (racers s))%nat -> instr pre c s tr ->
  Lomuto.quicksort k pol f lo n (racers s) (rng s) tr = Some (l', g', tr') ->
  exists s', qsf f (Z.of_nat lo) (Z.of_nat lo + Z.of_nat n - 1) s = Ok tt s'
             /\ qs_result LR s s' l' g' pre c tr'.

(** The common tail of both methods (lines 131-133 and 143-145):
    [pi = partition(arr, low, high)] and the two recursive calls. *)
Lemma qs_tail_sim (k : nat -> Q) (pol : policy G) (Hpol : policy_ok pol)
    (qsf : nat -> Z -> Z -> M unit) (f : nat) (IH : qs_sim k pol qsf f)
    (s : Game G) (lo hi : nat) (tr : list nat) (pre : list Z) (c : Z) l' g' tr' :
  keyed k s -> NoDup (racers s) -> (lo <= hi < length (racers s))%nat -> instr pre c s tr ->
  (let '(q, l2) := Lomuto.partition k lo hi (racers s) in
   match Lomuto.quicksort k pol f lo (q - lo) l2 (rng s) tr with
   | Some (l3, g3, tr3) => Lomuto.quicksort k pol f (S q) (hi - q) l3 g3 tr3
   | None => None
   end) = Some (l', g', tr') ->
  exists s', (pi <- partition (Z.of_nat lo) (Z.of_nat hi) ;;
              qsf f (Z.of_nat lo) (pi - 1) ;; qsf f (pi + 1) (Z.of_nat hi)) s = Ok tt s'
             /\ qs_result LR s s' l' g' pre c tr'.
Proof.
  intros Hk Hnd Hr Hi Hq.
  destruct (partition_sim k s lo hi) as (s2 & Hs2 & Hr2); [done..|].
  py_run Hs2.
  destruct (partition_range k lo hi (racers s)) as [Hqr Hperm]; [lia|].
  destruct (Lomuto.partition k lo hi (racers s)) as [q l2]. simpl in Hqr, Hperm, Hr2.
  pose proof (relane_qs_result s s2 l2 pre c tr Hr2 Hi) as Hd2.
  pose proof Hd2 as (F2 & R2 & G2 & I2 & S2 & L2).
  destruct (Lomuto.quicksort k pol f lo (q - lo)%nat l2 (rng s) tr)
    as [[[l3 g3] tr3]|] eqn:Hq1; [|discriminate].
  destruct (IH s2 lo (q - lo)%nat tr pre c l3 g3 tr3) as (s3 & Hs3 & Hd3);
    [by apply (relane_keyed k s s2 l2) | by rewrite R2, Hperm
    | rewrite R2, (Permutation_length Hperm); lia | done | by rewrite R2, G2 |].
  replace (Z.of_nat lo + Z.of_nat (q - lo)%nat - 1) with (Z.of_nat q - 1) in Hs3 by lia.
  py_run Hs3.
  apply (quicksort_correct k pol Hpol) in Hq1 as [Hsp3 _];
    [|rewrite (Permutation_length Hperm); lia].
  apply seg_perm_perm in Hsp3; [|rewrite (Permutation_length Hperm); lia].
  pose proof Hd3 as (F3 & R3 & G3 & I3 & S3 & L3).
  destruct (IH s3 (S q) (hi - q)%nat tr3 pre c l' g' tr') as (s4 & Hs4 & Hd4);
    [apply (keyed_same k s2 s3); [by apply (relane_keyed k s s2 l2) | done] | by rewrite R3, Hsp3, Hperm
    | rewrite R3, (Permutation_length Hsp3), (Permutation_length Hperm); lia
    | done | by rewrite R3, G3 |].
  replace (Z.of_nat (S q) + Z.of_nat (hi - q)%nat - 1) with (Z.of_nat hi) in Hs4 by lia.
  replace (Z.of_nat (S q)) with (Z.of_nat q + 1) in Hs4 by lia.
  exists s4. split; [done|].
  eapply qs_result_trans; [exact Hd2|]. eapply qs_result_trans; [exact Hd3|exact Hd4].
Qed.
End WithLaneRelation.

Lemma det_policy_apply (lo hi : nat) (l : list nat) (g : G) : det_policy lo hi l g = (hi, l, g).
Proof. reflexivity. Qed.

(** The two statements before [partition] that record the pivot:
    [self.pivot_highlights.append(p)] and [self.sort_operations += 1]. *)
Lemma record_pivot_ok (s : Game G) (p : Z) (B : Type) (m : M B) :
  (append_highlight p ;; bump_operations ;; m) s
  = m (set_sort_operations (sort_operations s + 1)
         (set_pivot_highlights (pivot_highlights s ++ [p]) s)).
Proof. reflexivity. Qed.

(** [quicksort_deterministic] runs as the model's QuickSort with the
    deterministic policy on the key [k] of the objects: whenever the
    model returns, the method raises nothing and ends in the model's
    list, pivot trace and count, with the lanes where they were. *)
Theorem quicksort_deterministic_sim (k : nat -> Q) (fuel : nat) :
  qs_sim eq k det_policy quicksort_deterministic fuel.
Proof.
  induction fuel as [|f IH]; intros s lo n tr pre c l' g' tr' Hk Hnd Hlen Hi Hq; [discriminate|].
  rewrite quicksort_S in Hq. cbn zeta in Hq. cbn [quicksort_deterministic].
  destruct (Nat.leb_spec 2 n) as [Hn|Hn];
    destruct (Z.ltb_spec (Z.of_nat lo) (Z.of_nat lo + Z.of_nat n - 1)); try lia.
  2: { injection Hq as <- <- <-. exists s. split; [reflexivity|]. by apply (qs_result_refl eq). }
  rewrite (det_policy_apply lo) in Hq.
  replace (Z.of_nat lo + Z.of_nat n - 1) with (Z.of_nat (lo + n - 1)) by lia.
  rewrite record_pivot_ok.
  set (hi := (lo + n - 1)%nat) in *.
  set (s1 := set_sort_operations (sort_operations s + 1)
               (set_pivot_highlights (pivot_highlights s ++ [Z.of_nat hi]) s)).
  destruct (qs_tail_sim eq k det_policy det_policy_ok _ f IH s1 lo hi (tr ++ [hi]) pre c l' g' tr')
    as (s' & Hrun & Hres); [done | done | simpl; lia | by apply instr_record | done |].
  exists s'. split; [exact Hrun|].
  apply (qs_result_prefix eq s s1 s'); [reflexivity | intros r; reflexivity | reflexivity | exact Hres].
Qed.

(** [pivot_index = random.randint(low, high)] *)
Lemma draw_randint_ok (s : Game G) (a b : Z) (B : Type) (m : Z -> M B) :
  (v <- draw_randint a b ;; m v) s
  = m (randint a b (rng s)).1 (set_rng (randint a b (rng s)).2 s).
Proof. unfold draw_randint, pbind, pget. by destruct (randint a b (rng s)). Qed.

Lemma rand_policy_apply (lo hi : nat) (l : list nat) (g : G) :
  rand_policy lo hi l g =
  (Z.to_nat (randint (Z.of_nat lo) (Z.of_nat hi) g).1,
   swap l lo (Z.to_nat (randint (Z.of_nat lo) (Z.of_nat hi) g).1),
   (randint (Z.of_nat lo) (Z.of_nat hi) g).2).
Proof. unfold rand_policy. by destruct (randint (Z.of_nat lo) (Z.of_nat hi) g). Qed.

(** [quicksort_randomized] runs as the model's QuickSort with the
    randomized policy, for every generator whose [randint] stays in
    range: whenever the model returns, the method raises nothing, ends
    in the model's list, generator, pivot trace and count, and the lanes
    read in list order are a permutation of the lanes before. *)
Theorem quicksort_randomized_sim `{!PyRandomLaws G} (k : nat -> Q) (fuel : nat) :
  qs_sim Permutation k rand_policy quicksort_randomized fuel.
Proof.
  induction fuel as [|f IH]; intros s lo n tr pre c l' g' tr' Hk Hnd Hlen Hi Hq; [discriminate|].
  rewrite quicksort_S in Hq. cbn zeta in Hq. cbn [quicksort_randomized].
  destruct (Nat.leb_spec 2 n) as [Hn|Hn];
    destruct (Z.ltb_spec (Z.of_nat lo) (Z.of_nat lo + Z.of_nat n - 1)); try lia.
  2: { injection Hq as <- <- <-. exists s. split; [reflexivity|]. by apply (qs_result_refl Permutation). }
  replace (Z.of_nat lo + Z.of_nat n - 1) with (Z.of_nat (lo + n - 1)) by lia.
  set (hi := (lo + n - 1)%nat) in *.
  rewrite (rand_policy_apply lo) in Hq. rewrite draw_randint_ok, record_pivot_ok.
  pose proof (randint_range (Z.of_nat lo) (Z.of_nat hi) (rng s)) as Hp.
  destruct (randint (Z.of_nat lo) (Z.of_nat hi) (rng s)) as [p g1]. simpl in Hp, Hq |- *.
  specialize (Hp ltac:(lia)).
  rewrite <-(Z2Nat.id p) by lia. set (pn := Z.to_nat p) in *.
  set (s1 := set_sort_operations (sort_operations (set_rng g1 s) + 1)
               (set_pivot_highlights (pivot_highlights (set_rng g1 s) ++ [Z.of_nat pn]) (set_rng g1 s))).
  py_run (swap_items_ok s1 lo pn ltac:(simpl; lia) ltac:(simpl; lia)).
  set (s2 := set_racers (swap (racers s1) lo pn) s1).
  destruct (qs_tail_sim Permutation k rand_policy rand_policy_ok _ f IH s2 lo hi (tr ++ [pn]) pre c l' g' tr')
    as (s' & Hrun & Hres);
    [done | simpl; by rewrite swap_perm | simpl; rewrite length_swap; lia
    | by apply instr_record | done |].
  exists s'. split; [exact Hrun|].
  apply (qs_result_prefix Permutation s s2 s'); [reflexivity | intros r; reflexivity | | exact Hres].
  unfold lanes. simpl. by rewrite fmap_swap, swap_perm.
Qed.

(** ** Whole sorts of [self.racers] *)

(** [self.racers] ascending by [sort_value] at every pair of positions
    [i < j]. *)
Definition sorted_by_value (s : Game G) : Prop :=
  forall (i j r1 r2 : nat), (i < j)%nat -> racers s !! i = Some r1 -> racers s !! j = Some r2 ->
    (sort_value (store s r1) <= sort_value (store s r2))%Q.

Lemma sorted_by_value_of (k : nat -> Q) (s : Game G) :
  keyed k s -> StronglySorted (key_le k) (racers s) -> sorted_by_value s.
Proof.
  intros Hk Hs i j r1 r2 Hij H1 H2. rewrite !Hk. apply Qle_bool_iff.
  exact (StronglySorted_lookup _ _ i j r1 r2 Hs Hij H1 H2).
Qed.

(** What a call [qsf(self.racers, 0, len(self.racers) - 1)] guarantees,
    for a method that simulates the model under a policy drawing in
    range, with a fuel of at least [max 1 n]. *)
Lemma sort_run (LR : relation (list Z)) `{!PreOrder LR} (pol : policy G) (Hpol : policy_ok pol)
    (qsf : nat -> Z -> Z -> M unit) (s : Game G) (fuel : nat) :
  (forall f, qs_sim LR (keys s) pol qsf f) ->
  NoDup (racers s) -> (1 <= fuel)%nat -> (length (racers s) <= fuel)%nat ->
  exists s' t, qsf fuel 0 (Z.of_nat (length (racers s)) - 1) s = Ok tt s'
    /\ racers s' ≡ₚ racers s /\ sorted_by_value s'
    /\ pivot_highlights s' = pivot_highlights s ++ (Z.of_nat <$> t)
    /\ sort_operations s' = sort_operations s + Z.of_nat (length t)
    /\ (length t <= length (racers s) - 1)%nat /\ Forall (fun p => p < length (racers s))%nat t
    /\ LR (lanes s') (lanes s) /\ same_but_lanes (store s) (store s') /\ engine_frame s s'.
Proof.
  intros Hsim Hnd H1 Hn. remember (length (racers s)) as n eqn:Hn_def.
  destruct (quicksort_total (keys s) pol Hpol fuel 0 n (racers s) (rng s) [])
    as [[[l' g'] tr'] Hq]; [lia | lia | lia |].
  assert (Hi0 : instr (pivot_highlights s) (sort_operations s) s []).
  { split; [by rewrite fmap_nil, app_nil_r | simpl; lia]. }
  destruct (Hsim fuel s 0%nat n [] (pivot_highlights s) (sort_operations s) l' g' tr')
    as (s' & Hrun & F & R & _ & [Ih Io] & Sb & L);
    [intros r; reflexivity | done | lia | done | done |].
  apply (quicksort_correct (keys s) pol Hpol) in Hq as (Hsp & Hsorted & t & -> & Ht & Hlt); [|lia].
  pose proof (seg_perm_perm 0 n (racers s) l' ltac:(lia) Hsp) as Hperm.
  exists s', t. rewrite Ih, Io. simpl in Hrun |- *. split_and!; try done.
  - by rewrite R.
  - apply (sorted_by_value_of (keys s)); [by apply (keyed_same _ s) |].
    rewrite R. unfold seg in Hsorted. rewrite drop_0, take_ge in Hsorted; [done|].
    rewrite (Permutation_length Hperm). lia.
  - eapply Forall_impl; [exact Ht|]. simpl. lia.
Qed.

(** C1. [quicksort_deterministic(self.racers, 0, len - 1)] with a fuel of at
    least [max 1 n] raises nothing, leaves [self.racers] a permutation of
    itself, and ascending by [sort_value]. *)
Theorem quicksort_deterministic_correct (s : Game G) (fuel : nat) :
  NoDup (racers s) -> (1 <= fuel)%nat -> (length (racers s) <= fuel)%nat ->
  exists s', quicksort_deterministic fuel 0 (Z.of_nat (length (racers s)) - 1) s = Ok tt s'
    /\ racers s' ≡ₚ racers s /\ sorted_by_value s'.
Proof.
  intros Hnd H1 Hn.
  destruct (sort_run eq det_policy det_policy_ok quicksort_deterministic s fuel)
    as (s' & t & Hrun & Hp & Hs & _); [intros f; apply quicksort_deterministic_sim | done.. |].
  by exists s'.
Qed.

(** C2. [quicksort_randomized(self.racers, 0, len - 1)], for every
    generator whose [randint(a, b)] lies in [a..b], with a fuel of at least
    [max 1 n] raises nothing, leaves [self.racers] a permutation of itself,
    and ascending by [sort_value]. *)
Theorem quicksort_randomized_correct `{!PyRandomLaws G} (s : Game G) (fuel : nat) :
  NoDup (racers s) -> (1 <= fuel)%nat -> (length (racers s) <= fuel)%nat ->
  exists s', quicksort_randomized fuel 0 (Z.of_nat (length (racers s)) - 1) s = Ok tt s'
    /\ racers s' ≡ₚ racers s /\ sorted_by_value s'.
Proof.
  intros Hnd H1 Hn.
  destruct (sort_run Permutation rand_policy rand_policy_ok quicksort_randomized s fuel)
    as (s' & t & Hrun & Hp & Hs & _); [intros f; apply quicksort_randomized_sim | done.. |].
  by exists s'.
Qed.

(** ** The contract of [partition] *)

(** C14. [partition(arr, low, high)] on an in-range call over distinct
    references raises nothing and rearranges [arr[low..high]] into
    [L ++ [x] ++ R], [L] at most [x] and [R] above it by [sort_value],
    returning the position [low + len(L)] of [x]; it moves nothing outside
    the range, changes no attribute but [lane], and leaves the lane values
    where they were in list order. *)
Theorem partition_contract (s : Game G) (lo hi : nat) :
  NoDup (racers s) -> (lo <= hi < length (racers s))%nat ->
  exists s' L x R,
    partition (Z.of_nat lo) (Z.of_nat hi) s = Ok (Z.of_nat (lo + length L)) s'
    /\ racers s' = take lo (racers s) ++ L ++ x :: R ++ drop (S hi) (racers s)
    /\ L ++ x :: R ≡ₚ seg lo (S hi - lo) (racers s)
    /\ Forall (fun r => sort_value (store s r) <= sort_value (store s x))%Q L
    /\ Forall (fun r => sort_value (store s x) < sort_value (store s r))%Q R
    /\ lanes s' = lanes s /\ same_but_lanes (store s) (store s').
Proof.
  intros Hnd Hr.
  destruct (partition_sim (keys s) s lo hi) as (s' & Hrun & Hrel); [intros r; reflexivity | done..|].
  destruct (partition_spec (keys s) lo hi (racers s)) as (L & x & R & Hp & HL & HR & Hperm); [lia|].
  rewrite Hp in Hrun, Hrel. simpl in Hrun, Hrel. destruct Hrel as (E & Hsb & Hln).
  exists s', L, x, R. split_and!; [done | by rewrite E | done | | | done | done].
  - eapply Forall_impl; [exact HL|]. intros r Hle. by apply Qle_bool_iff.
  - eapply Forall_impl; [exact HR|]. intros r Hgt. apply Qnot_le_lt. intros Hle.
    apply Qle_bool_iff in Hle. unfold gt_pivot, keys in Hgt. simpl in Hgt. congruence.
Qed.

(** ** Whole sorts as refinements of the model *)

(** A method that simulates the model, run on the whole of [self.racers]. *)
Lemma run_refines (LR : relation (list Z)) `{!PreOrder LR} (pol : policy G) (Hpol : policy_ok pol)
    (qsf : nat -> Z -> Z -> M unit) (s : Game G) (fuel : nat) :
  qs_sim LR (keys s) pol qsf fuel ->
  NoDup (racers s) -> (1 <= fuel)%nat -> (length (racers s) <= fuel)%nat ->
  exists l' g' tr' s',
    Lomuto.quicksort (keys s) pol fuel 0 (length (racers s)) (racers s) (rng s) [] = Some (l', g', tr')
    /\ qsf fuel 0 (Z.of_nat (length (racers s)) - 1) s = Ok tt s'
    /\ racers s' = l' /\ rng s' = g'
    /\ pivot_highlights s' = pivot_highlights s ++ (Z.of_nat <$> tr')
    /\ sort_operations s' = sort_operations s + Z.of_nat (length tr')
    /\ LR (lanes s') (lanes s).
Proof.
  intros Hsim Hnd H1 Hn.
  destruct (quicksort_total (keys s) pol Hpol fuel 0 (length (racers s)) (racers s) (rng s) [])
    as [[[l' g'] tr'] Hq]; [lia | lia | lia |].
  destruct (Hsim s 0%nat (length (racers s)) [] (pivot_highlights s) (sort_operations s) l' g' tr')
    as (s' & Hrun & _ & R & Gr & [Ih Io] & _ & L);
    [intros r; reflexivity | done | lia | split; [by rewrite fmap_nil, app_nil_r | simpl; lia] | done |].
  exists l', g', tr', s'. by split_and!.
Qed.

(** C9. Refinement, deterministic mode: the model's QuickSort with the
    last-element policy returns on [self.racers] keyed by [sort_value],
    and [quicksort_deterministic] ends with [self.racers] equal to the
    model's list, the model's pivots appended to [self.pivot_highlights],
    one operation counted per pivot, and the lanes as they were. *)
Theorem quicksort_deterministic_refines (s : Game G) (fuel : nat) :
  NoDup (racers s) -> (1 <= fuel)%nat -> (length (racers s) <= fuel)%nat ->
  exists l' tr' s',
    Lomuto.quicksort (keys s) det_policy fuel 0 (length (racers s)) (racers s) (rng s) [] = Some (l', rng s, tr')
    /\ quicksort_deterministic fuel 0 (Z.of_nat (length (racers s)) - 1) s = Ok tt s'
    /\ racers s' = l' /\ rng s' = rng s
    /\ pivot_highlights s' = pivot_highlights s ++ (Z.of_nat <$> tr')
    /\ sort_operations s' = sort_operations s + Z.of_nat (length tr')
    /\ lanes s' = lanes s.
Proof.
  intros Hnd H1 Hn.
  destruct (run_refines eq det_policy det_policy_ok quicksort_deterministic s fuel)
    as (l' & g' & tr' & s' & Hq & Hrun & R & Gr & Ih & Io & L);
    [apply quicksort_deterministic_sim | done.. |].
  pose proof (quicksort_det_rng (keys s) fuel 0 _ _ _ _ _ _ _ Hq) as ->.
  exists l', tr', s'. by split_and!.
Qed.

(** C10. Refinement, randomized mode: for a generator whose [randint]
    stays in range, the model's QuickSort with the random-swap policy
    returns, and [quicksort_randomized] ends in the model's list and
    generator state, with the model's pivots recorded and counted; the
    lanes are permuted. *)
Theorem quicksort_randomized_refines `{!PyRandomLaws G} (s : Game G) (fuel : nat) :
  NoDup (racers s) -> (1 <= fuel)%nat -> (length (racers s) <= fuel)%nat ->
  exists l' g' tr' s',
    Lomuto.quicksort (keys s) rand_policy fuel 0 (length (racers s)) (racers s) (rng s) [] = Some (l', g', tr')
    /\ quicksort_randomized fuel 0 (Z.of_nat (length (racers s)) - 1) s = Ok tt s'
    /\ racers s' = l' /\ rng s' = g'
    /\ pivot_highlights s' = pivot_highlights s ++ (Z.of_nat <$> tr')
    /\ sort_operations s' = sort_operations s + Z.of_nat (length tr')
    /\ lanes s' ≡ₚ lanes s.
Proof.
  intros Hnd H1 Hn.
  exact (run_refines Permutation rand_policy rand_policy_ok quicksort_randomized s fuel
           (quicksort_randomized_sim _ fuel) Hnd H1 Hn).
Qed.

(** ** What the sorts do to the lanes and the instrumentation *)

(** C15. [quicksort_deterministic] changes no attribute of any racer but
    [lane], touches no field of the game but [self.racers], the objects and
    the two instrumentation fields, and leaves the lane values where they
    were in list order: [partition] swaps the lanes with the references,
    so the racer now at position [i] carries the lane of the racer that
    was at position [i] before. *)
Theorem quicksort_deterministic_lanes (s : Game G) (fuel : nat) :
  NoDup (racers s) -> (1 <= fuel)%nat -> (length (racers s) <= fuel)%nat ->
  exists s', quicksort_deterministic fuel 0 (Z.of_nat (length (racers s)) - 1) s = Ok tt s'
    /\ lanes s' = lanes s /\ same_but_lanes (store s) (store s') /\ engine_frame s s'.
Proof.
  intros Hnd H1 Hn.
  destruct (sort_run eq det_policy det_policy_ok quicksort_deterministic s fuel)
    as (s' & t & Hrun & _ & _ & _ & _ & _ & _ & HL & Hsb & Hf);
    [intros f; apply quicksort_deterministic_sim | done.. |].
  by exists s'.
Qed.

(** C16. Both sorts append one index to [self.pivot_highlights] per
    [sort_operations += 1]: at most [n - 1] of them on [n] racers, each a
    valid position of [self.racers]. *)
Theorem quicksort_instrumentation `{!PyRandomLaws G} (mode : AlgorithmMode) (s : Game G) (fuel : nat) :
  NoDup (racers s) -> (1 <= fuel)%nat -> (length (racers s) <= fuel)%nat ->
  exists s' t,
    (match mode with
     | RANDOMIZED => quicksort_randomized | DETERMINISTIC => quicksort_deterministic
     end) fuel 0 (Z.of_nat (length (racers s)) - 1) s = Ok tt s'
    /\ pivot_highlights s' = pivot_highlights s ++ (Z.of_nat <$> t)
    /\ sort_operations s' = sort_operations s + Z.of_nat (length t)
    /\ (length t <= length (racers s) - 1)%nat /\ Forall (fun p => p < length (racers s))%nat t.
Proof.
  intros Hnd H1 Hn. destruct mode.
  - destruct (sort_run Permutation rand_policy rand_policy_ok quicksort_randomized s fuel)
      as (s' & t & Hrun & _ & _ & Hh & Ho & Ht & Hr & _);
      [intros f; apply quicksort_randomized_sim | done.. |].
    by exists s', t.
  - destruct (sort_run eq det_policy det_policy_ok quicksort_deterministic s fuel)
      as (s' & t & Hrun & _ & _ & Hh & Ho & Ht & Hr & _);
      [intros f; apply quicksort_deterministic_sim | done.. |].
    by exists s', t.
Qed.

(** ** Already sorted input *)

Lemma sorted_by_value_StronglySorted (s : Game G) :
  sorted_by_value s -> StronglySorted (key_le (keys s)) (racers s).
Proof.
  intros Hs. apply StronglySorted_of_lookup.
  intros i j x y Hij Hx Hy. apply Qle_bool_iff. exact (Hs i j x y Hij Hx Hy).
Qed.

(** C17. On racers already ascending by [sort_value], [quicksort_deterministic]
    leaves [self.racers] as it is and records the pivots
    [n - 1, n - 2, ..., 1]: [n - 1] calls of [partition], the worst case
    of the last-element pivot. *)
Theorem quicksort_deterministic_sorted_input (s : Game G) (fuel : nat) :
  NoDup (racers s) -> (1 <= fuel)%nat -> (length (racers s) <= fuel)%nat -> sorted_by_value s ->
  exists s', quicksort_deterministic fuel 0 (Z.of_nat (length (racers s)) - 1) s = Ok tt s'
    /\ racers s' = racers s
    /\ pivot_highlights s' = pivot_highlights s ++ (Z.of_nat <$> sorted_trace 0 (length (racers s)))
    /\ sort_operations s' = sort_operations s + Z.of_nat (length (racers s) - 1).
Proof.
  intros Hnd H1 Hn Hs. remember (length (racers s)) as n eqn:Hn_def.
  assert (Hseg : seg 0 n (racers s) = racers s).
  { unfold seg. rewrite drop_0, take_ge; [done | lia]. }
  pose proof (quicksort_det_sorted (keys s) fuel 0 n (racers s) (rng s) [])
    as Hq. rewrite Hseg in Hq.
  destruct (quicksort_deterministic_sim (keys s) fuel s 0%nat n []
              (pivot_highlights s) (sort_operations s) (racers s) (rng s) ([] ++ sorted_trace 0 n))
    as (s' & Hrun & _ & R & _ & [Ih Io] & _);
    [intros r; reflexivity | done | lia | split; [by rewrite fmap_nil, app_nil_r | simpl; lia]
    | apply Hq; [lia | done | done | by apply sorted_by_value_StronglySorted] |].
  exists s'. simpl in Hrun. cbn [app] in Ih, Io. rewrite Ih, Io, length_sorted_trace. by split_and!.
Qed.

(** ** Boundary inputs and error paths *)

(** C24. [partition(arr, low, high)] with [high] past the end of [arr]
    raises [IndexError] at [arr[high]], before it changes anything. *)
Theorem partition_index_error (s : Game G) (low : Z) (high : nat) :
  (length (racers s) <= high)%nat -> partition low (Z.of_nat high) s = Raise IndexError s.
Proof.
  intros Hh. unfold partition, sort_value_at, arr_get, pbind, pget.
  rewrite py_getitem_ge by lia. reflexivity.
Qed.

End Engine.

(** ** Concrete runs *)

#[local] Existing Instance LCG.lcg.
#[local] Existing Instance LCG.lcg_laws.

Module Fixture.
(** A racer whose [sort_value] is [key]: [0.5 * (2 * key) + 0 + 0]. *)
Definition keyed_racer (nm : string) (key : Q) (ln : Z) : Racer :=
  set_lane ln (make_racer nm (0, 0, 0) (2 * key) 0 0).

(** The input [(A, 50), (B, 10), (C, 30)] of the spec's mode scenario,
    in lanes 0, 1, 2, with the generator seeded at 7. *)
Definition three : Game Z :=
  mkGame (fun r => match r with
                   | 0%nat => keyed_racer "A" 50 0
                   | 1%nat => keyed_racer "B" 10 1
                   | _ => keyed_racer "C" 30 2
                   end)
    3 7 true false false RANDOMIZED false [0; 1; 2]%nat [] 0 0 [].

Definition names : list string := ["Flash"; "Turbo"; "Nitro"; "Blaze"; "Storm"; "Rocket"]%string.

(** Racers [0 .. n-1] with the keys [ks] in lanes [0 .. n-1]. *)
Definition game_of (ks : list Q) : Game Z :=
  mkGame (fun r => keyed_racer (nth r names ""%string) (nth r ks 0%Q) (Z.of_nat r))
    (length ks) 7 true false false DETERMINISTIC false (seq 0 (length ks)) [] 0 0 [].

(** The spec's fixtures: six racers already ascending, and descending. *)
Definition six_sorted : Game Z := game_of [10; 20; 30; 40; 50; 60]%Q.
Definition six_reverse : Game Z := game_of [60; 50; 40; 30; 20; 10]%Q.
End Fixture.

Lemma quicksort_deterministic_correct_witness :
  NoDup (racers Fixture.three) /\ (1 <= 3)%nat /\ (length (racers Fixture.three) <= 3)%nat /\
  exists s', quicksort_deterministic 3 0 (Z.of_nat (length (racers Fixture.three)) - 1) Fixture.three
             = Ok tt s' /\ racers s' ≡ₚ racers Fixture.three /\ sorted_by_value s'.
Proof.
  split_and!; [apply (bool_decide_unpack _); vm_compute; reflexivity | lia | simpl; lia |].
  apply quicksort_deterministic_correct; [apply (bool_decide_unpack _); vm_compute; reflexivity | lia | simpl; lia].
Defined.

Lemma quicksort_randomized_correct_witness :
  NoDup (racers Fixture.three) /\ (1 <= 3)%nat /\ (length (racers Fixture.three) <= 3)%nat /\
  exists s', quicksort_randomized 3 0 (Z.of_nat (length (racers Fixture.three)) - 1) Fixture.three
             = Ok tt s' /\ racers s' ≡ₚ racers Fixture.three /\ sorted_by_value s'.
Proof.
  split_and!; [apply (bool_decide_unpack _); vm_compute; reflexivity | lia | simpl; lia |].
  apply quicksort_randomized_correct; [apply (bool_decide_unpack _); vm_compute; reflexivity | lia | simpl; lia].
Defined.

Lemma quicksort_deterministic_lanes_witness :
  NoDup (racers Fixture.three) /\ (1 <= 3)%nat /\ (length (racers Fixture.three) <= 3)%nat /\
  exists s', quicksort_deterministic 3 0 (Z.of_nat (length (racers Fixture.three)) - 1) Fixture.three
             = Ok tt s' /\ lanes s' = lanes Fixture.three
             /\ same_but_lanes (store Fixture.three) (store s') /\ engine_frame Fixture.three s'.
Proof.
  split_and!; [apply (bool_decide_unpack _); vm_compute; reflexivity | lia | simpl; lia |].
  apply quicksort_deterministic_lanes; [apply (bool_decide_unpack _); vm_compute; reflexivity | lia | simpl; lia].
Defined.

Lemma quicksort_instrumentation_witness :
  NoDup (racers Fixture.six_reverse) /\ (1 <= 6)%nat /\ (length (racers Fixture.six_reverse) <= 6)%nat /\
  exists s' t,
    quicksort_deterministic 6 0 (Z.of_nat (length (racers Fixture.six_reverse)) - 1) Fixture.six_reverse = Ok tt s'
    /\ pivot_highlights s' = pivot_highlights Fixture.six_reverse ++ (Z.of_nat <$> t)
    /\ sort_operations s' = sort_operations Fixture.six_reverse + Z.of_nat (length t)
    /\ (length t <= length (racers Fixture.six_reverse) - 1)%nat
    /\ Forall (fun p => p < length (racers Fixture.six_reverse))%nat t.
Proof.
  split_and!; [apply (bool_decide_unpack _); vm_compute; reflexivity | lia | simpl; lia |].
  apply (quicksort_instrumentation DETERMINISTIC);
    [apply (bool_decide_unpack _); vm_compute; reflexivity | lia | simpl; lia].
Defined.

Lemma quicksort_deterministic_sorted_input_witness :
  NoDup (racers Fixture.six_sorted) /\ (1 <= 6)%nat /\ (length (racers Fixture.six_sorted) <= 6)%nat
  /\ sorted_by_value Fixture.six_sorted /\
  exists s', quicksort_deterministic 6 0 (Z.of_nat (length (racers Fixture.six_sorted)) - 1) Fixture.six_sorted
             = Ok tt s' /\ racers s' = racers Fixture.six_sorted
    /\ pivot_highlights s' = pivot_highlights Fixture.six_sorted
                             ++ (Z.of_nat <$> sorted_trace 0 (length (racers Fixture.six_sorted)))
    /\ sort_operations s' = sort_operations Fixture.six_sorted + Z.of_nat (length (racers Fixture.six_sorted) - 1).
Proof.
  assert (Hs : sorted_by_value Fixture.six_sorted).
  { apply (sorted_by_value_of (keys Fixture.six_sorted)); [intros r; reflexivity|].
    apply (bool_decide_unpack _); vm_compute; reflexivity. }
  split_and!; [apply (bool_decide_unpack _); vm_compute; reflexivity | lia | simpl; lia | exact Hs |].
  apply quicksort_deterministic_sorted_input;
    [apply (bool_decide_unpack _); vm_compute; reflexivity | lia | simpl; lia | exact Hs].
Defined.

Lemma partition_contract_witness :
  NoDup (racers Fixture.three) /\ (0 <= 2 < length (racers Fixture.three))%nat /\
  exists s' L x R,
    partition (Z.of_nat 0) (Z.of_nat 2) Fixture.three = Ok (Z.of_nat (0 + length L)) s'
    /\ racers s' = take 0 (racers Fixture.three) ++ L ++ x :: R ++ drop 3 (racers Fixture.three)
    /\ L ++ x :: R ≡ₚ seg 0 (3 - 0) (racers Fixture.three)
    /\ Forall (fun r => sort_value (store Fixture.three r) <= sort_value (store Fixture.three x))%Q L
    /\ Forall (fun r => sort_value (store Fixture.three x) < sort_value (store Fixture.three r))%Q R
    /\ lanes s' = lanes Fixture.three /\ same_but_lanes (store Fixture.three) (store s').
Proof.
  split_and!; [apply (bool_decide_unpack _); vm_compute; reflexivity | lia | simpl; lia |].
  apply (partition_contract Fixture.three 0 2);
    [apply (bool_decide_unpack _); vm_compute; reflexivity | simpl; lia].
Defined.

Lemma quicksort_deterministic_refines_witness :
  NoDup (racers Fixture.three) /\ (1 <= 3)%nat /\ (length (racers Fixture.three) <= 3)%nat /\
  exists l' tr' s',
    Lomuto.quicksort (keys Fixture.three) det_policy 3 0 (length (racers Fixture.three))
      (racers Fixture.three) (rng Fixture.three) [] = Some (l', rng Fixture.three, tr')
    /\ quicksort_deterministic 3 0 (Z.of_nat (length (racers Fixture.three)) - 1) Fixture.three = Ok tt s'
    /\ racers s' = l' /\ rng s' = rng Fixture.three
    /\ pivot_highlights s' = pivot_highlights Fixture.three ++ (Z.of_nat <$> tr')
    /\ sort_operations s' = sort_operations Fixture.three + Z.of_nat (length tr')
    /\ lanes s' = lanes Fixture.three.
Proof.
  split_and!; [apply (bool_decide_unpack _); vm_compute; reflexivity | lia | simpl; lia |].
  apply quicksort_deterministic_refines; [apply (bool_decide_unpack _); vm_compute; reflexivity | lia | simpl; lia].
Defined.

Lemma quicksort_randomized_refines_witness :
  NoDup (racers Fixture.three) /\ (1 <= 3)%nat /\ (length (racers Fixture.three) <= 3)%nat /\
  exists l' g' tr' s',
    Lomuto.quicksort (keys Fixture.three) rand_policy 3 0 (length (racers Fixture.three))
      (racers Fixture.three) (rng Fixture.three) [] = Some (l', g', tr')
    /\ quicksort_randomized 3 0 (Z.of_nat (length (racers Fixture.three)) - 1) Fixture.three = Ok tt s'
    /\ racers s' = l' /\ rng s' = g'
    /\ pivot_highlights s' = pivot_highlights Fixture.three ++ (Z.of_nat <$> tr')
    /\ sort_operations s' = sort_operations Fixture.three + Z.of_nat (length tr')
    /\ lanes s' ≡ₚ lanes Fixture.three.
Proof.
  split_and!; [apply (bool_decide_unpack _); vm_compute; reflexivity | lia | simpl; lia |].
  apply quicksort_randomized_refines; [apply (bool_decide_unpack _); vm_compute; reflexivity | lia | simpl; lia].
Defined.

Lemma partition_index_error_witness :
  (length (racers Fixture.three) <= 3)%nat /\ partition 0 (Z.of_nat 3) Fixture.three = Raise IndexError Fixture.three.
Proof. split; [simpl; lia | apply partition_index_error; simpl; lia]. Defined.

