(* ===== verification/Game.v ===== *)
(** * The game's handlers (src/project/code.py, lines 105-119, 164-227, 369-399)

    [RaceSorterGame.init_racers], [find_median], [start_race], [update]
    and [handle_events], with [__init__] and one iteration of the frame
    loop of [run] (lines 401-410), as computations of [PyM (Game G)] over
    the state of [State].  [time.time()] is the parameter [now], the time
    the frame reads; [clock.tick(FPS) / 1000] is the parameter [dt].  The
    events of [pygame.event.get()] are a list of [Event]s.

    The theorems: the handlers raise nothing in a reachable state, and
    every reachable state satisfies [wf] (six distinct racers whose lanes
    are a permutation of [0..5], whose keys come from the attribute
    ranges, all on the track); [start_race] sorts, places and powers up
    the median at rest on the start line; the in-place sort equals
    Python's [sorted] on distinct keys; [find_median] on a sorted list is
    its middle element (on an empty list it raises [IndexError]). *)

From Stdlib Require Import String.
From stdpp Require Import sorting.
From S2P Require Import Prelude PyRandom Racer Lomuto State Engine.
Import Lomuto.Lomuto.

#[local] Open Scope Z_scope.

(** The colours of [init_racers] (lines 18-23). *)
Definition RED : color := (255, 50, 50).
Definition GREEN : color := (50, 255, 50).
Definition BLUE : color := (50, 50, 255).
Definition YELLOW : color := (255, 255, 50).
Definition PURPLE : color := (255, 50, 255).
Definition CYAN : color := (50, 255, 255).

(** Python's default recursion limit.  The sort runs below five frames
    ([<module>], [run], [handle_events], [start_race] and, at the deepest
    level, [partition]), which leaves [RECURSION_LIMIT - 5] levels of
    QuickSort calls. *)
Definition RECURSION_LIMIT : nat := 1000.
Definition sort_fuel : nat := RECURSION_LIMIT - 5.

(** The key codes [handle_events] tests (lines 377-395), and the others. *)
Inductive Key : Type := K_ESCAPE | K_SPACE | K_r | K_d | K_c | K_RETURN | K_other.

(** The event types [handle_events] tests (lines 372-375), and the others. *)
Inductive Event : Type := QUIT | KEYDOWN (k : Key) | OTHER_EVENT.

(** [sorted(arr, key=...)]: Python's sort is stable, and the stable sort
    of a list is unique, so insertion sort stands for it. *)
Fixpoint insert_by (k : nat -> Q) (x : nat) (l : list nat) : list nat :=
  match l with
  | [] => [x]
  | y :: l' => if Qle_bool (k x) (k y) then x :: l else y :: insert_by k x l'
  end.

Definition py_sorted (k : nat -> Q) (l : list nat) : list nat := foldr (insert_by k) [] l.

(** ** Python's [sorted] *)

Lemma insert_by_perm (k : nat -> Q) (x : nat) (l : list nat) : insert_by k x l ≡ₚ x :: l.
Proof.
  induction l as [|y l IH]; simpl; [done|].
  destruct (Qle_bool (k x) (k y)); [done|]. rewrite IH. by constructor.
Qed.

Lemma py_sorted_perm (k : nat -> Q) (l : list nat) : py_sorted k l ≡ₚ l.
Proof. induction l as [|x l IH]; simpl; [done|]. by rewrite insert_by_perm, IH. Qed.

Lemma insert_by_sorted (k : nat -> Q) (x : nat) (l : list nat) :
  StronglySorted (key_le k) l -> StronglySorted (key_le k) (insert_by k x l).
Proof.
  induction l as [|y l IH]; intros Hs; simpl; [repeat constructor|].
  apply StronglySorted_inv in Hs as [Hs Hy].
  destruct (Qle_bool (k x) (k y)) eqn:Hxy.
  - constructor; [by constructor|]. constructor; [exact Hxy|].
    eapply Forall_impl; [exact Hy|]. intros z Hz. exact (kle_trans (k x) (k y) (k z) Hxy Hz).
  - constructor; [by apply IH|]. rewrite insert_by_perm. constructor; [|exact Hy].
    exact (kle_false_flip (k x) (k y) Hxy).
Qed.

Lemma py_sorted_sorted (k : nat -> Q) (l : list nat) : StronglySorted (key_le k) (py_sorted k l).
Proof. induction l as [|x l IH]; simpl; [constructor|]. by apply insert_by_sorted. Qed.

(** On a list already ascending, [sorted] returns it as it is. *)
Lemma py_sorted_id (k : nat -> Q) (l : list nat) : StronglySorted (key_le k) l -> py_sorted k l = l.
Proof.
  induction l as [|x l IH]; intros Hs; simpl; [done|].
  apply StronglySorted_inv in Hs as [Hs Hx]. rewrite IH by done.
  destruct l as [|y l]; simpl; [done|]. inversion Hx as [|? ? Hxy _]; subst.
  unfold key_le in Hxy. simpl in Hxy. by rewrite Hxy.
Qed.

Module RaceSorterGame.
Section Methods.
Context {G : Type} `{PyRandom G}.
Abbreviation M := (PyM (Game G)).

Definition names : list string := ["Flash"; "Turbo"; "Nitro"; "Blaze"; "Storm"; "Rocket"]%string.
Definition colors : list color := [RED; BLUE; GREEN; YELLOW; PURPLE; CYAN].

(** [random.uniform(a, b)] on the module's state. *)
Definition draw_uniform (a b : Q) : M Q :=
  s <- pget ;;
  let '(v, g') := uniform a b (rng s) in
  pmodify (set_rng g') ;; pret v.

(** [Racer(...)]: a fresh object of the heap. *)
Definition new_racer (r : Racer) : M nat :=
  s <- pget ;;
  pmodify (fun s => set_next_ref (S (next_ref s)) (set_store (store_set (store s) (next_ref s) r) s)) ;;
  pret (next_ref s).

(** One iteration of the loop of [init_racers] (lines 112-119); [i] is in
    [range(6)], so [names[i]] and [colors[i]] are in range. *)
Definition init_racer (i : nat) : M unit :=
  base_speed <- draw_uniform 80 120 ;;
  acceleration <- draw_uniform 20 40 ;;
  handling <- draw_uniform 60 95 ;;
  r <- new_racer (make_racer (nth i names ""%string) (nth i colors (0, 0, 0))
                    base_speed acceleration handling) ;;
  pmodify (update_obj r (set_y (200 + Z.of_nat i * 60))) ;;
  pmodify (update_obj r (set_lane (Z.of_nat i))) ;;
  pmodify (fun s => set_racers (racers s ++ [r]) s).

(** [init_racers] (lines 105-119). *)
Definition init_racers : M unit :=
  pmodify (set_racers []) ;; py_for (seq 0 6) init_racer.

(** [find_median(arr)] (lines 164-168). *)
Definition find_median (arr : list nat) : M nat :=
  s <- pget ;;
  let sorted_by_value := py_sorted (keys s) arr in
  let median_index := Z.of_nat (length sorted_by_value) / 2 in
  match py_getitem sorted_by_value median_index with
  | Some r => pret r
  | None => praise IndexError
  end.

(** [if self.algorithm_mode == RANDOMIZED: ... else: ...] (lines 189-192). *)
Definition sort_racers : M unit :=
  s <- pget ;;
  let high := Z.of_nat (length (racers s)) - 1 in
  match algorithm_mode s with
  | RANDOMIZED => quicksort_randomized sort_fuel 0 high
  | DETERMINISTIC => quicksort_deterministic sort_fuel 0 high
  end.

(** [start_race] (lines 170-201). *)
Definition start_race (now : Q) : M unit :=
  pmodify (set_racing true) ;;
  pmodify (set_race_complete false) ;;
  pmodify (set_finish_order []) ;;
  pmodify (set_race_start_time now) ;;
  pmodify (set_sort_operations 0) ;;
  pmodify (set_pivot_highlights []) ;;
  s <- pget ;;
  py_for (racers s) (fun r => pmodify (update_obj r reset_for_race)) ;;
  sort_racers ;;
  s <- pget ;;
  py_for_enum 0 (racers s) (fun i r => pmodify (update_obj r (set_y (200 + Z.of_nat i * 60)))) ;;
  s <- pget ;;
  median_racer <- find_median (racers s) ;;
  pmodify (update_obj median_racer activate_power).

(** [racer.update(dt, boost)] on the object [r] (line 213). *)
Definition racer_update (r : nat) (dt boost : Q) : M unit :=
  s <- pget ;;
  let '(v, g') := Racer.update dt boost (store s r) (rng s) in
  pmodify (fun s => set_rng g' (set_store (store_set (store s) r v) s)).

(** The body of the loop of [update] for the racer [r] (lines 210-224);
    it returns [racer.finished], which decides [all_finished]. *)
Definition update_racer (dt now : Q) (r : nat) : M bool :=
  s <- pget ;;
  let boost := if power_active (store s r) then (3 # 2)%Q else 1%Q in
  racer_update r dt boost ;;
  s <- pget ;;
  (if power_active (store s r) then pmodify (update_obj r (tick_power dt)) else pret tt) ;;
  s <- pget ;;
  (if finished (store s r) && negb (bool_decide (r ∈ finish_order s)) then
     pmodify (update_obj r (set_finish_time (now - race_start_time s)%Q)) ;;
     pmodify (fun s => set_finish_order (finish_order s ++ [r]) s)
   else pret tt) ;;
  s <- pget ;;
  pret (finished (store s r)).

(** [for racer in self.racers: ...] with [all_finished]. *)
Fixpoint update_loop (dt now : Q) (rs : list nat) (all_finished : bool) : M bool :=
  match rs with
  | [] => pret all_finished
  | r :: rs' => f <- update_racer dt now r ;; update_loop dt now rs' (all_finished && f)
  end.

(** [update(dt)] (lines 203-227). *)
Definition update (dt now : Q) : M unit :=
  s <- pget ;;
  if racing s && negb (race_complete s) then
    all_finished <- update_loop dt now (racers s) true ;;
    if all_finished then pmodify (set_race_complete true) else pret tt
  else pret tt.

(** The body of the loop of [handle_events] for one event (lines 372-399). *)
Definition handle_event (now : Q) (e : Event) : M unit :=
  match e with
  | QUIT => pmodify (set_running false)
  | KEYDOWN k =>
      s <- pget ;;
      match k with
      | K_ESCAPE =>
          if show_comparison s then pmodify (set_show_comparison false)
          else pmodify (set_running false)
      | K_SPACE => if negb (racing s) then start_race now else pret tt
      | K_r => pmodify (set_algorithm_mode RANDOMIZED) ;; init_racers
      | K_d => pmodify (set_algorithm_mode DETERMINISTIC) ;; init_racers
      | K_c => pmodify (set_show_comparison true)
      | K_RETURN =>
          if race_complete s then
            pmodify (set_racing false) ;; pmodify (set_race_complete false) ;; init_racers
          else pret tt
      | K_other => pret tt
      end
  | OTHER_EVENT => pret tt
  end.

(** [handle_events] (lines 369-399). *)
Definition handle_events (now : Q) (es : list Event) : M unit := py_for es (handle_event now).

(** One iteration of [while self.running] in [run] (lines 403-409),
    without the drawing. *)
Definition frame (dt now : Q) (es : list Event) : M unit :=
  handle_events now es ;;
  s <- pget ;;
  if show_comparison s then pret tt else update dt now.

(** The object every unallocated reference stands for. *)
Definition no_racer : Racer := make_racer "" (0, 0, 0) 0%Q 0%Q 0%Q.

(** [RaceSorterGame()] (lines 83-103) with the random state [g]. *)
Definition new_game (g : G) : res (Game G) unit :=
  init_racers (mkGame (fun _ => no_racer) 0 g true false false RANDOMIZED false [] [] 0%Q 0 []).


(** ** Loops that update the racers through their references *)

Lemma py_for_enum_update_obj (f : nat -> Racer -> Racer) (k : nat) (rs : list nat) (s : Game G) :
  NoDup rs ->
  exists s', py_for_enum k rs (fun i r => pmodify (update_obj r (f i))) s = Ok tt s'
    /\ s' = set_store (store s') s
    /\ (forall j r, rs !! j = Some r -> store s' r = f (k + j)%nat (store s r))
    /\ (forall r, r ∉ rs -> store s' r = store s r).
Proof.
  revert k s. induction rs as [|a rs IH]; intros k s Hnd.
  { exists s. split_and!; [done | by destruct s | by intros ?? | done]. }
  apply NoDup_cons in Hnd as [Ha Hnd].
  destruct (IH (S k) (update_obj a (f k) s) Hnd) as (s' & Hrun & Hs' & Hin & Hout).
  exists s'. cbn [py_for_enum]. split_and!.
  - exact Hrun.
  - rewrite Hs' at 1. reflexivity.
  - intros [|j] r Hj; simpl in Hj.
    + injection Hj as <-. rewrite Hout by done. unfold update_obj. simpl.
      rewrite store_set_eq. f_equal. lia.
    + rewrite (Hin j r Hj). unfold update_obj. simpl. rewrite store_set_ne.
      * f_equal. lia.
      * intros ->. apply Ha. by apply (list_elem_of_lookup_2 rs j).
  - intros r Hr. apply not_elem_of_cons in Hr as [Hra Hr].
    rewrite Hout by done. unfold update_obj. simpl. by rewrite store_set_ne.
Qed.

Lemma py_for_as_enum {St A : Type} (xs : list A) (body : A -> PyM St unit) (k : nat) :
  py_for xs body = py_for_enum k xs (fun _ x => body x).
Proof. revert k. induction xs as [|x xs IH]; intros k; [done|]. simpl. by rewrite (IH (S k)). Qed.

(** ** [init_racers] *)

(** What [init_racer i] builds at a fresh reference. *)
Definition fresh_racer (i : nat) (v : Racer) : Prop :=
  name v = nth i names ""%string /\ lane v = Z.of_nat i /\ y v = 200 + Z.of_nat i * 60
  /\ key_ok v /\ on_track v /\ x v = 100%Q /\ finished v = false /\ power_active v = false
  /\ rcolor v = nth i colors (0, 0, 0)%Z.

(** [s'] differs from [s] only in the heap, the random state and
    [self.racers]. *)
Definition init_frame (s s' : Game G) : Prop :=
  s' = mkGame (store s') (next_ref s') (rng s') (running s) (racing s) (race_complete s)
         (algorithm_mode s) (show_comparison s) (racers s') (finish_order s)
         (race_start_time s) (sort_operations s) (pivot_highlights s).

Lemma init_frame_trans (s s1 s2 : Game G) : init_frame s s1 -> init_frame s1 s2 -> init_frame s s2.
Proof. unfold init_frame. intros E1 E2. rewrite E2 at 1. rewrite E1. reflexivity. Qed.

Lemma draw_uniform_ok `{!PyRandomLaws G} (a b : Q) (s : Game G) :
  (a <= b)%Q ->
  (a <= (uniform a b (rng s)).1 <= b)%Q
  /\ draw_uniform a b s = Ok (uniform a b (rng s)).1 (set_rng (uniform a b (rng s)).2 s).
Proof.
  intros Hab. pose proof (uniform_range a b (rng s) Hab) as Hr.
  unfold draw_uniform, pbind, pget, pmodify, pret. by destruct (uniform a b (rng s)) as [v g'].
Qed.

Lemma init_racer_ok `{!PyRandomLaws G} (i : nat) (s : Game G) :
  exists s', init_racer i s = Ok tt s'
    /\ racers s' = racers s ++ [next_ref s] /\ next_ref s' = S (next_ref s)
    /\ (forall r, r <> next_ref s -> store s' r = store s r)
    /\ fresh_racer i (store s' (next_ref s)) /\ init_frame s s'.
Proof.
  unfold init_racer.
  destruct (draw_uniform_ok 80 120 s) as [Hbs E1]; [lra|]. py_run E1.
  destruct (draw_uniform_ok 20 40 (set_rng (uniform 80 120 (rng s)).2 s)) as [Hac E2]; [lra|]. py_run E2.
  match goal with |- context [pbind (draw_uniform 60 95) _ ?s2] =>
    destruct (draw_uniform_ok 60 95 s2) as [Hhd E3]; [lra|]; py_run E3 end.
  unfold new_racer, update_obj, pbind, pget, pmodify, pret. simpl in *.
  eexists. split; [reflexivity|]. simpl. split_and!; [done | done | | | reflexivity].
  - intros r Hr. rewrite !store_set_ne by done. reflexivity.
  - rewrite !store_set_eq. unfold fresh_racer. simpl.
    match goal with |- context [make_racer ?nm ?c ?bs ?ac ?hd] =>
      pose proof (make_racer_key_ok nm c bs ac hd Hbs Hac Hhd) as Hk end.
    split_and!; try reflexivity; [exact Hk | split; [apply Qle_bool_iff; reflexivity | discriminate]].
Qed.

Lemma init_loop_ok `{!PyRandomLaws G} (k m : nat) (s : Game G) :
  exists s', py_for (seq k m) init_racer s = Ok tt s'
    /\ racers s' = racers s ++ seq (next_ref s) m /\ next_ref s' = (next_ref s + m)%nat
    /\ (forall r, (r < next_ref s)%nat -> store s' r = store s r)
    /\ (forall j, (j < m)%nat -> fresh_racer (k + j) (store s' (next_ref s + j)%nat))
    /\ init_frame s s'.
Proof.
  revert k s. induction m as [|m IH]; intros k s.
  { exists s. split_and!; [done | by rewrite app_nil_r | lia | done | lia | by destruct s]. }
  cbn [seq py_for].
  destruct (init_racer_ok k s) as (s1 & E1 & R1 & N1 & S1 & F1 & I1). py_run E1.
  destruct (IH (S k) s1) as (s2 & E2 & R2 & N2 & S2 & F2 & I2).
  exists s2. split_and!.
  - exact E2.
  - rewrite R2, R1, N1, <-app_assoc. reflexivity.
  - lia.
  - intros r Hr. rewrite S2 by lia. apply S1. lia.
  - intros [|j] Hj.
    + rewrite !Nat.add_0_r, S2 by lia. exact F1.
    + specialize (F2 j ltac:(lia)). rewrite N1 in F2.
      replace (S k + j)%nat with (k + S j)%nat in F2 by lia.
      replace (S (next_ref s) + j)%nat with (next_ref s + S j)%nat in F2 by lia. exact F2.
  - by eapply init_frame_trans.
Qed.

(** [init_racers] builds six fresh racers [Flash .. Rocket] at the next
    six references, in lanes [0 .. 5] at [y = 200 + 60 i]; it changes
    nothing else of the game but the random state. *)
Lemma init_racers_ok `{!PyRandomLaws G} (s : Game G) :
  exists s', init_racers s = Ok tt s'
    /\ racers s' = seq (next_ref s) 6 /\ next_ref s' = (next_ref s + 6)%nat
    /\ (forall r, (r < next_ref s)%nat -> store s' r = store s r)
    /\ (forall j, (j < 6)%nat -> fresh_racer j (store s' (next_ref s + j)%nat))
    /\ init_frame s s'.
Proof.
  destruct (init_loop_ok 0 6 (set_racers [] s)) as (s' & E & R & N & St & F & I).
  exists s'. split_and!; [exact E | exact R | exact N | exact St | exact F |].
  unfold init_frame in *. rewrite I at 1. reflexivity.
Qed.

(** ** The invariant of the game *)

(** Six distinct allocated racers whose lanes, read in list order, are a
    permutation of [0 .. 5], whose keys come from the attribute ranges of
    [init_racers], all on the track. *)
Definition wf (s : Game G) : Prop :=
  NoDup (racers s) /\ length (racers s) = 6%nat
  /\ Forall (fun r => r < next_ref s)%nat (racers s)
  /\ lanes s ≡ₚ Z.of_nat <$> seq 0 6
  /\ Forall (fun r => key_ok (store s r) /\ on_track (store s r)) (racers s).

(** [v'] is [v] after a step that keeps its identity, key and lane, and
    keeps it on the track. *)
Definition keeps (v v' : Racer) : Prop :=
  static v' = static v /\ lane v' = lane v /\ (on_track v -> on_track v').

#[export] Instance keeps_preorder : PreOrder keeps.
Proof.
  split; [intros v; split_and!; auto|].
  intros v1 v2 v3 (S1 & L1 & O1) (S2 & L2 & O2). split_and!; [congruence | congruence | auto].
Qed.

Lemma wf_keeps (s s' : Game G) :
  wf s -> racers s' = racers s -> (next_ref s <= next_ref s')%nat ->
  (forall r, r ∈ racers s -> keeps (store s r) (store s' r)) -> wf s'.
Proof.
  intros (Hnd & Hl & Hr & Hln & Hk) Er Hn Hkeep. unfold wf. rewrite Er. split_and!; try done.
  - eapply Forall_impl; [exact Hr|]. simpl. lia.
  - rewrite <-Hln. enough (E : lanes s' = lanes s) by (rewrite E; done).
    unfold lanes. rewrite Er. apply list_fmap_ext.
    intros i r Hi. apply Hkeep. by eapply list_elem_of_lookup_2.
  - rewrite Forall_forall in Hk |- *. intros r Hr'.
    destruct (Hk r Hr') as [K O]. destruct (Hkeep r Hr') as (Hs & _ & Ho).
    split; [by eapply key_ok_static | auto].
Qed.

(** The state after [init_racers] satisfies the invariant. *)
Lemma init_racers_wf `{!PyRandomLaws G} (s : Game G) :
  exists s', init_racers s = Ok tt s' /\ wf s' /\ init_frame s s' /\ (next_ref s <= next_ref s')%nat
    /\ racers s' = seq (next_ref s) 6.
Proof.
  destruct (init_racers_ok s) as (s' & E & R & N & St & F & I).
  exists s'. split_and!; [exact E | | exact I | lia | exact R].
  unfold wf. rewrite R. split_and!.
  - apply NoDup_seq.
  - apply length_seq.
  - apply Forall_seq. lia.
  - unfold lanes. rewrite R. enough (El : (fun r => lane (store s' r)) <$> seq (next_ref s) 6
                                          = Z.of_nat <$> seq 0 6) by (rewrite El; done).
    apply fmap_seq_shift. intros j Hj. by destruct (F j Hj) as (_ & -> & _).
  - apply Forall_seq. intros r Hr.
    destruct (F (r - next_ref s)%nat ltac:(lia)) as (_ & _ & _ & K & O & _).
    replace (next_ref s + (r - next_ref s))%nat with r in K, O by lia. done.
Qed.

(** ** [find_median] *)

(** [find_median] changes nothing and returns the element at index
    [len // 2] of the value-sorted copy when there is one. *)
Lemma find_median_spec (arr : list nat) (s : Game G) :
  find_median arr s = match py_sorted (keys s) arr !! (length arr / 2)%nat with
                      | Some r => Ok r s
                      | None => Raise IndexError s
                      end.
Proof.
  unfold find_median, pbind, pget. cbn beta iota.
  rewrite py_getitem_half, (Permutation_length (py_sorted_perm _ _)).
  by destruct (py_sorted (keys s) arr !! (length arr / 2)%nat).
Qed.

(** ** [start_race] *)

Lemma same_but_lanes_keeps (h h' : store_t) (r : nat) :
  same_but_lanes h h' -> static (h' r) = static (h r) /\ (on_track (h r) -> on_track (h' r))
    /\ x (h' r) = x (h r) /\ finished (h' r) = finished (h r) /\ power_active (h' r) = power_active (h r)
    /\ position (h' r) = position (h r) /\ speed (h' r) = speed (h r).
Proof.
  intros Hs. specialize (Hs r).
  assert (E : forall (B : Type) (f : Racer -> B), (forall v, f (set_lane 0 v) = f v) -> f (h' r) = f (h r)).
  { intros B f Hf. by rewrite <-(Hf (h r)), <-(Hf (h' r)), Hs. }
  split_and!; [by apply E | | by apply E.. ].
  unfold on_track. rewrite (E _ x), (E _ finished) by done. done.
Qed.

Lemma keeps_sort_value (v v' : Racer) : keeps v v' -> sort_value v' = sort_value v.
Proof. intros (Hs & _ & _). exact (f_equal snd Hs). Qed.

Lemma wf_sorted (s s' : Game G) :
  wf s -> racers s' ≡ₚ racers s -> lanes s' ≡ₚ lanes s -> same_but_lanes (store s) (store s') ->
  next_ref s' = next_ref s -> wf s'.
Proof.
  intros (Hnd & Hl & Hr & Hln & Hk) Hp Hlp Hsb Hn. unfold wf. split_and!.
  - by rewrite Hp.
  - by rewrite Hp.
  - rewrite Hp, Hn. exact Hr.
  - by rewrite Hlp.
  - rewrite Hp. eapply Forall_impl; [exact Hk|]. intros r [K O].
    destruct (same_but_lanes_keeps _ _ r Hsb) as (Hs & Ho & _).
    split; [by eapply key_ok_static | auto].
Qed.

Lemma sorted_by_value_ext (s s' : Game G) :
  racers s' = racers s -> (forall r, sort_value (store s' r) = sort_value (store s r)) ->
  sorted_by_value s -> sorted_by_value s'.
Proof. intros Er Ev Hs i j r1 r2 Hij H1 H2. rewrite !Ev. rewrite Er in H1, H2. eauto. Qed.

Lemma sort_fuel_ge (n : nat) : (n <= 6)%nat -> (1 <= sort_fuel)%nat /\ (n <= sort_fuel)%nat.
Proof. unfold sort_fuel, RECURSION_LIMIT. lia. Qed.

(** The sort of [start_race] in either mode. *)
Lemma sort_racers_ok `{!PyRandomLaws G} (s : Game G) :
  NoDup (racers s) -> (length (racers s) <= 6)%nat ->
  exists s' t, sort_racers s = Ok tt s'
    /\ racers s' ≡ₚ racers s /\ sorted_by_value s'
    /\ pivot_highlights s' = pivot_highlights s ++ (Z.of_nat <$> t)
    /\ sort_operations s' = sort_operations s + Z.of_nat (length t)
    /\ (length t <= length (racers s) - 1)%nat
    /\ lanes s' ≡ₚ lanes s /\ same_but_lanes (store s) (store s') /\ engine_frame s s'
    /\ (algorithm_mode s = DETERMINISTIC -> lanes s' = lanes s).
Proof.
  intros Hnd Hn. destruct (sort_fuel_ge _ Hn) as [H1 Hf].
  unfold sort_racers, pbind, pget. cbn beta. revert H1 Hf. generalize sort_fuel. intros F H1 Hf.
  destruct (algorithm_mode s) eqn:Em.
  - destruct (sort_run Permutation rand_policy rand_policy_ok quicksort_randomized s F)
      as (s' & t & Hrun & Hp & Hs & Hh & Ho & Ht & _ & HL & Hsb & Hfr);
      [intros f; apply quicksort_randomized_sim | done.. |].
    exists s', t. split; [exact Hrun | by split_and!].
  - destruct (sort_run eq det_policy det_policy_ok quicksort_deterministic s F)
      as (s' & t & Hrun & Hp & Hs & Hh & Ho & Ht & _ & HL & Hsb & Hfr);
      [intros f; apply quicksort_deterministic_sim | done.. |].
    exists s', t. split; [exact Hrun |]. split_and!; try done. by rewrite HL.
Qed.

(** Distinct reduced keys identify the racers of [l]. *)
Lemma keys_inj_on (k : nat -> Q) (l : list nat) (r1 r2 : nat) :
  NoDup ((fun r => Qred (k r)) <$> l) -> r1 ∈ l -> r2 ∈ l ->
  key_le k r1 r2 -> key_le k r2 r1 -> r1 = r2.
Proof.
  intros Hnd H1 H2 Ha Hb. apply (Qle_bool_antisym_Qred (k r1) (k r2) Ha) in Hb.
  apply list_elem_of_lookup in H1 as [i Hi], H2 as [j Hj].
  assert (i = j) as ->; [|congruence].
  eapply NoDup_lookup; [exact Hnd | by rewrite list_lookup_fmap, Hi | by rewrite list_lookup_fmap, Hj, Hb].
Qed.

(** C8. Where the racers' sort values are pairwise distinct, the in-place
    quicksort of [start_race], in either mode, leaves [self.racers] equal
    to [sorted(self.racers, key=lambda r: r.sort_value)], the reference
    sort [find_median] uses. *)
Theorem sort_racers_equiv `{!PyRandomLaws G} (s : Game G) :
  (length (racers s) <= 6)%nat -> NoDup ((fun r => Qred (keys s r)) <$> racers s) ->
  exists s', sort_racers s = Ok tt s' /\ racers s' = py_sorted (keys s) (racers s).
Proof.
  intros Hn Hnd. destruct (sort_racers_ok s) as (s' & t & E & Hp & Hs & _ & _ & _ & _ & Hsb & _);
    [by eapply NoDup_fmap_1 | done |].
  exists s'. split; [done|].
  apply (StronglySorted_unique_strong (key_le (keys s))).
  - intros r1 r2 H1 H2. rewrite Hp in H1. rewrite py_sorted_perm in H2. by apply (keys_inj_on (keys s) (racers s)).
  - apply (StronglySorted_impl_on (key_le (keys s'))); [|by apply sorted_by_value_StronglySorted].
    intros a b _ _. unfold key_le, keys. by rewrite !(same_but_lanes_sort_value _ _ _ Hsb).
  - apply py_sorted_sorted.
  - by rewrite py_sorted_perm.
Qed.

Lemma engine_frame_fields (s s' : Game G) :
  engine_frame s s' ->
  next_ref s' = next_ref s /\ running s' = running s /\ racing s' = racing s
  /\ race_complete s' = race_complete s /\ algorithm_mode s' = algorithm_mode s
  /\ show_comparison s' = show_comparison s /\ finish_order s' = finish_order s
  /\ race_start_time s' = race_start_time s.
Proof. intros E. rewrite E. by split_and!. Qed.

Lemma update_obj_store (r : nat) (f : Racer -> Racer) (s : Game G) (r' : nat) :
  store (update_obj r f s) r' = if decide (r' = r) then f (store s r) else store s r'.
Proof. unfold update_obj, store_set. simpl. by destruct (Nat.eq_dec r' r), (decide (r' = r)). Qed.

(** A racer as [start_race] leaves it before the race. *)
Definition at_start (v : Racer) : Prop :=
  x v = 100%Q /\ finished v = false /\ power_active v = false /\ position v = 0%Q /\ speed v = 0%Q.

(** [h'] keeps the identity and key of every object of [h]. *)
Definition same_static (h h' : store_t) : Prop := forall r, static (h' r) = static (h r).

Lemma enum_update_static (f : nat -> Racer -> Racer) (k : nat) (rs : list nat) (s s' : Game G) :
  (forall i v, static (f i v) = static v) ->
  (forall j r, rs !! j = Some r -> store s' r = f (k + j)%nat (store s r)) ->
  (forall r, r ∉ rs -> store s' r = store s r) -> same_static (store s) (store s').
Proof.
  intros Hf Hin Hout r. destruct (decide (r ∈ rs)) as [Hr|Hr]; [|by rewrite Hout].
  apply list_elem_of_lookup_1 in Hr as [j Hj]. rewrite (Hin j r Hj). apply Hf.
Qed.

(** Lines 171-187: the flags, then the reset of every racer. *)
Lemma start_race_prefix (now : Q) (s : Game G) (B : Type) (k : M B) :
  wf s ->
  exists s1,
    (pmodify (set_racing true) ;; pmodify (set_race_complete false) ;; pmodify (set_finish_order []) ;;
     pmodify (set_race_start_time now) ;; pmodify (set_sort_operations 0) ;;
     pmodify (set_pivot_highlights []) ;;
     s <- pget ;; py_for (racers s) (fun r => pmodify (update_obj r reset_for_race)) ;; k) s = k s1
    /\ wf s1 /\ racers s1 = racers s /\ next_ref s1 = next_ref s
    /\ racing s1 = true /\ race_complete s1 = false /\ finish_order s1 = [] /\ race_start_time s1 = now
    /\ pivot_highlights s1 = [] /\ sort_operations s1 = 0 /\ algorithm_mode s1 = algorithm_mode s
    /\ lanes s1 = lanes s /\ Forall (fun r => at_start (store s1 r)) (racers s1)
    /\ running s1 = running s /\ show_comparison s1 = show_comparison s
    /\ same_static (store s) (store s1).
Proof.
  intros Hwf. pose proof Hwf as (Hnd & _).
  do 7 py_tick.
  match goal with |- context [pbind (py_for _ ?body) _ ?s0] =>
    rewrite (py_for_as_enum _ _ 0);
    destruct (py_for_enum_update_obj (fun _ => reset_for_race) 0 (racers s0) s0 Hnd)
      as (s1 & E1 & Hs1 & Hin & Hout) end.
  py_run E1. exists s1.
  assert (Hst : forall j r, racers s !! j = Some r -> store s1 r = reset_for_race (store s r)) by exact Hin.
  assert (Hsame : same_static (store s) (store s1)).
  { apply (enum_update_static (fun _ => reset_for_race) 0 (racers s) s s1); [intros; apply static_reset_for_race | exact Hin | exact Hout]. }
  rewrite Hs1. cbn [racers next_ref racing race_complete finish_order race_start_time pivot_highlights
    sort_operations algorithm_mode set_store]. split_and!; try done.
  - apply (wf_keeps s); [done | done | simpl; lia |]. intros r Hr. apply list_elem_of_lookup_1 in Hr as [j Hj].
    cbn [store set_store]. rewrite (Hst j r Hj). split_and!; [done | done | intros _; split; [apply Qle_bool_iff; reflexivity | discriminate]].
  - unfold lanes. cbn [racers store set_store]. apply list_fmap_ext. intros j r Hj. by rewrite (Hst j r Hj).
  - apply Forall_lookup_2. intros j r Hj. cbn [store set_store]. by rewrite (Hst j r Hj).
Qed.

Lemma wf_update_obj (r : nat) (f : Racer -> Racer) (s : Game G) :
  (forall v, keeps v (f v)) -> wf s -> wf (update_obj r f s).
Proof.
  intros Hf Hwf. apply (wf_keeps s); [done | done | simpl; lia |].
  intros r' _. rewrite update_obj_store. case_decide; [subst; apply Hf | reflexivity].
Qed.

Lemma keeps_set_y (v : Z) (r : Racer) : keeps r (set_y v r).
Proof. split_and!; auto. Qed.
Lemma keeps_activate_power (r : Racer) : keeps r (activate_power r).
Proof. split_and!; auto. Qed.

(** Lines 194-201: the [y] positions by list index, then the power-up of
    the median racer. *)
Lemma start_race_suffix (s2 : Game G) :
  wf s2 -> sorted_by_value s2 -> Forall (fun r => at_start (store s2 r)) (racers s2) ->
  exists s4,
    (s <- pget ;;
     py_for_enum 0 (racers s) (fun i r => pmodify (update_obj r (set_y (200 + Z.of_nat i * 60)))) ;;
     s <- pget ;;
     median_racer <- find_median (racers s) ;;
     pmodify (update_obj median_racer activate_power)) s2 = Ok tt s4
    /\ wf s4 /\ s4 = set_store (store s4) s2 /\ sorted_by_value s4 /\ lanes s4 = lanes s2
    /\ (forall (i : nat) r, racers s4 !! i = Some r ->
          y (store s4 r) = 200 + Z.of_nat i * 60 /\ x (store s4 r) = 100%Q
          /\ finished (store s4 r) = false /\ power_active (store s4 r) = bool_decide (i = 3%nat)
          /\ position (store s4 r) = 0%Q /\ speed (store s4 r) = 0%Q)
    /\ same_static (store s2) (store s4).
Proof.
  intros Hwf Hs Hat. pose proof Hwf as (Hnd & Hl & _). py_tick.
  destruct (py_for_enum_update_obj (fun i => set_y (200 + Z.of_nat i * 60)) 0 (racers s2) s2 Hnd)
    as (s3 & E3 & Hs3 & Hin & Hout).
  py_run E3. py_tick.
  assert (R3 : racers s3 = racers s2) by (rewrite Hs3; reflexivity).
  assert (V3 : forall r, sort_value (store s3 r) = sort_value (store s2 r)).
  { intros r. destruct (decide (r ∈ racers s2)) as [Hr|Hr]; [|by rewrite Hout].
    apply list_elem_of_lookup_1 in Hr as [j Hj]. by rewrite (Hin j r Hj). }
  assert (Hs3' : sorted_by_value s3) by (eapply sorted_by_value_ext; [exact R3 | exact V3 | exact Hs]).
  destruct (lookup_lt_is_Some_2 (racers s3) 3) as [m Hm]; [rewrite R3, Hl; lia|].
  assert (Hmed : find_median (racers s3) s3 = Ok m s3).
  { rewrite find_median_spec, py_sorted_id by (by apply sorted_by_value_StronglySorted).
    replace (length (racers s3) / 2)%nat with 3%nat by (rewrite R3, Hl; reflexivity). by rewrite Hm. }
  py_run Hmed.
  assert (W3 : wf s3).
  { apply (wf_keeps s2); [done | exact R3 | rewrite Hs3; simpl; lia |].
    intros r Hr. apply list_elem_of_lookup_1 in Hr as [j Hj]. rewrite (Hin j r Hj). apply keeps_set_y. }
  eexists. split; [reflexivity|]. split_and!.
  - apply wf_update_obj; [apply keeps_activate_power | exact W3].
  - clear - Hs3. unfold update_obj. set (h := store_set _ _ _). clearbody h. rewrite Hs3. reflexivity.
  - apply (sorted_by_value_ext s3); [reflexivity | | exact Hs3'].
    intros r. rewrite update_obj_store. by destruct (decide (r = m)) as [<-|].
  - unfold lanes. change (racers (update_obj m activate_power s3)) with (racers s3).
    rewrite R3. apply list_fmap_ext.
    intros j r Hj. rewrite update_obj_store.
    destruct (decide (r = m)) as [<-|]; by rewrite (Hin j r Hj).
  - intros i r Hi. change (racers (update_obj m activate_power s3)) with (racers s3) in Hi.
    rewrite R3 in Hi.
    rewrite Forall_lookup in Hat. destruct (Hat i r Hi) as (Hx & Hf & Hp & Hpo & Hsp).
    rewrite R3 in Hm. rewrite update_obj_store.
    destruct (decide (r = m)) as [<-|Hrm]; rewrite (Hin i r Hi);
      (split_and!; [done | exact Hx | exact Hf | | exact Hpo | exact Hsp]).
    + rewrite bool_decide_eq_true_2; [done|]. by apply (NoDup_lookup (racers s2) i 3 r).
    + rewrite bool_decide_eq_false_2; [exact Hp|]. intros ->. congruence.
  - intros r. rewrite update_obj_store. destruct (decide (r = m)) as [->|]; [rewrite static_activate_power|];
      exact (enum_update_static (fun i => set_y (200 + Z.of_nat i * 60)) 0 (racers s2) s2 s3
               (fun i v => static_set_y _ v) Hin Hout _).
Qed.

(** The run of [start_race] from a well-formed state. *)
Lemma start_race_run `{!PyRandomLaws G} (now : Q) (s : Game G) :
  wf s ->
  exists s', start_race now s = Ok tt s' /\ wf s'
    /\ racers s' ≡ₚ racers s /\ sorted_by_value s'
    /\ racing s' = true /\ race_complete s' = false /\ finish_order s' = [] /\ race_start_time s' = now
    /\ running s' = running s /\ show_comparison s' = show_comparison s
    /\ (forall (i : nat) r, racers s' !! i = Some r ->
          y (store s' r) = 200 + Z.of_nat i * 60 /\ x (store s' r) = 100%Q
          /\ finished (store s' r) = false /\ power_active (store s' r) = bool_decide (i = 3%nat)
          /\ position (store s' r) = 0%Q /\ speed (store s' r) = 0%Q)
    /\ (exists t, pivot_highlights s' = Z.of_nat <$> t /\ sort_operations s' = Z.of_nat (length t)
                  /\ (length t <= 5)%nat)
    /\ (algorithm_mode s = DETERMINISTIC -> lanes s' = lanes s)
    /\ same_static (store s) (store s') /\ next_ref s' = next_ref s.
Proof.
  intros Hwf. unfold start_race.
  destruct (start_race_prefix now s unit
    (sort_racers ;;
     s <- pget ;;
     py_for_enum 0 (racers s) (fun i r => pmodify (update_obj r (set_y (200 + Z.of_nat i * 60)))) ;;
     s <- pget ;;
     median_racer <- find_median (racers s) ;;
     pmodify (update_obj median_racer activate_power)) Hwf)
    as (s1 & -> & W1 & R1 & N1 & Rc1 & Co1 & Fo1 & T1 & Ph1 & Op1 & Md1 & L1 & At1 & Ru1 & Sc1 & Ss1).
  pose proof W1 as (Hnd1 & Hl1 & _).
  destruct (sort_racers_ok s1) as (s2 & t & E2 & P2 & S2 & H2 & O2 & T2 & L2 & Sb2 & F2 & D2);
    [done | lia |].
  py_run E2. pose proof (engine_frame_fields _ _ F2) as (N2 & Ru2 & Rc2 & Co2 & Md2 & Sc2 & Fo2 & T2').
  assert (W2 : wf s2) by (apply (wf_sorted s1); done).
  assert (At2 : Forall (fun r => at_start (store s2 r)) (racers s2)).
  { rewrite P2. eapply Forall_impl; [exact At1|]. intros r Hat. unfold at_start.
    destruct (same_but_lanes_keeps _ _ r Sb2) as (_ & _ & -> & -> & -> & -> & ->). done. }
  destruct (start_race_suffix s2 W2 S2 At2) as (s4 & E4 & W4 & Hs4 & S4 & L4 & Hr4 & Ss4).
  assert (Fr4 : racers s4 = racers s2 /\ racing s4 = racing s2 /\ race_complete s4 = race_complete s2
     /\ finish_order s4 = finish_order s2 /\ race_start_time s4 = race_start_time s2
     /\ pivot_highlights s4 = pivot_highlights s2 /\ sort_operations s4 = sort_operations s2
     /\ running s4 = running s2 /\ show_comparison s4 = show_comparison s2 /\ next_ref s4 = next_ref s2)
    by (rewrite Hs4; by split_and!).
  destruct Fr4 as (R4 & Rc4 & Co4 & Fo4 & T4 & H4 & O4 & Ru4 & Sc4 & N4).
  exists s4. split_and!; [exact E4 | exact W4 | by rewrite R4, P2, R1 | exact S4
    | congruence | congruence | congruence | congruence | congruence | congruence | exact Hr4 | | | | congruence].
  - exists t. rewrite H4, O4, H2, O2, Ph1, Op1. split_and!; [done | lia | lia].
  - intros Hd. rewrite L4, D2, L1; [done | congruence].
  - intros r. rewrite Ss4. destruct (same_but_lanes_keeps _ _ r Sb2) as (-> & _). apply Ss1.
Qed.

(** C6. [start_race] from a well-formed state raises nothing, keeps the
    invariant, sorts [self.racers] by [sort_value] (a permutation of the
    racers before), sets the race flags and leaves [running] and
    [show_comparison], places the racer at index [i] at [y = 200 + 60 i]
    at rest on the start line, powers up exactly the racer at
    index 3 (the median of six), counts at most five sort operations with
    one highlight each, and in deterministic mode leaves the lanes
    where they were. *)
Theorem start_race_correct `{!PyRandomLaws G} (now : Q) (s : Game G) :
  wf s ->
  exists s', start_race now s = Ok tt s' /\ wf s'
    /\ racers s' ≡ₚ racers s /\ sorted_by_value s'
    /\ racing s' = true /\ race_complete s' = false /\ finish_order s' = [] /\ race_start_time s' = now
    /\ running s' = running s /\ show_comparison s' = show_comparison s
    /\ (forall (i : nat) r, racers s' !! i = Some r ->
          y (store s' r) = 200 + Z.of_nat i * 60 /\ x (store s' r) = 100%Q
          /\ finished (store s' r) = false /\ power_active (store s' r) = bool_decide (i = 3%nat)
          /\ position (store s' r) = 0%Q /\ speed (store s' r) = 0%Q)
    /\ (exists t, pivot_highlights s' = Z.of_nat <$> t /\ sort_operations s' = Z.of_nat (length t)
                  /\ (length t <= 5)%nat)
    /\ (algorithm_mode s = DETERMINISTIC -> lanes s' = lanes s).
Proof.
  intros Hwf. destruct (start_race_run now s Hwf) as (s' & E & W & P & S & Ra & Rc & Fo & T & Ru & Sc & Hi & Ht & Hd & _).
  exists s'. by split_and!.
Qed.

(** ** [update] *)

Definition store_keeps (h h' : store_t) : Prop := forall r, keeps (h r) (h' r).

#[export] Instance store_keeps_preorder : PreOrder store_keeps.
Proof. split; [intros h r; reflexivity | intros h1 h2 h3 H12 H23 r; etransitivity; [apply H12 | apply H23]]. Qed.

Lemma store_set_keeps (h : store_t) (r : nat) (v : Racer) :
  keeps (h r) v -> store_keeps h (store_set h r v).
Proof. intros Hv r'. unfold store_set. destruct (Nat.eq_dec r' r) as [->|]; [exact Hv | reflexivity]. Qed.

(** [s'] differs from [s] only in the heap, the random state, the race
    result and [race_complete]. *)
Definition update_frame (s s' : Game G) : Prop :=
  s' = mkGame (store s') (next_ref s) (rng s') (running s) (racing s) (race_complete s')
         (algorithm_mode s) (show_comparison s) (racers s) (finish_order s')
         (race_start_time s) (sort_operations s) (pivot_highlights s)
  /\ store_keeps (store s) (store s')
  /\ (exists l, finish_order s' = finish_order s ++ l)
  /\ (NoDup (finish_order s) -> NoDup (finish_order s')).

Lemma update_frame_refl (s : Game G) : update_frame s s.
Proof. split_and!; [by destruct s | reflexivity | exists []; by rewrite app_nil_r | done]. Qed.

Lemma update_frame_trans (s s1 s2 : Game G) :
  update_frame s s1 -> update_frame s1 s2 -> update_frame s s2.
Proof.
  intros (E1 & K1 & [l1 F1] & N1) (E2 & K2 & [l2 F2] & N2). split_and!.
  - rewrite E2 at 1. rewrite E1. reflexivity.
  - by etransitivity.
  - exists (l1 ++ l2). by rewrite F2, F1, app_assoc.
  - auto.
Qed.

Lemma update_obj_frame (r : nat) (f : Racer -> Racer) (s : Game G) :
  (forall v, keeps v (f v)) -> update_frame s (update_obj r f s).
Proof.
  intros Hf. split_and!; [reflexivity | apply store_set_keeps, Hf | exists []; by rewrite app_nil_r | done].
Qed.

Lemma finish_append_frame (r : nat) (s : Game G) :
  r ∉ finish_order s -> update_frame s (set_finish_order (finish_order s ++ [r]) s).
Proof.
  intros Hr. split_and!; [reflexivity | intros r'; reflexivity | by eexists |].
  intros Hnd. apply NoDup_app. split_and!; [done | | by apply NoDup_singleton].
  by intros x Hx ->%list_elem_of_singleton.
Qed.

Lemma keeps_tick_power (dt : Q) (v : Racer) : keeps v (tick_power dt v).
Proof. split_and!; auto. Qed.
Lemma keeps_set_finish_time (t : Q) (v : Racer) : keeps v (set_finish_time t v).
Proof. split_and!; auto. Qed.

Lemma racer_update_ok (r : nat) (dt boost : Q) (s : Game G) :
  exists s', racer_update r dt boost s = Ok tt s' /\ update_frame s s'.
Proof.
  unfold racer_update, pbind, pget, pmodify.
  pose proof (update_facts dt boost (store s r) (rng s)) as Hu.
  destruct (Racer.update dt boost (store s r) (rng s)) as [v g'].
  destruct Hu as (Ho & Hs & Hl & _).
  eexists. split; [reflexivity|].
  split_and!; [reflexivity | by apply store_set_keeps | exists []; by rewrite app_nil_r | done].
Qed.

Lemma update_racer_ok (dt now : Q) (r : nat) (s : Game G) :
  exists f s', update_racer dt now r s = Ok f s' /\ update_frame s s'.
Proof.
  unfold update_racer. py_tick. cbn zeta.
  match goal with |- context [pbind (racer_update r dt ?b) _ s] =>
    destruct (racer_update_ok r dt b s) as (s1 & E1 & F1) end.
  py_run E1. py_tick.
  assert (Hf1 : exists s2, (if power_active (store s1 r) then pmodify (update_obj r (tick_power dt)) else pret tt) s1
                          = Ok tt s2 /\ update_frame s s2).
  { destruct (power_active (store s1 r)); eexists; (split; [reflexivity|]);
      [apply (update_frame_trans _ s1); [done | apply update_obj_frame, keeps_tick_power] | done]. }
  destruct Hf1 as (s2 & E2 & F2). py_run E2. py_tick.
  destruct (finished (store s2 r) && negb (bool_decide (r ∈ finish_order s2))) eqn:Ef.
  - apply andb_true_iff in Ef as [_ Hn]. apply negb_true_iff, bool_decide_eq_false in Hn.
    do 2 py_tick. do 2 eexists. split; [reflexivity|].
    apply (update_frame_trans _ s2); [done|].
    apply (update_frame_trans _ (update_obj r (set_finish_time (now - race_start_time s2)%Q) s2)).
    + apply update_obj_frame, keeps_set_finish_time.
    + by apply finish_append_frame.
  - do 2 py_tick. do 2 eexists. split; [reflexivity | done].
Qed.

Lemma update_loop_ok (dt now : Q) (rs : list nat) (af : bool) (s : Game G) :
  exists f s', update_loop dt now rs af s = Ok f s' /\ update_frame s s'.
Proof.
  revert af s. induction rs as [|r rs IH]; intros af s; simpl.
  { do 2 eexists. split; [reflexivity | apply update_frame_refl]. }
  destruct (update_racer_ok dt now r s) as (f1 & s1 & E1 & F1). py_run E1.
  destruct (IH (af && f1) s1) as (f2 & s2 & E2 & F2). exists f2, s2.
  split; [done | by apply (update_frame_trans _ s1)].
Qed.

Lemma update_frame_wf (s s' : Game G) : wf s -> update_frame s s' -> wf s'.
Proof.
  intros Hwf (E & K & _). apply (wf_keeps s); [done | by rewrite E | rewrite E; simpl; lia | by intros r _].
Qed.

Lemma update_frame_racers (s s' : Game G) : update_frame s s' -> racers s' = racers s.
Proof. intros (E & _). by rewrite E. Qed.

(** The run of [update] from a well-formed state. *)
Lemma update_run (dt now : Q) (s : Game G) :
  wf s ->
  exists s', update dt now s = Ok tt s' /\ wf s' /\ racers s' = racers s
    /\ (exists l, finish_order s' = finish_order s ++ l)
    /\ (NoDup (finish_order s) -> NoDup (finish_order s'))
    /\ (racing s && negb (race_complete s) = false -> s' = s).
Proof.
  intros Hwf. unfold update. py_tick.
  destruct (racing s && negb (race_complete s)) eqn:Er.
  - destruct (update_loop_ok dt now (racers s) true s) as (f & s1 & E1 & F1). py_run E1.
    assert (F2 : update_frame s (if f then set_race_complete true s1 else s1)).
    { destruct f; [|done]. apply (update_frame_trans _ s1); [done|].
      split_and!; [reflexivity | intros r; reflexivity | exists []; by rewrite app_nil_r | done]. }
    exists (if f then set_race_complete true s1 else s1). split; [by destruct f|].
    destruct F2 as (E2 & K2 & Fo2 & N2) eqn:HF2.
    split_and!; [by eapply update_frame_wf | by eapply update_frame_racers | done | done | done].
  - exists s. split_and!; [done | done | done | exists []; by rewrite app_nil_r | done | done].
Qed.

(** C21. A frame's [update(dt)] from a well-formed state raises nothing
    and keeps the invariant and the list of racers; it only appends to
    [finish_order], never the same racer twice; and outside a running
    race it changes nothing. *)
Theorem update_wf (dt now : Q) (s : Game G) :
  wf s ->
  exists s', update dt now s = Ok tt s' /\ wf s' /\ racers s' = racers s
    /\ (exists l, finish_order s' = finish_order s ++ l)
    /\ (NoDup (finish_order s) -> NoDup (finish_order s'))
    /\ (racing s && negb (race_complete s) = false -> s' = s).
Proof. exact (update_run dt now s). Qed.

(** ** Events, frames and the reachable states *)

(** The invariant with the race result: [finish_order] has no repeats. *)
Definition inv (s : Game G) : Prop := wf s /\ NoDup (finish_order s).

Lemma inv_same (s s' : Game G) :
  inv s -> racers s' = racers s -> store s' = store s -> next_ref s' = next_ref s ->
  finish_order s' = finish_order s -> inv s'.
Proof.
  intros [Hwf Hnd] Er Es En Ef. split; [|by rewrite Ef].
  apply (wf_keeps s); [done | done | lia | intros r _; rewrite Es; reflexivity].
Qed.

Lemma init_racers_inv `{!PyRandomLaws G} (s : Game G) :
  NoDup (finish_order s) -> exists s', init_racers s = Ok tt s' /\ inv s'.
Proof.
  intros Hnd. destruct (init_racers_wf s) as (s' & E & W & I & _).
  exists s'. split; [done|]. split; [done|]. rewrite I. exact Hnd.
Qed.

Ltac flag_case := eexists; split; [reflexivity|]; eapply inv_same; [eassumption | reflexivity..].

Lemma handle_event_ok `{!PyRandomLaws G} (now : Q) (e : Event) (s : Game G) :
  inv s -> exists s', handle_event now e s = Ok tt s' /\ inv s'.
Proof.
  intros Hi. destruct e as [|k|]; [flag_case | | flag_case].
  unfold handle_event. py_tick. destruct k.
  - destruct (show_comparison s); flag_case.
  - destruct (racing s); simpl; [flag_case|].
    destruct (start_race_run now s (proj1 Hi)) as (s' & E & W & _ & _ & _ & _ & F & _).
    exists s'. split; [done|]. split; [done|]. rewrite F. constructor.
  - py_tick. apply init_racers_inv, Hi.
  - py_tick. apply init_racers_inv, Hi.
  - flag_case.
  - destruct (race_complete s); [|flag_case]. do 2 py_tick. apply init_racers_inv, Hi.
  - flag_case.
Qed.

Lemma handle_events_ok `{!PyRandomLaws G} (now : Q) (es : list Event) (s : Game G) :
  inv s -> exists s', handle_events now es s = Ok tt s' /\ inv s'.
Proof.
  unfold handle_events. revert s. induction es as [|e es IH]; intros s Hi; simpl; [by exists s|].
  destruct (handle_event_ok now e s Hi) as (s1 & E1 & I1). py_run E1. by apply IH.
Qed.

Lemma frame_ok `{!PyRandomLaws G} (dt now : Q) (es : list Event) (s : Game G) :
  inv s -> exists s', frame dt now es s = Ok tt s' /\ inv s'.
Proof.
  intros Hi. unfold frame. destruct (handle_events_ok now es s Hi) as (s1 & E1 & [W1 N1]).
  py_run E1. py_tick. destruct (show_comparison s1); [by exists s1|].
  destruct (update_run dt now s1 W1) as (s2 & E2 & W2 & _ & _ & N2 & _).
  exists s2. split; [done|]. split; auto.
Qed.

(** The states of a run: [RaceSorterGame()] and then frames of
    [while self.running]. *)
Inductive reachable : Game G -> Prop :=
  | reachable_new (g : G) (s : Game G) : new_game g = Ok tt s -> reachable s
  | reachable_frame (dt now : Q) (es : list Event) (s s' : Game G) :
      reachable s -> running s = true -> frame dt now es s = Ok tt s' -> reachable s'.

Lemma new_game_ok `{!PyRandomLaws G} (g : G) : exists s, new_game g = Ok tt s /\ inv s.
Proof. apply init_racers_inv. constructor. Qed.

Lemma reachable_inv_run `{!PyRandomLaws G} (s : Game G) : reachable s -> inv s.
Proof.
  induction 1 as [g s Hs|dt now es s s' _ IH _ Hf].
  - destruct (new_game_ok g) as (s' & E & I). congruence.
  - destruct (frame_ok dt now es s IH) as (s2 & E & I). congruence.
Qed.

(** C3. Every state of a run satisfies the invariant: six distinct
    allocated racers whose lanes in list order are a permutation of
    [0 .. 5], whose sort keys are computed from attributes in the ranges
    of [init_racers] and lie in [58, 91], all on the track, and a finish
    order without repeats. *)
Theorem reachable_invariant `{!PyRandomLaws G} (s : Game G) :
  reachable s ->
  wf s /\ NoDup (finish_order s)
  /\ Forall (fun r => 58 <= sort_value (store s r) <= 91)%Q (racers s).
Proof.
  intros Hr. destruct (reachable_inv_run s Hr) as [Hwf Hnd]. split_and!; [done | done |].
  destruct Hwf as (_ & _ & _ & _ & Hk). eapply Forall_impl; [exact Hk|].
  intros r [K _]. by apply key_ok_bounds.
Qed.

(** C4. No frame of a run raises: whatever the events, [handle_events]
    and [update] end normally, with no [IndexError] from [find_median] and
    no [RecursionError] from the sorts. *)
Theorem frame_safe `{!PyRandomLaws G} (dt now : Q) (es : list Event) (s : Game G) :
  reachable s -> (exists s', frame dt now es s = Ok tt s' /\ reachable s') \/ running s = false.
Proof.
  intros Hr. destruct (running s) eqn:Hrun; [|by right].
  destruct (frame_ok dt now es s (reachable_inv_run s Hr)) as (s' & E & _).
  left. exists s'. split; [done | by eapply reachable_frame].
Qed.

(** ** Findings *)

(** C19. Pressing R (and likewise D) calls [init_racers] without touching
    the race state: [racing], [race_complete], [finish_order],
    [pivot_highlights] and [sort_operations] keep their values, so a race
    in progress goes on with six fresh, unsorted racers, and the finish
    order still lists racers that are no longer in [self.racers]. *)
Theorem reinit_keeps_race_state `{!PyRandomLaws G} (now : Q) (s : Game G) :
  Forall (fun r => r < next_ref s)%nat (finish_order s) ->
  exists s', handle_event now (KEYDOWN K_r) s = Ok tt s'
    /\ racing s' = racing s /\ race_complete s' = race_complete s
    /\ finish_order s' = finish_order s /\ pivot_highlights s' = pivot_highlights s
    /\ sort_operations s' = sort_operations s /\ algorithm_mode s' = RANDOMIZED
    /\ Forall (fun r => r ∉ racers s') (finish_order s').
Proof.
  intros Hf. unfold handle_event. do 2 py_tick.
  destruct (init_racers_ok (set_algorithm_mode RANDOMIZED s)) as (s' & E & R & _ & _ & _ & I).
  assert (Fi : racing s' = racing s /\ race_complete s' = race_complete s
    /\ finish_order s' = finish_order s /\ pivot_highlights s' = pivot_highlights s
    /\ sort_operations s' = sort_operations s /\ algorithm_mode s' = RANDOMIZED)
    by (rewrite I; by split_and!).
  destruct Fi as (F1 & F2 & F3 & F4 & F5 & F6).
  exists s'. split_and!; try done.
  rewrite R, F3. eapply Forall_impl; [exact Hf|]. intros r Hr Hin.
  apply elem_of_seq in Hin. cbn [next_ref set_algorithm_mode] in Hin. cbn beta in Hr. lia.
Qed.

(** ** [find_median] *)

(** C20. [find_median(arr)] on a non-empty list changes nothing and
    returns the element at index [len(arr) // 2] of an ascending
    rearrangement of [arr] by [sort_value]. *)
Theorem find_median_correct (arr : list nat) (s : Game G) :
  arr <> [] ->
  exists r sv, find_median arr s = Ok r s /\ sv ≡ₚ arr
    /\ StronglySorted (key_le (keys s)) sv /\ sv !! (length arr / 2)%nat = Some r.
Proof.
  intros Hne. rewrite find_median_spec.
  destruct (lookup_lt_is_Some_2 (py_sorted (keys s) arr) (length arr / 2)) as [r Hr].
  { rewrite (Permutation_length (py_sorted_perm _ _)).
    destruct arr as [|a arr]; [done|]. apply Nat.div_lt; simpl; lia. }
  exists r, (py_sorted (keys s) arr). rewrite Hr.
  split_and!; [done | apply py_sorted_perm | apply py_sorted_sorted | done].
Qed.

(** ** A decision procedure for the invariant *)

Definition key_okb (v : Racer) : bool :=
  Qle_bool 80 (base_speed v) && Qle_bool (base_speed v) 120
  && Qle_bool 20 (acceleration v) && Qle_bool (acceleration v) 40
  && Qle_bool 60 (handling v) && Qle_bool (handling v) 95
  && Qeq_bool (sort_value v) (calculate_sort_value v).

Definition on_trackb (v : Racer) : bool :=
  Qle_bool (x v) FINISH_X && (negb (finished v) || Qeq_bool (x v) FINISH_X).

Definition wfb (s : Game G) : bool :=
  bool_decide (NoDup (racers s)) && (length (racers s) =? 6)%nat
  && forallb (fun r => r <? next_ref s)%nat (racers s)
  && bool_decide (lanes s ≡ₚ Z.of_nat <$> seq 0 6)
  && forallb (fun r => key_okb (store s r) && on_trackb (store s r)) (racers s).

Lemma wfb_sound (s : Game G) : wfb s = true -> wf s.
Proof.
  unfold wfb. intros Hb. repeat rewrite andb_true_iff in Hb.
  destruct Hb as [[[[Hnd Hl] Hr] Hln] Hk]. split_and!.
  - by apply bool_decide_eq_true in Hnd.
  - by apply Nat.eqb_eq.
  - apply Forall_forall. intros r Hin. rewrite forallb_forall in Hr.
    apply Nat.ltb_lt, Hr. by apply list_elem_of_In.
  - by apply bool_decide_eq_true in Hln.
  - apply Forall_forall. intros r Hin. rewrite forallb_forall in Hk.
    apply list_elem_of_In, Hk in Hin. unfold key_okb, on_trackb in Hin.
    repeat rewrite andb_true_iff in Hin. rewrite orb_true_iff in Hin.
    destruct Hin as [[[[[[[H1 H2] H3] H4] H5] H6] H7] [H8 H9]].
    apply Qle_bool_iff in H1, H2, H3, H4, H5, H6, H8. apply Qeq_bool_iff in H7.
    split; [split_and!; done|]. split; [done|]. intros Hf.
    destruct H9 as [H9|H9]; [rewrite Hf in H9; discriminate | by apply Qeq_bool_iff].
Qed.

End Methods.
End RaceSorterGame.

(** ** Concrete runs *)

#[local] Existing Instance LCG.lcg.
#[local] Existing Instance LCG.lcg_laws.
Import RaceSorterGame.

(** The state a computation ends in. *)
Definition final_state {A : Type} (r : res (Game Z) A) : Game Z :=
  match r with Ok _ s => s | Raise _ s => s end.

(** A new game with [random] seeded at 7, and the same game after SPACE. *)
Definition game0 : Game Z := final_state (new_game 7).
Definition game1 : Game Z := final_state (start_race 0 game0).

Lemma start_race_correct_witness :
  wf game0 /\
  exists s', start_race 0 game0 = Ok tt s' /\ wf s'
    /\ racers s' ≡ₚ racers game0 /\ sorted_by_value s'
    /\ racing s' = true /\ race_complete s' = false /\ finish_order s' = [] /\ race_start_time s' = 0%Q
    /\ running s' = running game0 /\ show_comparison s' = show_comparison game0
    /\ (forall (i : nat) r, racers s' !! i = Some r ->
          y (store s' r) = 200 + Z.of_nat i * 60 /\ x (store s' r) = 100%Q
          /\ finished (store s' r) = false /\ power_active (store s' r) = bool_decide (i = 3%nat)
          /\ position (store s' r) = 0%Q /\ speed (store s' r) = 0%Q)
    /\ (exists t, pivot_highlights s' = Z.of_nat <$> t /\ sort_operations s' = Z.of_nat (length t)
                  /\ (length t <= 5)%nat)
    /\ (algorithm_mode game0 = DETERMINISTIC -> lanes s' = lanes game0).
Proof.
  assert (W : wf game0) by (apply wfb_sound; vm_compute; reflexivity).
  split; [exact W | exact (start_race_correct 0 game0 W)].
Defined.

Lemma update_wf_witness :
  wf game1 /\
  exists s', update (1 # 60) 1 game1 = Ok tt s' /\ wf s' /\ racers s' = racers game1
    /\ (exists l, finish_order s' = finish_order game1 ++ l)
    /\ (NoDup (finish_order game1) -> NoDup (finish_order s'))
    /\ (racing game1 && negb (race_complete game1) = false -> s' = game1).
Proof.
  assert (W : wf game1) by (apply wfb_sound; vm_compute; reflexivity).
  split; [exact W | exact (update_wf (1 # 60) 1 game1 W)].
Defined.

Lemma reachable_invariant_witness :
  reachable game0 /\
  (wf game0 /\ NoDup (finish_order game0)
   /\ Forall (fun r => 58 <= sort_value (store game0 r) <= 91)%Q (racers game0)).
Proof.
  assert (Hr : reachable game0) by (apply (reachable_new 7); vm_compute; reflexivity).
  split; [exact Hr | exact (reachable_invariant game0 Hr)].
Defined.

Lemma frame_safe_witness :
  reachable game0 /\
  ((exists s', frame (1 # 60) 0 [KEYDOWN K_SPACE] game0 = Ok tt s' /\ reachable s')
   \/ running game0 = false).
Proof.
  assert (Hr : reachable game0) by (apply (reachable_new 7); vm_compute; reflexivity).
  split; [exact Hr|]. exact (frame_safe (1 # 60) 0 [KEYDOWN K_SPACE] game0 Hr).
Defined.

(** A race in progress with two racers already at the finish. *)
Definition game_mid_race : Game Z := set_finish_order [3; 1]%nat game1.

Lemma reinit_keeps_race_state_witness :
  Forall (fun r => r < next_ref game_mid_race)%nat (finish_order game_mid_race) /\
  exists s', handle_event 5 (KEYDOWN K_r) game_mid_race = Ok tt s'
    /\ racing s' = racing game_mid_race /\ race_complete s' = race_complete game_mid_race
    /\ finish_order s' = finish_order game_mid_race
    /\ pivot_highlights s' = pivot_highlights game_mid_race
    /\ sort_operations s' = sort_operations game_mid_race /\ algorithm_mode s' = RANDOMIZED
    /\ Forall (fun r => r ∉ racers s') (finish_order s').
Proof.
  assert (Hf : Forall (fun r => r < next_ref game_mid_race)%nat (finish_order game_mid_race))
    by (apply (bool_decide_unpack _); vm_compute; reflexivity).
  split; [exact Hf | exact (reinit_keeps_race_state 5 game_mid_race Hf)].
Defined.

Lemma find_median_correct_witness :
  racers game0 <> [] /\
  exists r sv, find_median (racers game0) game0 = Ok r game0 /\ sv ≡ₚ racers game0
    /\ StronglySorted (key_le (keys game0)) sv /\ sv !! (length (racers game0) / 2)%nat = Some r.
Proof.
  assert (Hne : racers game0 <> []) by (apply (bool_decide_unpack _); vm_compute; reflexivity).
  split; [exact Hne | exact (find_median_correct (racers game0) game0 Hne)].
Defined.

Lemma sort_racers_equiv_witness :
  (length (racers game0) <= 6)%nat /\ NoDup ((fun r => Qred (keys game0 r)) <$> racers game0) /\
  exists s', sort_racers game0 = Ok tt s' /\ racers s' = py_sorted (keys game0) (racers game0).
Proof.
  assert (Hl : (length (racers game0) <= 6)%nat) by (vm_compute; lia).
  assert (Hd : NoDup ((fun r => Qred (keys game0 r)) <$> racers game0))
    by (apply (bool_decide_unpack _); vm_compute; reflexivity).
  split_and!; [exact Hl | exact Hd | exact (sort_racers_equiv game0 Hl Hd)].
Defined.

