(* ===== verification/Display.v ===== *)
(** * Display: what each frame draws (src/project/code.py, lines 229-367, 411-428)

    The drawing methods of [RaceSorterGame] only call pygame.  Each call
    is one command of a display list: [screen.fill], [pygame.draw.rect],
    [pygame.draw.line], [screen.blit] of a surface that [font.render]
    made, [pygame.display.flip] and [pygame.quit].  A method is the list of the calls
    it makes, in order, with the arguments it passes: loops are
    [flat_map] over the ranges and lists the code enumerates, and the
    f-strings are built with Python's formatting of ints ([str]) and of
    floats with [:.2f] (rounding half to even) and [int()] (truncation).
    pygame itself is not modelled: a rectangle is the four numbers passed
    to [pygame.Rect] or given as a tuple (pygame keeps them as ints), a
    text is its font size, string and colour, and [get_rect(center=c)]
    is a blit centred at [c].  The theorems read the display lists: the
    racers after SPACE are drawn centred on the white lane lines of the
    track; the power glow surrounds exactly the median racer.  The
    comparison rows are the bytes of the source, including its doubly
    encoded superscript two ("Â²").  The lemmas
    [frame_display_ok] (every call well typed when the racers' colours
    are in range), [complete_banner_in] and [finish_line_in] are used by
    [Main] for the whole program. *)

From Stdlib Require Import String Ascii Qround Qabs.
From stdpp Require Import pretty.
From S2P Require Import Prelude PyRandom Racer Lomuto State Engine Game.
Import RaceSorterGame.

#[local] Open Scope Q_scope.

(** The colours and the height of the window (lines 12, 16-27) that
    [Game] does not define. *)
Definition BLACK : color := (0, 0, 0)%Z.
Definition WHITE : color := (255, 255, 255)%Z.
Definition ORANGE : color := (255, 150, 50)%Z.
Definition DARK_GRAY : color := (64, 64, 64)%Z.
Definition LIGHT_GRAY : color := (192, 192, 192)%Z.
Definition SCREEN_HEIGHT : Q := 700.

(** [SCREEN_WIDTH // 2]. *)
Definition HALF_WIDTH : Q := 600.

(** [pygame.font.Font(None, size)] of [__init__] (lines 87-89): a font is
    its size. *)
Definition font_small : Z := 24.
Definition font_medium : Z := 36.
Definition font_large : Z := 48.

Definition point : Type := Q * Q.

(** [pygame.Rect(left, top, width, height)] or a 4-tuple. *)
Record rect := Rect { rleft : Q; rtop : Q; rwidth : Q; rheight : Q }.

(** [rect.inflate(dx, dy)]: the same centre, [dx] wider, [dy] taller. *)
Definition inflate (r : rect) (dx dy : Q) : rect :=
  Rect (rleft r - dx / 2) (rtop r - dy / 2) (rwidth r + dx) (rheight r + dy).

(** The colour argument of [pygame.draw.rect]: RGB, or RGBA for the
    tuple [( *racer.color, alpha)]. *)
Inductive paint : Type := RGB (c : color) | RGBA (c : color) (alpha : Z).

(** [font.render(text, True, color)]. *)
Record text := Render { tsize : Z; tstr : string; tcolor : color }.

Inductive draw_cmd : Type :=
  | Fill (c : color)                              (** [screen.fill(c)] *)
  | DrawRect (c : paint) (r : rect) (width : Z)   (** [pygame.draw.rect]; width 0 fills *)
  | DrawLine (c : color) (p q : point) (width : Z)
  | Blit (t : text) (at_ : point)                 (** [screen.blit(surface, (x, y))] *)
  | BlitCentered (t : text) (center : point)      (** [screen.blit(s, s.get_rect(center=c))] *)
  | Flip                                          (** [pygame.display.flip()] *)
  | Quit.                                         (** [pygame.quit()] *)

(** [pygame.draw.rect(screen, c, r)], width 0 by default. *)
Definition draw_rect (c : paint) (r : rect) : draw_cmd := DrawRect c r 0.

(** [for i, x in enumerate(xs)]. *)
Definition py_enumerate {A : Type} (xs : list A) : list (nat * A) := zip (seq 0 (length xs)) xs.

(** [int(q)] on a float: truncation toward zero. *)
Definition py_int (q : Q) : Z := if Qle_bool 0 q then Qfloor q else (- Qfloor (- q))%Z.

(** Python's [round] to an integer, half to even. *)
Definition round_half_even (q : Q) : Z :=
  let f := Qfloor q in
  let d := q - inject_Z f in
  if Qlt_le_dec d (1 # 2) then f
  else if Qeq_bool d (1 # 2) then (if Z.even f then f else f + 1)%Z
  else (f + 1)%Z.

(** Two decimal digits of [n] in [0, 100). *)
Definition two_digits (n : Z) : string :=
  (if (n <? 10)%Z then "0" else "") ++ pretty n.

(** [f"{q:.2f}"]. *)
Definition format_2f (q : Q) : string :=
  let n := Z.abs (round_half_even (Qabs q * 100)) in
  (if Qlt_le_dec q 0 then "-" else "") ++ pretty (n / 100)%Z ++ "." ++ two_digits (n mod 100)%Z.

(** ** [draw_track] (lines 229-250) *)

Definition checker_color (i j : nat) : color := if Nat.even (i + j) then WHITE else BLACK.

Definition draw_track : list draw_cmd :=
  draw_rect (RGB DARK_GRAY) (Rect 80 180 (SCREEN_WIDTH - 160) 400)
  :: map (fun i => let y := 200 + inject_Z (Z.of_nat i) * 60 in
                   DrawLine WHITE (80, y) (SCREEN_WIDTH - 80, y) 2) (seq 0 7)
  ++ [DrawLine GREEN (100, 180) (100, 580) 4;
      DrawLine RED (SCREEN_WIDTH - 150, 180) (SCREEN_WIDTH - 150, 580) 4]
  ++ flat_map (fun i => map (fun j =>
        let x := SCREEN_WIDTH - 150 + inject_Z (Z.of_nat i) * 10 in
        let y := 180 + inject_Z (Z.of_nat j) * 25 in
        draw_rect (RGB (checker_color i j)) (Rect x y 10 25)) (seq 0 8)) (seq 0 10).

(** ** [draw_racers] (lines 252-279) *)

(** [car_rect = pygame.Rect(racer.x - 20, racer.y - 15, 40, 30)]. *)
Definition car_rect (v : Racer) : rect := Rect (x v - 20) (inject_Z (y v) - 15) 40 30.

(** [for j in range(3)]: the rings of the power effect. *)
Definition power_rings (v : Racer) : list draw_cmd :=
  map (fun j => let offset := inject_Z ((Z.of_nat j + 1) * 5) in
                let alpha := (100 - Z.of_nat j * 30)%Z in
                DrawRect (RGBA (rcolor v) alpha) (inflate (car_rect v) (offset * 2) (offset * 2)) 2)
      (seq 0 3).

Section Draw.
Context {G : Type}.

(** The calls of one iteration of the loop of [draw_racers]. *)
Definition draw_racer (s : Game G) (i : nat) (r : nat) : list draw_cmd :=
  let v := store s r in
  let car := car_rect v in
  (if bool_decide (Z.of_nat i ∈ pivot_highlights s)
   then [DrawRect (RGB YELLOW) (inflate car 10 10) 3] else [])
  ++ [draw_rect (RGB (rcolor v)) car; DrawRect (RGB BLACK) car 2]
  ++ (if power_active v then power_rings v else [])
  ++ [Blit (Render font_small (name v) WHITE) (x v - 25, inject_Z (y v) - 40);
      Blit (Render font_small (pretty (py_int (speed v))) WHITE) (x v - 10, inject_Z (y v) + 20)].

Definition draw_racers (s : Game G) : list draw_cmd :=
  flat_map (fun '(i, r) => draw_racer s i r) (py_enumerate (racers s)).

(** ** [draw_ui] (lines 281-324) *)

Definition mode_text (m : AlgorithmMode) : string :=
  "Mode: " ++ (if decide (m = RANDOMIZED) then "Randomized QuickSort" else "Deterministic QuickSort").

Definition legend_items : list (string * color) :=
  [("Attributes: Speed | Accel | Handling", WHITE);
   ("Yellow border: Pivot selection", YELLOW);
   ("Glowing: Median racer power", CYAN)].

(** [f"{i+1}. {racer.name} ({racer.finish_time:.2f}s)"]. *)
Definition finish_line_text (i : nat) (v : Racer) : string :=
  pretty (S i) ++ ". " ++ name v ++ " (" ++ format_2f (finish_time v) ++ "s)".

Definition draw_ui (s : Game G) : list draw_cmd :=
  [BlitCentered (Render font_large "RACE SORTER" WHITE) (HALF_WIDTH, 40);
   Blit (Render font_medium (mode_text (algorithm_mode s))
                (if decide (algorithm_mode s = RANDOMIZED) then GREEN else ORANGE)) (50, 80);
   Blit (Render font_small ("Sort Operations: " ++ pretty (sort_operations s)) WHITE) (50, 120)]
  ++ (if negb (racing s) then
        [Blit (Render font_small
                 "Press SPACE to start race | R for Randomized | D for Deterministic | C for Comparison"
                 LIGHT_GRAY) (HALF_WIDTH - 350, SCREEN_HEIGHT - 30)]
      else [])
  ++ (match finish_order s with
      | [] => []
      | _ => Blit (Render font_medium "Finish Order:" WHITE) (SCREEN_WIDTH - 300, 100)
             :: map (fun '(i, r) =>
                       Blit (Render font_small (finish_line_text i (store s r)) (rcolor (store s r)))
                            (SCREEN_WIDTH - 300, 140 + inject_Z (Z.of_nat i) * 25))
                    (py_enumerate (finish_order s))
      end)
  ++ map (fun '(i, (t, c)) => Blit (Render font_small t c) (50 + inject_Z (Z.of_nat i) * 350, 600))
         (py_enumerate legend_items).

(** ** [draw_comparison] (lines 326-367) *)

(** [comparisons]: the rows as the source file spells them; strings are
    their UTF-8 bytes. *)
Definition comparisons : list (string * string * string * string) :=
  [("Randomized QuickSort", "O(n log n) average", "Unpredictable pivots", "Better worst-case");
   ("Deterministic QuickSort", "O(n log n) average", "Fixed pivot (last)", "O(nÂ²) worst-case")].

Definition draw_comparison_row (i : nat) (row : string * string * string * string) : list draw_cmd :=
  let '(nm, complexity, pivot, worst) := row in
  let y := 150 + inject_Z (Z.of_nat i) * 200 in
  [draw_rect (RGB DARK_GRAY) (Rect 100 y (SCREEN_WIDTH - 200) 150);
   DrawRect (RGB (if Nat.eqb i 0 then GREEN else ORANGE)) (Rect 100 y (SCREEN_WIDTH - 200) 150) 3;
   Blit (Render font_medium nm WHITE) (120, y + 10);
   Blit (Render font_small ("Complexity: " ++ complexity) WHITE) (120, y + 50);
   Blit (Render font_small ("Pivot: " ++ pivot) WHITE) (120, y + 80);
   Blit (Render font_small ("Worst Case: " ++ worst) WHITE) (120, y + 110)].

Definition draw_comparison : list draw_cmd :=
  Fill BLACK
  :: BlitCentered (Render font_large "Algorithm Performance Comparison" WHITE) (HALF_WIDTH, 50)
  :: flat_map (fun '(i, row) => draw_comparison_row i row) (py_enumerate comparisons)
  ++ [BlitCentered (Render font_small "Press ESC to return to game" LIGHT_GRAY) (HALF_WIDTH, SCREEN_HEIGHT - 50)].

(** ** The drawing part of [run] (lines 411-430) *)

(** What a frame of [run] draws after [handle_events] and [update], from
    the state they leave ([update] does not change [show_comparison]). *)
Definition frame_display (s : Game G) : list draw_cmd :=
  (if show_comparison s then draw_comparison
   else Fill BLACK :: draw_track ++ draw_racers s ++ draw_ui s
        ++ (if race_complete s then
              [BlitCentered (Render font_medium "Race Complete! Press ENTER to race again" GREEN) (HALF_WIDTH, 150)]
            else []))
  ++ [Flip].

End Draw.

#[export] Instance rect_eq_dec : EqDecision rect.
Proof. solve_decision. Defined.
#[export] Instance paint_eq_dec : EqDecision paint.
Proof. solve_decision. Defined.
#[export] Instance text_eq_dec : EqDecision text.
Proof. solve_decision. Defined.
#[export] Instance draw_cmd_eq_dec : EqDecision draw_cmd.
Proof. solve_decision. Defined.

(** ** Well-typed calls

    pygame raises [ValueError] on a colour component or alpha outside
    [0, 255]; widths and sizes are not negative and fonts have a
    positive size. *)

Definition byte_ok (z : Z) : bool := ((0 <=? z) && (z <=? 255))%Z.

Definition color_ok (c : color) : bool := let '(r, g, b) := c in byte_ok r && byte_ok g && byte_ok b.

Definition paint_ok (p : paint) : bool :=
  match p with RGB c => color_ok c | RGBA c a => color_ok c && byte_ok a end.

Definition cmd_ok (c : draw_cmd) : bool :=
  match c with
  | Fill c => color_ok c
  | DrawRect p r w => paint_ok p && (0 <=? w)%Z && Qle_bool 0 (rwidth r) && Qle_bool 0 (rheight r)
  | DrawLine c _ _ w => color_ok c && (0 <? w)%Z
  | Blit t _ | BlitCentered t _ => color_ok (tcolor t) && (0 <? tsize t)%Z
  | Flip | Quit => true
  end.

(** ** Reading the display lists *)

Lemma py_enumerate_from_lookup {A : Type} (xs : list A) (k i : nat) (a : A) :
  xs !! i = Some a -> ((k + i)%nat, a) ∈ zip (seq k (length xs)) xs.
Proof.
  revert k i. induction xs as [|b xs IH]; intros k i Hi; [done|].
  destruct i as [|i]; simpl in Hi |- *.
  - injection Hi as ->. rewrite Nat.add_0_r. left.
  - right. replace (k + S i)%nat with (S k + i)%nat by lia. by apply IH.
Qed.

Lemma py_enumerate_lookup {A : Type} (xs : list A) (i : nat) (a : A) :
  xs !! i = Some a -> (i, a) ∈ py_enumerate xs.
Proof. apply (py_enumerate_from_lookup xs 0). Qed.

Lemma elem_of_flat_map {A B : Type} (f : A -> list B) (l : list A) (b : B) (a : A) :
  a ∈ l -> b ∈ f a -> b ∈ flat_map f l.
Proof. rewrite !list_elem_of_In. intros Ha Hb. apply in_flat_map. eauto. Qed.

Section Read.
Context {G : Type}.

(** The calls for the racer at index [i] are among those of
    [draw_racers]. *)
Lemma draw_racer_in (s : Game G) (i r : nat) (c : draw_cmd) :
  racers s !! i = Some r -> c ∈ draw_racer s i r -> c ∈ draw_racers s.
Proof.
  intros Hi Hc. unfold draw_racers.
  apply (elem_of_flat_map _ _ _ (i, r)); [by apply py_enumerate_lookup | exact Hc].
Qed.

Lemma car_in_draw_racer (s : Game G) (i r : nat) :
  draw_rect (RGB (rcolor (store s r))) (car_rect (store s r)) ∈ draw_racer s i r.
Proof.
  unfold draw_racer. apply elem_of_app. right. apply elem_of_app. left. left.
Qed.

(** The lane lines of [draw_track]: one at [y = 200 + 60 i] for each
    [i < 7]. *)
Lemma lane_line_in_track (i : nat) :
  (i < 7)%nat ->
  DrawLine WHITE (80, 200 + inject_Z (Z.of_nat i) * 60) (SCREEN_WIDTH - 80, 200 + inject_Z (Z.of_nat i) * 60) 2
    ∈ draw_track.
Proof.
  intros Hi. unfold draw_track. right. apply elem_of_app. left.
  apply list_elem_of_fmap. exists i. split; [done|]. apply elem_of_seq. lia.
Qed.

(** The string of a text a command draws. *)
Definition drawn_text (c : draw_cmd) : option string :=
  match c with Blit t _ | BlitCentered t _ => Some (tstr t) | _ => None end.

(** The glow rings are the only RGBA rectangles. *)
Definition is_glow (c : draw_cmd) : bool :=
  match c with DrawRect (RGBA _ _) _ _ => true | _ => false end.

Lemma glow_draw_racer (s : Game G) (i r : nat) :
  filter is_glow (draw_racer s i r) = if power_active (store s r) then power_rings (store s r) else [].
Proof.
  unfold draw_racer. rewrite !filter_app.
  destruct (bool_decide _), (power_active (store s r)); reflexivity.
Qed.

Lemma glow_draw_racers (s : Game G) :
  filter is_glow (draw_racers s)
  = flat_map (fun '(i, r) => if power_active (store s r) then power_rings (store s r) else [])
      (py_enumerate (racers s)).
Proof.
  unfold draw_racers. induction (py_enumerate (racers s)) as [|[i r] l IH]; [done|].
  simpl. by rewrite filter_app, glow_draw_racer, IH.
Qed.

Lemma draw_track_ok : Forall (fun c => cmd_ok c = true) draw_track.
Proof. apply (bool_decide_unpack _). vm_compute. reflexivity. Qed.

Lemma draw_comparison_ok : Forall (fun c => cmd_ok c = true) draw_comparison.
Proof. apply (bool_decide_unpack _). vm_compute. reflexivity. Qed.

Lemma draw_racer_ok (s : Game G) (i r : nat) :
  color_ok (rcolor (store s r)) = true -> Forall (fun c => cmd_ok c = true) (draw_racer s i r).
Proof.
  intros Hc. unfold draw_racer, power_rings.
  destruct (bool_decide _), (power_active (store s r)); simpl; repeat constructor.
  all: simpl; rewrite ?Hc; reflexivity.
Qed.

Lemma draw_ui_ok (s : Game G) :
  Forall (fun r => color_ok (rcolor (store s r)) = true) (finish_order s) ->
  Forall (fun c => cmd_ok c = true) (draw_ui s).
Proof.
  intros Hf. unfold draw_ui. rewrite !Forall_app. split_and!.
  - repeat constructor. simpl. by destruct (decide _).
  - destruct (negb (racing s)); repeat constructor.
  - destruct (finish_order s) as [|f fs] eqn:Ef; [constructor|]. constructor; [reflexivity|].
    apply Forall_forall. intros c ([i r] & -> & Hin)%list_elem_of_fmap.
    unfold py_enumerate in Hin. apply elem_of_zip_r in Hin. rewrite Forall_forall in Hf.
    simpl. by rewrite (Hf r Hin).
  - apply (bool_decide_unpack _). vm_compute. reflexivity.
Qed.

End Read.

(** Every pygame call of a frame is well typed when the racers drawn,
    in the lanes and in the finish panel, have colours in range. *)
Lemma frame_display_ok {G : Type} (s : Game G) :
  Forall (fun r => color_ok (rcolor (store s r)) = true) (racers s ++ finish_order s) ->
  Forall (fun c => cmd_ok c = true) (frame_display s).
Proof.
  rewrite Forall_app. intros [Hr Hf]. unfold frame_display. rewrite Forall_app. split; [|repeat constructor].
  destruct (show_comparison s); [apply draw_comparison_ok|].
  constructor; [reflexivity|]. rewrite !Forall_app. split_and!.
  - apply draw_track_ok.
  - unfold draw_racers. apply Forall_forall. intros c Hc.
    apply list_elem_of_In, in_flat_map in Hc as ([i r] & Hin & Hc). apply list_elem_of_In in Hin, Hc.
    unfold py_enumerate in Hin. apply elem_of_zip_r in Hin. rewrite Forall_forall in Hr.
    exact (proj1 (Forall_forall _ _) (draw_racer_ok s i r (Hr r Hin)) c Hc).
  - by apply draw_ui_ok.
  - destruct (race_complete s); repeat constructor.
Qed.

Section AfterStart.
Context {G : Type} `{PyRandom G} `{!PyRandomLaws G}.

(** C26. After SPACE ([start_race]) every racer's car is drawn centred,
    vertically, on a white lane line of the track: the racer at index
    [i] sits at [y = 200 + 60 i], which is where [draw_track] draws its
    [i]-th boundary line, not between two lines. *)
Theorem cars_on_lane_lines (now : Q) (s : Game G) :
  wf s ->
  exists s', start_race now s = Ok tt s' /\
    forall (i : nat) r, racers s' !! i = Some r ->
      let c := car_rect (store s' r) in
      draw_rect (RGB (rcolor (store s' r))) c ∈ draw_racers s'
      /\ rtop c + rheight c / 2 == 200 + inject_Z (Z.of_nat i) * 60
      /\ DrawLine WHITE (80, 200 + inject_Z (Z.of_nat i) * 60) (SCREEN_WIDTH - 80, 200 + inject_Z (Z.of_nat i) * 60) 2
           ∈ draw_track.
Proof.
  intros Hwf. destruct (start_race_run now s Hwf) as (s' & E & W & _ & _ & _ & _ & _ & _ & _ & _ & Hi & _).
  exists s'. split; [exact E|]. intros i r Hr. pose proof W as (_ & Hl & _).
  destruct (Hi i r Hr) as (Hy & _). split_and!.
  - apply (draw_racer_in s' i r); [exact Hr | apply car_in_draw_racer].
  - unfold car_rect. cbn [rtop rheight]. rewrite Hy, inject_Z_plus, inject_Z_mult.
    change (inject_Z 200) with 200. change (inject_Z 60) with 60. field.
  - apply lane_line_in_track. apply lookup_lt_Some in Hr. lia.
Qed.

(** C27. After SPACE the power glow is drawn around exactly one car, the
    one at index 3, which [find_median] chose: the glow rectangles of
    [draw_racers] are the three rings of that racer. *)
Theorem glow_only_median (now : Q) (s : Game G) :
  wf s ->
  exists s' r, start_race now s = Ok tt s' /\ racers s' !! 3%nat = Some r
    /\ filter is_glow (draw_racers s') = power_rings (store s' r).
Proof.
  intros Hwf. destruct (start_race_run now s Hwf) as (s' & E & W & _ & _ & _ & _ & _ & _ & _ & _ & Hi & _).
  pose proof W as (_ & Hl & _).
  assert (Hp : forall (i : nat) r, racers s' !! i = Some r -> power_active (store s' r) = bool_decide (i = 3%nat))
    by (intros i r Hr; apply (Hi i r Hr)).
  destruct (lookup_lt_is_Some_2 (racers s') 3) as [m Hm]; [lia|].
  exists s', m. split_and!; [exact E | exact Hm |].
  rewrite glow_draw_racers. unfold py_enumerate.
  destruct (racers s') as [|r0 [|r1 [|r2 [|r3 [|r4 [|r5 [|]]]]]]] eqn:Er; try discriminate Hl.
  injection Hm as <-.
  simpl. rewrite (Hp 0%nat r0), (Hp 1%nat r1), (Hp 2%nat r2), (Hp 3%nat r3), (Hp 4%nat r4), (Hp 5%nat r5)
    by done.
  simpl. rewrite ?app_nil_r. reflexivity.
Qed.

(** The banner of a completed race and the finish panel, in the frame
    drawn from a state outside the comparison screen. *)
Lemma complete_banner_in (s : Game G) :
  show_comparison s = false -> race_complete s = true ->
  BlitCentered (Render font_medium "Race Complete! Press ENTER to race again" GREEN) (HALF_WIDTH, 150)
    ∈ frame_display s.
Proof.
  intros Hsc Hc. unfold frame_display. rewrite Hsc, Hc. apply elem_of_app. left. right.
  rewrite !elem_of_app. right. right. right. left.
Qed.

Lemma finish_line_in (s : Game G) (i r : nat) :
  show_comparison s = false -> finish_order s !! i = Some r ->
  Blit (Render font_small (finish_line_text i (store s r)) (rcolor (store s r)))
       (SCREEN_WIDTH - 300, 140 + inject_Z (Z.of_nat i) * 25) ∈ frame_display s.
Proof.
  intros Hsc Hi. unfold frame_display. rewrite Hsc. apply elem_of_app. left. right.
  rewrite !elem_of_app. right. right. left. unfold draw_ui. rewrite !elem_of_app. right. right. left.
  destruct (finish_order s) as [|f fs] eqn:Ef; [done|]. right.
  apply list_elem_of_fmap. exists (i, r). split; [done|]. by apply py_enumerate_lookup.
Qed.

End AfterStart.

(** ** The seeded game *)

#[local] Existing Instance LCG.lcg.
#[local] Existing Instance LCG.lcg_laws.

Lemma cars_on_lane_lines_witness :
  wf game0 /\
  exists s', start_race 0 game0 = Ok tt s' /\
    forall (i : nat) r, racers s' !! i = Some r ->
      let c := car_rect (store s' r) in
      draw_rect (RGB (rcolor (store s' r))) c ∈ draw_racers s'
      /\ rtop c + rheight c / 2 == 200 + inject_Z (Z.of_nat i) * 60
      /\ DrawLine WHITE (80, 200 + inject_Z (Z.of_nat i) * 60) (SCREEN_WIDTH - 80, 200 + inject_Z (Z.of_nat i) * 60) 2
           ∈ draw_track.
Proof.
  assert (W : wf game0) by (apply wfb_sound; vm_compute; reflexivity).
  split; [exact W | exact (cars_on_lane_lines 0 game0 W)].
Defined.

Lemma glow_only_median_witness :
  wf game0 /\
  exists s' r, start_race 0 game0 = Ok tt s' /\ racers s' !! 3%nat = Some r
    /\ filter is_glow (draw_racers s') = power_rings (store s' r).
Proof.
  assert (W : wf game0) by (apply wfb_sound; vm_compute; reflexivity).
  split; [exact W | exact (glow_only_median 0 game0 W)].
Defined.

