(* ===== verification/Race.v ===== *)
(** * Race: the progress of a race over frames

    How [update] (lines 203-227) moves the racers, frame by frame: every
    unfinished racer advances at least [min_advance dt0] in a frame of at
    least [dt0] seconds ([frame_in_race]), the state stays [in_race], and
    far enough into the race every racer is finished, [race_complete] is
    set and [finish_order] holds every racer once ([in_race_complete]).
    [start_race] starts such a race ([start_race_in_race]).  [Main]
    composes these with the main loop into the liveness theorem. *)

From Stdlib Require Import Qround.
From S2P Require Import Prelude PyRandom Racer Lomuto State Engine Game.
Import Lomuto.Lomuto RaceSorterGame.

#[local] Open Scope Q_scope.

Section Progress.
Context {G : Type} `{PyRandom G}.
Abbreviation M := (PyM (Game G)).

(** Frames of at least [dt0] seconds that carry every racer the
    [475] pixels of [position] from the start line to [FINISH_X]. *)
Definition race_frames (dt0 : Q) : nat := Z.to_nat (Qceiling (475 / min_advance dt0)).

(** What [Racer.update] changes of a racer. *)
Definition motion (v : Racer) : Q * Q * bool := (position v, speed v, finished v).

Lemma moving_motion (k : Q) (v v' : Racer) : motion v' = motion v -> moving k v -> moving k v'.
Proof. unfold motion, moving. intros E. injection E as -> -> ->. done. Qed.

Lemma racer_update_eq (r : nat) (dt boost : Q) (s : Game G) :
  racer_update r dt boost s =
  Ok tt (set_rng (Racer.update dt boost (store s r) (rng s)).2
           (set_store (store_set (store s) r (Racer.update dt boost (store s r) (rng s)).1) s)).
Proof. unfold racer_update, pbind, pget, pmodify. by destruct (Racer.update dt boost (store s r) (rng s)). Qed.

(** The body of the loop of [update] for the racer [r]: it moves [r] by
    one [Racer.update] with a boost of at least 1, touches no other racer,
    returns whether [r] is finished and adds [r] to [finish_order] when it
    is. *)
Lemma update_racer_motion (dt now : Q) (r : nat) (s : Game G) :
  exists boost s', update_racer dt now r s = Ok (finished (store s' r)) s'
   /\ 1 <= boost /\ motion (store s' r) = motion (Racer.update dt boost (store s r) (rng s)).1
   /\ (forall r', r' <> r -> store s' r' = store s r')
   /\ (forall x, x ∈ finish_order s' <-> x ∈ finish_order s \/ (x = r /\ finished (store s' r) = true))
   /\ race_complete s' = race_complete s.
Proof.
  unfold update_racer. py_tick. cbn zeta.
  match goal with |- context [racer_update r dt ?b] => exists b; set (boost := b) end.
  assert (Hb : 1 <= boost) by (unfold boost; destruct (power_active (store s r)); lra).
  py_run (racer_update_eq r dt boost s). py_tick.
  set (v := (Racer.update dt boost (store s r) (rng s)).1).
  set (s1 := set_rng _ (set_store (store_set (store s) r v) s)).
  assert (Hpow : exists s2, (if power_active (store s1 r) then pmodify (update_obj r (tick_power dt))
                             else pret tt) s1 = Ok tt s2 /\ motion (store s2 r) = motion v
                 /\ (forall r', r' <> r -> store s2 r' = store s r') /\ finish_order s2 = finish_order s
                 /\ race_complete s2 = race_complete s).
  { destruct (power_active (store s1 r)); eexists; (split; [reflexivity|]);
      cbn; rewrite ?store_set_eq; split_and!; try done; intros r' Hr';
      rewrite ?store_set_ne by done; done. }
  destruct Hpow as (s2 & E2 & M2 & O2 & F2 & C2). py_run E2. py_tick.
  destruct (finished (store s2 r) && negb (bool_decide (r ∈ finish_order s2))) eqn:Ef.
  - do 2 py_tick. eexists. split; [reflexivity|]. cbn. rewrite store_set_eq.
    apply andb_true_iff in Ef as [Ef _]. split_and!; [done | exact M2 | | | exact C2].
    + intros r' Hr'. rewrite store_set_ne by done. auto.
    + intros x0. rewrite elem_of_app, list_elem_of_singleton, F2. cbn. naive_solver.
  - do 2 py_tick. eexists. split; [reflexivity|]. split_and!; [done | exact M2 | exact O2 | | exact C2].
    intros x0. rewrite F2. apply andb_false_iff in Ef as [Ef|Ef].
    + naive_solver congruence.
    + apply negb_false_iff, bool_decide_eq_true in Ef. rewrite F2 in Ef. naive_solver.
Qed.

(** One [Racer.update] of [v] with a boost of at least 1, as far as the
    motion goes. *)
Definition advances (dt : Q) (v v' : Racer) : Prop :=
  exists boost (g : G), 1 <= boost /\ motion v' = motion (Racer.update dt boost v g).1.

Lemma advances_finished (dt : Q) (v v' : Racer) :
  advances dt v v' -> finished v = true -> finished v' = true.
Proof.
  intros (b & g & _ & E) Hf. unfold Racer.update in E. rewrite Hf in E. simpl in E.
  unfold motion in E. congruence.
Qed.

Lemma advances_moving (dt0 dt k : Q) (v v' : Racer) :
  key_ok v -> 0 < dt0 -> dt0 <= dt -> moving k v -> advances dt v v' -> moving (k + min_advance dt0) v'.
Proof.
  intros Hk Hd0 Hd Hm (b & g & Hb & E). eapply moving_motion; [exact E|]. by apply update_moving.
Qed.

(** The loop of [update] over distinct racers [rs]: each of them advances
    once, no other object changes, the loop returns whether all of them
    are finished, and [finish_order] gains exactly the finished ones. *)
Lemma update_loop_motion (dt now : Q) (rs : list nat) (af : bool) (s : Game G) :
  NoDup rs ->
  exists s', update_loop dt now rs af s = Ok (af && forallb (fun r => finished (store s' r)) rs) s'
   /\ (forall r, r ∈ rs -> advances dt (store s r) (store s' r))
   /\ (forall r, r ∉ rs -> store s' r = store s r)
   /\ (forall x, x ∈ finish_order s' <-> x ∈ finish_order s \/ (x ∈ rs /\ finished (store s' x) = true))
   /\ race_complete s' = race_complete s.
Proof.
  revert af s. induction rs as [|r rs IH]; intros af s Hnd; simpl.
  { exists s. rewrite andb_true_r. split_and!; [done | intros r Hr; inversion Hr | done | intros x0; rewrite elem_of_nil; naive_solver | done]. }
  apply NoDup_cons in Hnd as [Hr Hnd].
  destruct (update_racer_motion dt now r s) as (b & s1 & E1 & Hb & M1 & O1 & F1 & C1). py_run E1.
  destruct (IH (af && finished (store s1 r)) s1 Hnd) as (s' & E' & A' & O' & F' & C').
  assert (Er : store s' r = store s1 r) by (apply O'; done).
  exists s'. rewrite Er, andb_assoc. split_and!; [exact E' | | | | congruence].
  - intros r' [->|Hr']%elem_of_cons.
    + exists b, (rng s). split; [done|]. by rewrite Er.
    + rewrite <-(O1 r') by (intros ->; contradiction). by apply A'.
  - intros r' Hr'. rewrite O' by (intros ?; apply Hr'; by right). apply O1. intros ->. apply Hr'. by left.
  - intros x0. rewrite F', F1, elem_of_cons, <-Er. naive_solver.
Qed.

(** [update(dt)] during a race: every racer advances once, the race is
    complete exactly when all racers are finished, and [finish_order]
    gains exactly the racers that are finished. *)
Lemma update_motion (dt now : Q) (s : Game G) :
  wf s -> racing s = true -> race_complete s = false ->
  exists s', update dt now s = Ok tt s' /\ update_frame s s'
   /\ (forall r, r ∈ racers s -> advances dt (store s r) (store s' r))
   /\ race_complete s' = forallb (fun r => finished (store s' r)) (racers s)
   /\ (forall x, x ∈ finish_order s' <->
                 x ∈ finish_order s \/ (x ∈ racers s /\ finished (store s' x) = true)).
Proof.
  intros Hwf Hr Hc. pose proof Hwf as (Hnd & _).
  destruct (update_loop_motion dt now (racers s) true s Hnd) as (s1 & E1 & A1 & _ & F1 & C1).
  destruct (update_loop_ok dt now (racers s) true s) as (f & s1' & E1' & Fr1).
  rewrite E1 in E1'. injection E1' as <- <-.
  unfold update. py_tick. rewrite Hr, Hc. simpl. py_run E1.
  destruct (forallb (fun r => finished (store s1 r)) (racers s)) eqn:Ef.
  - exists (set_race_complete true s1). split_and!; [done | | done | done | done].
    apply (update_frame_trans _ s1); [done|].
    split_and!; [reflexivity | intros r; reflexivity | exists []; by rewrite app_nil_r | done].
  - exists s1. split_and!; [done | done | done | | done].
    by rewrite C1, Ef.
Qed.

(** The state of a game during a race started with SPACE and run
    without input, [k] pixels of [position] into it: the flags of a
    running race; [finish_order] lists, once each, exactly the finished
    racers; while the race is not complete every racer is [moving k];
    the race is complete exactly when every racer is finished. *)
Definition in_race (k : Q) (s : Game G) : Prop :=
  wf s /\ running s = true /\ racing s = true /\ show_comparison s = false
  /\ NoDup (finish_order s)
  /\ (forall x, x ∈ finish_order s <-> x ∈ racers s /\ finished (store s x) = true)
  /\ (race_complete s = false -> Forall (fun r => moving k (store s r)) (racers s))
  /\ race_complete s = forallb (fun r => finished (store s r)) (racers s).

Lemma update_frame_flags (s s' : Game G) :
  update_frame s s' -> racers s' = racers s /\ running s' = running s /\ racing s' = racing s
    /\ show_comparison s' = show_comparison s.
Proof. intros (E & _). rewrite E. by split_and!. Qed.

Lemma in_race_key_ok (k : Q) (s : Game G) (r : nat) : in_race k s -> r ∈ racers s -> key_ok (store s r).
Proof.
  intros ((_ & _ & _ & _ & Hk) & _) Hr. rewrite Forall_forall in Hk. by destruct (Hk r Hr).
Qed.

(** A frame without input during a race: [update] runs, and every racer
    still in the race gains at least [min_advance dt0]. *)
Lemma frame_in_race (dt0 dt now k : Q) (s : Game G) :
  in_race k s -> 0 < dt0 -> dt0 <= dt ->
  exists s', frame dt now [] s = Ok tt s' /\ in_race (k + min_advance dt0) s'.
Proof.
  intros Hin Hd0 Hd. pose proof Hin as (Hwf & Hrun & Hr & Hsc & Hnd & Hfo & Hmov & Hdone).
  unfold frame, handle_events. py_tick. py_tick. rewrite Hsc.
  destruct (race_complete s) eqn:Hc.
  - exists s. unfold update. py_tick. rewrite Hr, Hc. split; [done|].
    unfold in_race. split_and!; try done; congruence.
  - destruct (update_motion dt now s Hwf Hr Hc) as (s' & E & Fr & A & C & F).
    pose proof (update_frame_flags _ _ Fr) as (R' & Run' & Ra' & Sc').
    pose proof Fr as (_ & _ & _ & N). exists s'. split; [exact E|].
    unfold in_race. rewrite R'. split_and!; [by eapply update_frame_wf | congruence | congruence
      | congruence | auto | | | exact C].
    + intros x0. rewrite F, Hfo. split; [|naive_solver].
      intros [[Hx Hf]|Hx]; [|done]. split; [done|]. by eapply advances_finished, Hf; apply A.
    + intros _. apply Forall_forall. intros r Hr'.
      apply (advances_moving dt0 dt k (store s r)); [by eapply in_race_key_ok | done | done | | by apply A].
      specialize (Hmov eq_refl). rewrite Forall_forall in Hmov. by apply Hmov.
Qed.

Lemma in_race_weaken (k k' : Q) (s : Game G) : k' <= k -> in_race k s -> in_race k' s.
Proof.
  intros Hk (W & Ru & Ra & Sc & N & F & Hm & C). split_and!; try done.
  intros Hc. eapply Forall_impl; [exact (Hm Hc)|]. intros r (Hs & Hp). split; [done|].
  intros Hf. destruct (Hp Hf). split; lra.
Qed.

(** Far enough into the race every racer is finished, so the race is
    complete and [finish_order] is a permutation of the racers. *)
Lemma in_race_complete (k : Q) (s : Game G) :
  475 <= k -> in_race k s -> race_complete s = true /\ finish_order s ≡ₚ racers s.
Proof.
  intros Hk (W & _ & _ & _ & N & F & Hm & C).
  assert (Hall : forall r, r ∈ racers s -> finished (store s r) = true).
  { intros r Hr. destruct (finished (store s r)) eqn:Hf; [done|].
    destruct (race_complete s) eqn:Hc.
    - symmetry in C. rewrite forallb_forall in C. specialize (C r (proj1 (list_elem_of_In _ _) Hr)). congruence.
    - specialize (Hm eq_refl). rewrite Forall_forall in Hm. destruct (Hm r Hr) as (_ & Hp).
      destruct (Hp Hf). lra. }
  split.
  - rewrite C. apply forallb_forall. intros r Hr. apply Hall, list_elem_of_In, Hr.
  - apply NoDup_Permutation; [done | apply W |]. intros r. rewrite F. naive_solver.
Qed.

(** The state [start_race] leaves: a race at its start. *)
Lemma start_race_in_race `{!PyRandomLaws G} (now : Q) (s : Game G) :
  wf s -> running s = true -> show_comparison s = false ->
  exists s', start_race now s = Ok tt s' /\ in_race 0 s'.
Proof.
  intros Hwf Hrun Hsc.
  destruct (start_race_run now s Hwf) as (s' & E & W & _ & _ & Ra & Rc & Fo & _ & Ru & Sc & Hi & _).
  assert (Hf : forall r, r ∈ racers s' -> finished (store s' r) = false /\ moving 0 (store s' r)).
  { intros r Hr. apply list_elem_of_lookup_1 in Hr as [i Hi']. destruct (Hi i r Hi') as (_ & _ & Hf & _ & Hp & Hs).
    split; [done|]. unfold moving. rewrite Hp, Hs. split; [lra | intros _; lra]. }
  exists s'. split; [exact E|]. unfold in_race. rewrite Fo. split_and!; try congruence.
  - constructor.
  - intros x0. rewrite elem_of_nil. split; [done|]. intros [Hx Hx']. by rewrite (proj1 (Hf x0 Hx)) in Hx'.
  - intros _. apply Forall_forall. intros r Hr. apply (Hf r Hr).
  - pose proof W as (_ & Hl & _). destruct (racers s') as [|r rs] eqn:Er; [done|].
    rewrite Rc. simpl. by rewrite (proj1 (Hf r ltac:(by left))).
Qed.

Lemma race_frames_enough (dt0 : Q) (n : nat) :
  0 < dt0 -> (race_frames dt0 <= n)%nat -> 475 <= inject_Z (Z.of_nat n) * min_advance dt0.
Proof.
  intros Hd Hn. pose proof (min_advance_pos dt0 Hd) as Hm. unfold race_frames in Hn.
  pose proof (Qle_ceiling (475 / min_advance dt0)) as Hc.
  assert (Hz : inject_Z (Qceiling (475 / min_advance dt0)) <= inject_Z (Z.of_nat n)) by (rewrite <-Zle_Qle; lia).
  assert (Hx : 475 / min_advance dt0 * min_advance dt0 == 475) by (field; lra).
  nra.
Qed.

End Progress.
