(* ===== verification/Phases.v ===== *)
(** * Phases: the flags of the game as an abstract state machine

    [RaceSorterGame] keeps its phase in three flags: [running], [racing]
    and [race_complete] (lines 91-93), and a fourth one, [show_comparison]
    (line 97), decides which screen is drawn and whether [update] runs.
    [abs] reads them as an abstract state: a phase [Idle | Racing |
    Finished | Stopped] ([phase_of]) and whether the comparison screen is
    open.  [astep] is the machine the event handler is meant to follow,
    as a function: SPACE starts a race from [Idle], ENTER returns from
    [Finished] to [Idle], C opens the comparison screen, ESC closes it or
    stops the game, QUIT stops the game, and everything else (R and D
    included) leaves the abstract state alone; [aupdate] is [update]:
    a race becomes [Finished] exactly when every racer has finished, and
    nothing moves while the comparison screen is open.

    The theorems show that the abstraction is exact: every event maps the
    abstract state of the game by [astep] and every frame by [aframe]
    (a functional refinement, no choice left), that [race_complete]
    only ever holds during a race and holds as soon as every racer of the
    race has finished, and that the events after QUIT in one frame are
    still handled. *)

From S2P Require Import Prelude PyRandom Racer Lomuto State Engine Game Race.
Import RaceSorterGame.

Inductive phase : Type := Idle | Racing | Finished | Stopped.

#[export] Instance phase_eq_dec : EqDecision phase.
Proof. solve_decision. Defined.

(** The abstract state: the phase and whether the comparison screen is
    open. *)
Record astate : Type := AState { aphase : phase; acomp : bool }.

#[export] Instance astate_eq_dec : EqDecision astate.
Proof. solve_decision. Defined.

(** The abstract effect of one event. *)
Definition astep (a : astate) (e : Event) : astate :=
  match e with
  | QUIT => AState Stopped (acomp a)
  | KEYDOWN K_ESCAPE => if acomp a then AState (aphase a) false else AState Stopped false
  | KEYDOWN K_SPACE => AState (match aphase a with Idle => Racing | p => p end) (acomp a)
  | KEYDOWN K_c => AState (aphase a) true
  | KEYDOWN K_RETURN => AState (match aphase a with Finished => Idle | p => p end) (acomp a)
  | _ => a
  end.

(** The abstract effect of [update], given whether every racer has
    finished after it; [run] skips [update] on the comparison screen. *)
Definition aupdate (a : astate) (all_done : bool) : astate :=
  if acomp a then a
  else match aphase a with
       | Racing => AState (if all_done then Finished else Racing) false
       | _ => a
       end.

(** The abstract effect of one turn of [run]: the events in order, then
    [update]. *)
Definition aframe (es : list Event) (all_done : bool) (a : astate) : astate :=
  aupdate (foldl astep a es) all_done.

Lemma foldl_astep_Stopped (es : list Event) (c : bool) :
  aphase (foldl astep (AState Stopped c) es) = Stopped.
Proof.
  revert c. induction es as [|e es IH]; intros c; [done|]. simpl.
  destruct e as [|[]|]; simpl; try apply IH. destruct c; apply IH.
Qed.

Section Phases.
Context {G : Type} `{PyRandom G}.

(** The phase the flags of [self] encode: [run] exits once [running] is
    false; [racing] with [race_complete] is the screen
    "Race Complete! Press ENTER to race again" (lines 418-420). *)
Definition phase_of (s : Game G) : phase :=
  if negb (running s) then Stopped
  else if racing s then (if race_complete s then Finished else Racing)
  else Idle.

Definition abs (s : Game G) : astate := AState (phase_of s) (show_comparison s).

(** Every racer of [self.racers] has finished. *)
Definition all_finished (s : Game G) : bool := forallb (fun r => finished (store s r)) (racers s).

Lemma phase_of_Stopped (s : Game G) : phase_of s = Stopped -> running s = false.
Proof. unfold phase_of. destruct (running s), (racing s), (race_complete s); done. Qed.

Lemma all_finished_lookup (s : Game G) (i r : nat) :
  racers s !! i = Some r -> finished (store s r) = false -> all_finished s = false.
Proof.
  intros Hi Hf. unfold all_finished. apply not_true_iff_false. intros Ha.
  apply forallb_forall with (x := r) in Ha; [congruence|]. apply list_elem_of_In. by eapply list_elem_of_lookup_2.
Qed.

Section Laws.
Context `{!PyRandomLaws G}.

Lemma init_racers_flags (s : Game G) :
  NoDup (finish_order s) ->
  exists s', init_racers s = Ok tt s' /\ inv s' /\ running s' = running s /\ racing s' = racing s
    /\ race_complete s' = race_complete s /\ show_comparison s' = show_comparison s
    /\ all_finished s' = false.
Proof.
  intros Hnd. destruct (init_racers_wf s) as (s' & E & W & I & _).
  destruct (init_racers_ok s) as (s1 & E1 & R1 & _ & _ & F1 & _). rewrite E in E1. injection E1 as <-.
  assert (F : running s' = running s /\ racing s' = racing s /\ race_complete s' = race_complete s
              /\ show_comparison s' = show_comparison s /\ finish_order s' = finish_order s)
    by (rewrite I; by split_and!).
  destruct F as (Fr & Fa & Fc & Fs & Fo). exists s'. split_and!; try done; [split; [done | by rewrite Fo] |].
  destruct (F1 0%nat ltac:(lia)) as (_ & _ & _ & _ & _ & _ & Hf & _).
  apply (all_finished_lookup s' 0 (next_ref s + 0)); [rewrite R1; simpl; f_equal; lia | exact Hf].
Qed.

(** The flags and race fields of a state that [start_race] leaves. *)
Lemma start_race_flags (now : Q) (s : Game G) :
  wf s -> exists s', start_race now s = Ok tt s' /\ wf s' /\ finish_order s' = []
    /\ racing s' = true /\ race_complete s' = false /\ running s' = running s
    /\ show_comparison s' = show_comparison s /\ all_finished s' = false
    /\ racers s' ≡ₚ racers s /\ sorted_by_value s'.
Proof.
  intros Hwf. destruct (start_race_run now s Hwf) as (s' & E & W & P & So & Ra & Rc & F & _ & Ru & Sc & Hy & _).
  exists s'. split_and!; try done.
  pose proof W as (_ & Hl & _). destruct (lookup_lt_is_Some_2 (racers s') 0) as [r Hr]; [lia|].
  destruct (Hy 0%nat r Hr) as (_ & _ & Hf & _). exact (all_finished_lookup s' 0 r Hr Hf).
Qed.

Ltac abs_flag := eexists; split; [reflexivity|]; split; [eapply inv_same; [eassumption | reflexivity..] |].

(** One event: the handler raises nothing, keeps [inv] and maps the
    abstract state by [astep]. *)
Lemma handle_event_abs (now : Q) (e : Event) (s : Game G) :
  inv s -> exists s', handle_event now e s = Ok tt s' /\ inv s' /\ abs s' = astep (abs s) e.
Proof.
  intros Hi. unfold abs, astep. destruct e as [|k|]; [abs_flag; reflexivity | | abs_flag; reflexivity].
  unfold handle_event. py_tick. destruct k.
  - destruct (show_comparison s) eqn:Hsc; abs_flag; cbn; rewrite ?Hsc; reflexivity.
  - destruct (racing s) eqn:Hr; cbn [negb].
    + abs_flag. unfold phase_of. rewrite Hr. by destruct (running s), (race_complete s).
    + destruct (start_race_flags now s (proj1 Hi)) as (s' & E & W & F & Ra & Rc & Ru & Sc & _).
      exists s'. split_and!; [done | split; [done | rewrite F; constructor] |].
      unfold phase_of. rewrite Ru, Ra, Rc, Hr, Sc. by destruct (running s).
  - py_tick. destruct (init_racers_flags (set_algorithm_mode RANDOMIZED s)) as (s' & E & I & F1 & F2 & F3 & F4 & _);
      [apply Hi|].
    exists s'. split_and!; [done | done |]. unfold phase_of. by rewrite F1, F2, F3, F4.
  - py_tick. destruct (init_racers_flags (set_algorithm_mode DETERMINISTIC s)) as (s' & E & I & F1 & F2 & F3 & F4 & _);
      [apply Hi|].
    exists s'. split_and!; [done | done |]. unfold phase_of. by rewrite F1, F2, F3, F4.
  - abs_flag. reflexivity.
  - destruct (race_complete s) eqn:Hc.
    + do 2 py_tick.
      destruct (init_racers_flags (set_race_complete false (set_racing false s))) as (s' & E & I & F1 & F2 & F3 & F4 & _);
        [apply Hi|].
      exists s'. split_and!; [done | done |].
      unfold phase_of. rewrite F1, F2, F3, F4, Hc. simpl. by destruct (running s), (racing s).
    + abs_flag. unfold phase_of. rewrite Hc. by destruct (running s), (racing s).
  - abs_flag. reflexivity.
Qed.

Lemma handle_events_abs (now : Q) (es : list Event) (s : Game G) :
  inv s -> exists s', handle_events now es s = Ok tt s' /\ inv s' /\ abs s' = foldl astep (abs s) es.
Proof.
  unfold handle_events. revert s. induction es as [|e es IH]; intros s Hi; simpl; [by exists s|].
  destruct (handle_event_abs now e s Hi) as (s1 & E1 & I1 & A1). py_run E1.
  destruct (IH s1 I1) as (s' & E' & I' & A'). exists s'. split_and!; [done | done | by rewrite A', A1].
Qed.

(** [update] with the comparison screen closed: it completes the race
    exactly when every racer has finished. *)
Lemma update_abs (dt now : Q) (s : Game G) :
  wf s -> show_comparison s = false ->
  exists s', update dt now s = Ok tt s' /\ wf s' /\ (NoDup (finish_order s) -> NoDup (finish_order s'))
    /\ abs s' = aupdate (abs s) (all_finished s')
    /\ (racing s = true -> race_complete s = false -> race_complete s' = all_finished s').
Proof.
  intros Hwf Hsc. destruct (update_run dt now s Hwf) as (s' & E & W & _ & _ & N & Hout).
  exists s'. split_and!; [done | done | done | |].
  - unfold abs, aupdate, phase_of. cbn [acomp aphase]. rewrite Hsc.
    destruct (racing s && negb (race_complete s)) eqn:Hrc.
    + apply andb_true_iff in Hrc as [Hr Hc%negb_true_iff].
      destruct (update_motion dt now s Hwf Hr Hc) as (s1 & E1 & Fr & _ & C1 & _).
      rewrite E in E1. injection E1 as <-.
      destruct (update_frame_flags s s' Fr) as (R1 & Ru & Ra & Sc).
      unfold all_finished. rewrite Ru, Ra, Sc, Hr, Hc, C1, R1, Hsc. by destruct (running s).
    + rewrite (Hout eq_refl). rewrite Hsc.
      destruct (running s), (racing s), (race_complete s); done.
  - intros Hr Hc. destruct (update_motion dt now s Hwf Hr Hc) as (s1 & E1 & Fr & _ & C1 & _).
    rewrite E in E1. injection E1 as <-. unfold all_finished. by rewrite C1, (update_frame_racers s s' Fr).
Qed.

Lemma frame_abs (dt now : Q) (es : list Event) (s : Game G) :
  inv s -> exists s', frame dt now es s = Ok tt s' /\ inv s' /\ abs s' = aframe es (all_finished s') (abs s).
Proof.
  intros Hi. unfold frame, aframe. destruct (handle_events_abs now es s Hi) as (s1 & E1 & [W1 N1] & A1).
  py_run E1. py_tick. rewrite <-A1. destruct (show_comparison s1) eqn:Hsc.
  - exists s1. split_and!; [done | by split | unfold aupdate, abs; by rewrite Hsc].
  - destruct (update_abs dt now s1 W1 Hsc) as (s2 & E2 & W2 & N2 & A2 & _).
    exists s2. split_and!; [done | split; auto | done].
Qed.

(** The race flags of a run: [race_complete] only during a race, and set
    as soon as every racer of the race has finished. *)
Definition race_flags (s : Game G) : Prop :=
  (race_complete s = true -> racing s = true)
  /\ (racing s = true -> all_finished s = true -> race_complete s = true).

Lemma handle_event_flags (now : Q) (e : Event) (s : Game G) :
  inv s -> race_flags s -> exists s', handle_event now e s = Ok tt s' /\ inv s' /\ race_flags s'.
Proof.
  intros Hi Hf. destruct e as [|k|]; [abs_flag; exact Hf | | abs_flag; exact Hf].
  unfold handle_event. py_tick. destruct k.
  - destruct (show_comparison s); abs_flag; exact Hf.
  - destruct (racing s) eqn:Hr; cbn [negb]; [abs_flag; exact Hf|].
    destruct (start_race_flags now s (proj1 Hi)) as (s' & E & W & F & Ra & Rc & _ & _ & Af & _).
    exists s'. split_and!; [done | split; [done | rewrite F; constructor] |].
    split; [by rewrite Rc | by rewrite Af].
  - py_tick. destruct (init_racers_flags (set_algorithm_mode RANDOMIZED s)) as (s' & E & I & _ & F2 & F3 & _ & Af);
      [apply Hi|].
    exists s'. split_and!; [done | done |]. split; [rewrite F2, F3; apply Hf | by rewrite Af].
  - py_tick. destruct (init_racers_flags (set_algorithm_mode DETERMINISTIC s)) as (s' & E & I & _ & F2 & F3 & _ & Af);
      [apply Hi|].
    exists s'. split_and!; [done | done |]. split; [rewrite F2, F3; apply Hf | by rewrite Af].
  - abs_flag. exact Hf.
  - destruct (race_complete s); [|abs_flag; exact Hf]. do 2 py_tick.
    destruct (init_racers_flags (set_race_complete false (set_racing false s))) as (s' & E & I & _ & F2 & F3 & _);
      [apply Hi|].
    exists s'. split_and!; [done | done |]. split; [by rewrite F3 | by rewrite F2].
  - abs_flag. exact Hf.
Qed.

Lemma frame_flags (dt now : Q) (es : list Event) (s : Game G) :
  inv s -> race_flags s -> exists s', frame dt now es s = Ok tt s' /\ inv s' /\ race_flags s'.
Proof.
  intros Hi Hf. unfold frame.
  assert (Hes : exists s1, handle_events now es s = Ok tt s1 /\ inv s1 /\ race_flags s1).
  { unfold handle_events. clear dt. revert s Hi Hf. induction es as [|e es IH]; intros s Hi Hf; [by exists s|].
    destruct (handle_event_flags now e s Hi Hf) as (s1 & E1 & I1 & F1). simpl. py_run E1. by apply IH. }
  destruct Hes as (s1 & E1 & [W1 N1] & F1). py_run E1. py_tick. destruct (show_comparison s1) eqn:Hsc; [by exists s1|].
  destruct (update_abs dt now s1 W1 Hsc) as (s2 & E2 & W2 & N2 & _ & C2).
  destruct (update_run dt now s1 W1) as (s2' & E2' & _ & _ & _ & _ & Hout). rewrite E2 in E2'. injection E2' as <-.
  exists s2. split_and!; [done | split; auto |].
  destruct (racing s1 && negb (race_complete s1)) eqn:Hrc.
  - apply andb_true_iff in Hrc as [Hr Hc%negb_true_iff].
    destruct (update_motion dt now s1 W1 Hr Hc) as (s3 & E3 & Fr & _). rewrite E2 in E3. injection E3 as <-.
    destruct (update_frame_flags s1 s2 Fr) as (_ & _ & Ra & _).
    split; [intros _; by rewrite Ra | intros _ Ha; by rewrite (C2 Hr Hc)].
  - by rewrite (Hout eq_refl).
Qed.

(** C11. Every frame of a run refines the abstract machine exactly:
    from a reachable state, the abstract state after a frame is the one
    [aframe] computes from the abstract state before it, the frame's
    events in order and whether every racer has finished.  So SPACE
    starts a race only from [Idle], ENTER leaves only [Finished], the
    comparison screen opens and closes only on C and ESC, [Stopped] is
    never left, and a race ends exactly when all its racers are home. *)
Theorem frame_refines_phases (dt now : Q) (es : list Event) (s s' : Game G) :
  reachable s -> frame dt now es s = Ok tt s' -> abs s' = aframe es (all_finished s') (abs s).
Proof.
  intros Hr E. destruct (frame_abs dt now es s (reachable_inv_run s Hr)) as (s2 & E2 & _ & P).
  rewrite E in E2. injection E2 as <-. exact P.
Qed.

(** C12. In every state of a run [race_complete] holds only during a
    race ([racing]), and during a race it holds as soon as every racer
    in [self.racers] has finished: ENTER clears both flags together and
    [update] sets [race_complete] in the frame the last racer crosses the
    line. *)
Theorem race_complete_only_in_race (s : Game G) :
  reachable s ->
  (race_complete s = true -> racing s = true)
  /\ (racing s = true -> all_finished s = true -> race_complete s = true).
Proof.
  intros Hr. cut (inv s /\ race_flags s); [intros [_ F]; exact F|].
  induction Hr as [g s E|dt now es s s' Hr IH Hrun Ef].
  - unfold new_game in E.
    destruct (init_racers_flags (mkGame (fun _ => no_racer) 0 g true false false RANDOMIZED false [] [] 0%Q 0 []))
      as (s1 & E1 & I1 & _ & F2 & F3 & _); [constructor|].
    rewrite E1 in E. injection E as <-. split; [done|]. split; [by rewrite F3 | by rewrite F2].
  - destruct IH as [Hi Hf]. destruct (frame_flags dt now es s Hi Hf) as (s2 & E2 & I2 & F2).
    rewrite Ef in E2. injection E2 as <-. by split.
Qed.

(** C25. The loop of [handle_events] does not stop at QUIT: the events
    after it in the same frame are still handled.  From any state of a
    run outside a race, a frame with QUIT and then SPACE ends with
    [running] false and yet a race started: the racers sorted by
    [sort_value] in a game that is shutting down. *)
Theorem quit_then_space_starts_race (dt now : Q) (s : Game G) :
  reachable s -> racing s = false ->
  exists s', frame dt now [QUIT; KEYDOWN K_SPACE] s = Ok tt s'
    /\ running s' = false /\ racing s' = true /\ racers s' ≡ₚ racers s /\ sorted_by_value s'.
Proof.
  intros Hr Hra. destruct (reachable_inv_run s Hr) as [Hwf _].
  destruct (start_race_flags now (set_running false s) Hwf) as (s2 & E2 & W2 & _ & Ra2 & Rc2 & Ru2 & Sc2 & _ & P2 & S2).
  assert (Eh : handle_events now [QUIT; KEYDOWN K_SPACE] s = Ok tt s2).
  { unfold handle_events, py_for, handle_event, pbind, pget, pmodify, pret. cbn -[start_race].
    rewrite Hra. cbn -[start_race]. rewrite E2. reflexivity. }
  unfold frame. py_run Eh. py_tick.
  destruct (show_comparison s2) eqn:Hsc; [by exists s2|].
  destruct (update_motion dt now s2 W2 Ra2 Rc2) as (s3 & E3 & Fr & _).
  destruct (update_frame_flags s2 s3 Fr) as (R3 & Ru3 & Ra3 & _).
  exists s3. split_and!; [done | by rewrite Ru3 | by rewrite Ra3 | by rewrite R3 |].
  apply (sorted_by_value_ext s2 s3); [done | | done].
  intros r. apply keeps_sort_value. by destruct Fr as (_ & K & _).
Qed.

End Laws.
End Phases.

(** ** A concrete run *)

#[local] Existing Instance LCG.lcg.
#[local] Existing Instance LCG.lcg_laws.

Lemma frame_refines_phases_witness :
  reachable game0 /\
  frame (1 # 60) 0 [KEYDOWN K_SPACE] game0 = Ok tt (final_state (frame (1 # 60) 0 [KEYDOWN K_SPACE] game0)) /\
  abs (final_state (frame (1 # 60) 0 [KEYDOWN K_SPACE] game0))
  = aframe [KEYDOWN K_SPACE] (all_finished (final_state (frame (1 # 60) 0 [KEYDOWN K_SPACE] game0))) (abs game0).
Proof.
  assert (Hr : reachable game0) by (apply (reachable_new 7%Z); vm_compute; reflexivity).
  assert (E : frame (1 # 60) 0 [KEYDOWN K_SPACE] game0
              = Ok tt (final_state (frame (1 # 60) 0 [KEYDOWN K_SPACE] game0))) by (vm_compute; reflexivity).
  split_and!; [exact Hr | exact E | exact (frame_refines_phases (1 # 60) 0 [KEYDOWN K_SPACE] game0 _ Hr E)].
Defined.

Lemma race_complete_only_in_race_witness :
  reachable game0 /\
  (race_complete game0 = true -> racing game0 = true)
  /\ (racing game0 = true -> all_finished game0 = true -> race_complete game0 = true).
Proof.
  assert (Hr : reachable game0) by (apply (reachable_new 7%Z); vm_compute; reflexivity).
  split; [exact Hr | exact (race_complete_only_in_race game0 Hr)].
Defined.

Lemma quit_then_space_starts_race_witness :
  reachable game0 /\ racing game0 = false /\
  exists s', frame (1 # 60) 0 [QUIT; KEYDOWN K_SPACE] game0 = Ok tt s'
    /\ running s' = false /\ racing s' = true /\ racers s' ≡ₚ racers game0 /\ sorted_by_value s'.
Proof.
  assert (Hr : reachable game0) by (apply (reachable_new 7%Z); vm_compute; reflexivity).
  assert (Ra : racing game0 = false) by (vm_compute; reflexivity).
  split_and!; [exact Hr | exact Ra | exact (quit_then_space_starts_race (1 # 60) 0 game0 Hr Ra)].
Defined.
