(* ===== verification/Main.v ===== *)
(** * Main: the main loop and the program (src/project/code.py, lines 401-433)

    [run] is [RaceSorterGame.run]: [while self.running], each turn
    reading the milliseconds [clock.tick(FPS)] returns, the clock
    [time.time()] and the events of [pygame.event.get()], running
    [handle_events] and [update] ([frame]) and drawing the frame
    ([frame_display]); when [running] is false the loop ends with
    [pygame.quit()].  The inputs are a list; when it runs out while the
    game is still running, the loop is simply not observed any further.
    Its result is every pygame call the program made.  [main] is the
    script's [RaceSorterGame().run()].

    The theorems compose the components: the program never raises,
    whatever the clock, the events and the random source; every pygame
    call it makes is well typed; QUIT ends the loop after the frame it
    arrives in; and a race started with SPACE completes and is shown as
    complete (liveness). *)

From Stdlib Require Import String Qround.
From S2P Require Import Prelude PyRandom Racer Lomuto State Engine Game Display Race Phases.
Import Lomuto.Lomuto RaceSorterGame.

#[local] Open Scope Q_scope.

(** One turn's input: the milliseconds [self.clock.tick(FPS)] returns,
    the reading of [time.time()], and the events. *)
#[export] Instance Key_eq_dec : EqDecision Key.
Proof. solve_decision. Defined.
#[export] Instance Event_eq_dec : EqDecision Event.
Proof. solve_decision. Defined.

Definition frame_input : Type := Z * Q * list Event.

(** [dt = self.clock.tick(FPS) / 1000.0] (line 404). *)
Definition frame_dt (ms : Z) : Q := inject_Z ms / 1000.

Section Main.
Context {G : Type} `{PyRandom G}.
Abbreviation M := (PyM (Game G)).

(** [run] (lines 401-428). *)
Fixpoint run (fs : list frame_input) : M (list draw_cmd) :=
  match fs with
  | [] => s <- pget ;; pret (if running s then [] else [Quit])
  | (ms, now, es) :: fs' =>
      s <- pget ;;
      if running s then
        frame (frame_dt ms) now es ;;
        s <- pget ;;
        rest <- run fs' ;;
        pret (frame_display s ++ rest)
      else pret [Quit]
  end.

(** [game = RaceSorterGame(); game.run()] (lines 431-433). *)
Definition main (g : G) (fs : list frame_input) : res (Game G) (list draw_cmd) :=
  match new_game g with
  | Ok _ s => run fs s
  | Raise e s => Raise e s
  end.

(** ** The loop, one turn at a time *)

Lemma run_step (ms : Z) (now : Q) (es : list Event) (fs : list frame_input) (s s1 s' : Game G)
    (out : list draw_cmd) :
  running s = true -> frame (frame_dt ms) now es s = Ok tt s1 -> run fs s1 = Ok out s' ->
  run ((ms, now, es) :: fs) s = Ok (frame_display s1 ++ out) s'.
Proof. intros Hr E1 E2. simpl. py_tick. rewrite Hr. py_run E1. py_tick. py_run E2. reflexivity. Qed.

(** Once [running] is false the loop ends with [pygame.quit()]. *)
Lemma run_stopped (fs : list frame_input) (s : Game G) :
  running s = false -> run fs s = Ok [Quit] s.
Proof. intros Hr. destruct fs as [|[[ms now] es] fs]; simpl; unfold pbind, pget; rewrite Hr; reflexivity. Qed.

(** ** The colours drawn *)

(** Every allocated racer has a colour pygame accepts, and the finish
    order holds allocated racers: with [wf], this is what makes every
    pygame call of a frame well typed. *)
Definition col_inv (s : Game G) : Prop :=
  (forall r, (r < next_ref s)%nat -> color_ok (rcolor (store s r)) = true)
  /\ Forall (fun r => r < next_ref s)%nat (finish_order s).

Lemma static_rcolor (v v' : Racer) : static v' = static v -> rcolor v' = rcolor v.
Proof. unfold static. intros E. injection E. intros. congruence. Qed.

Lemma colors_ok (j : nat) : (j < 6)%nat -> color_ok (nth j colors (0, 0, 0)%Z) = true.
Proof. intros Hj. do 6 (destruct j as [|j]; [reflexivity|]). lia. Qed.

Lemma col_inv_static (s s' : Game G) :
  col_inv s -> next_ref s' = next_ref s -> same_static (store s) (store s') ->
  (forall x, x ∈ finish_order s' -> x ∈ finish_order s \/ (x < next_ref s)%nat) -> col_inv s'.
Proof.
  intros [Hc Hf] Nr Ss Hfo. split.
  - intros r Hr. rewrite (static_rcolor _ _ (Ss r)). apply Hc. lia.
  - apply Forall_forall. intros x Hx. rewrite Nr.
    destruct (Hfo x Hx) as [Hx'|]; [by eapply Forall_forall in Hf | done].
Qed.

Lemma init_racers_col `{!PyRandomLaws G} (s : Game G) :
  NoDup (finish_order s) -> col_inv s -> exists s', init_racers s = Ok tt s' /\ inv s' /\ col_inv s'.
Proof.
  intros Hnd [Hc Hf]. destruct (init_racers_inv s Hnd) as (s' & E & I).
  destruct (init_racers_ok s) as (s1 & E1 & _ & N & Old & New & Fr).
  rewrite E in E1. injection E1 as <-.
  assert (Ef : finish_order s' = finish_order s) by (rewrite Fr; reflexivity).
  exists s'. split_and!; [done | done |]. split.
  - intros r Hr. rewrite N in Hr. destruct (decide (r < next_ref s)%nat); [rewrite Old by done; by apply Hc|].
    destruct (New (r - next_ref s)%nat ltac:(lia)) as (_ & _ & _ & _ & _ & _ & _ & _ & Hcol).
    replace (next_ref s + (r - next_ref s))%nat with r in Hcol by lia.
    rewrite Hcol. apply colors_ok. lia.
  - rewrite Ef, N. eapply Forall_impl; [exact Hf|]. simpl. lia.
Qed.

(** What [update] changes of a well-formed state: nothing but the
    racers' motion, [race_complete] and the finish order, to which it
    adds racers of [self.racers]. *)
Lemma update_effect (dt now : Q) (s s' : Game G) :
  wf s -> update dt now s = Ok tt s' ->
  next_ref s' = next_ref s /\ running s' = running s /\ store_keeps (store s) (store s')
  /\ (forall x, x ∈ finish_order s' -> x ∈ finish_order s \/ x ∈ racers s).
Proof.
  intros Hwf E. destruct (racing s && negb (race_complete s)) eqn:Er.
  - apply andb_true_iff in Er as [Hr Hrc%negb_true_iff].
    destruct (update_motion dt now s Hwf Hr Hrc) as (s1 & E1 & F & _ & _ & Hfo).
    rewrite E in E1. injection E1 as <-. pose proof F as (Eq & K & _).
    split_and!; [by rewrite Eq | apply (update_frame_flags s s' F) | exact K |].
    intros x Hx. apply Hfo in Hx as [|[]]; auto.
  - destruct (update_run dt now s Hwf) as (s1 & E1 & _ & _ & _ & _ & Hs).
    rewrite E in E1. injection E1 as <-. rewrite (Hs Er).
    split_and!; [done | done | reflexivity | auto].
Qed.

Ltac flag_col := eexists; split; [reflexivity|]; split; [eapply inv_same; [eassumption | reflexivity..] | assumption].

Lemma handle_event_col `{!PyRandomLaws G} (now : Q) (e : Event) (s : Game G) :
  inv s -> col_inv s -> exists s', handle_event now e s = Ok tt s' /\ inv s' /\ col_inv s'.
Proof.
  intros Hi Hc. destruct e as [|k|]; [flag_col | | flag_col].
  unfold handle_event. py_tick. destruct k.
  - destruct (show_comparison s); flag_col.
  - destruct (racing s); simpl; [flag_col|].
    destruct (start_race_run now s (proj1 Hi))
      as (s' & E & W & _ & _ & _ & _ & F & _ & _ & _ & _ & _ & _ & Ss & Nr).
    exists s'. split_and!; [done | split; [done | rewrite F; constructor] |].
    apply (col_inv_static s); [done | done | done |]. rewrite F. intros x Hx. by apply not_elem_of_nil in Hx.
  - py_tick. apply init_racers_col; [apply Hi | exact Hc].
  - py_tick. apply init_racers_col; [apply Hi | exact Hc].
  - flag_col.
  - destruct (race_complete s); [|flag_col]. do 2 py_tick. apply init_racers_col; [apply Hi | exact Hc].
  - flag_col.
Qed.

Lemma frame_col `{!PyRandomLaws G} (dt now : Q) (es : list Event) (s : Game G) :
  inv s -> col_inv s -> exists s', frame dt now es s = Ok tt s' /\ inv s' /\ col_inv s'.
Proof.
  intros Hi Hc. unfold frame.
  assert (Hes : exists s1, handle_events now es s = Ok tt s1 /\ inv s1 /\ col_inv s1).
  { unfold handle_events. clear dt. revert s Hi Hc. induction es as [|e es IH]; intros s Hi Hc; [by exists s|].
    destruct (handle_event_col now e s Hi Hc) as (s1 & E1 & I1 & C1). simpl. py_run E1. by apply IH. }
  destruct Hes as (s1 & E1 & [W1 N1] & C1). py_run E1. py_tick. destruct (show_comparison s1); [by exists s1|].
  destruct (update_run dt now s1 W1) as (s2 & E2 & W2 & _ & _ & N2 & _).
  destruct (update_effect dt now s1 s2 W1 E2) as (Nr & _ & K & Hfo).
  exists s2. split_and!; [done | split; auto |].
  apply (col_inv_static s1); [done | done | intros r; apply K |].
  intros x Hx. destruct (Hfo x Hx) as [|Hr]; [by left|right].
  destruct W1 as (_ & _ & Hlt & _). by eapply Forall_forall in Hlt.
Qed.

Lemma reachable_col `{!PyRandomLaws G} (s : Game G) : reachable s -> col_inv s.
Proof.
  induction 1 as [g s Hs|dt now es s s' Hr IH _ Hf].
  - destruct (init_racers_col (mkGame (fun _ => no_racer) 0 g true false false RANDOMIZED false [] [] 0%Q 0 []))
      as (s1 & E1 & _ & C1); [constructor | split; [simpl; lia | constructor] |].
    unfold new_game in Hs. congruence.
  - destruct (frame_col dt now es s (reachable_inv_run s Hr) IH) as (s2 & E2 & _ & C2). congruence.
Qed.

(** Every pygame call the loop makes in a reachable state is well typed. *)
Lemma reachable_display_ok `{!PyRandomLaws G} (s : Game G) :
  reachable s -> Forall (fun c => cmd_ok c = true) (frame_display s).
Proof.
  intros Hr. destruct (reachable_inv_run s Hr) as [(_ & _ & Hlt & _) _]. destruct (reachable_col s Hr) as [Hc Hf].
  apply frame_display_ok, Forall_app. split; (eapply Forall_impl; [eassumption | exact Hc]).
Qed.

Lemma last_display_app (s : Game G) (out : list draw_cmd) :
  last (frame_display s ++ out) = Some Quit <-> last out = Some Quit.
Proof.
  rewrite last_app. destruct (last out); [done|]. unfold frame_display. rewrite last_snoc.
  split; intros E; discriminate E.
Qed.

(** The loop from a reachable state, whatever its input: it raises
    nothing, ends in a reachable state, makes only well-typed pygame
    calls, and calls [pygame.quit()] last exactly when it stopped. *)
Lemma run_reachable `{!PyRandomLaws G} (fs : list frame_input) (s : Game G) :
  reachable s ->
  exists out s', run fs s = Ok out s' /\ reachable s' /\ Forall (fun c => cmd_ok c = true) out
    /\ (last out = Some Quit <-> running s' = false).
Proof.
  revert s. induction fs as [|[[ms now] es] fs IH]; intros s Hr.
  - exists (if running s then [] else [Quit]), s. simpl. unfold pbind, pget, pret.
    split_and!; [done | done | by destruct (running s); repeat constructor | by destruct (running s)].
  - destruct (running s) eqn:Hrun; [|exists [Quit], s; rewrite run_stopped by done; by split_and!; [..|repeat constructor|]].
    destruct (frame_ok (frame_dt ms) now es s (reachable_inv_run s Hr)) as (s1 & E1 & _).
    assert (R1 : reachable s1) by (eapply reachable_frame; eauto).
    destruct (IH s1 R1) as (out & s' & E' & R' & C' & L').
    exists (frame_display s1 ++ out), s'. split_and!; [by eapply run_step | done | |].
    + apply Forall_app. split; [by apply reachable_display_ok | done].
    + by rewrite last_display_app.
Qed.

(** A turn whose events hold QUIT ends with [self.running] false: QUIT
    stops the game and no later handler restarts it. *)
Lemma frame_quit `{!PyRandomLaws G} (dt now : Q) (es : list Event) (s : Game G) :
  inv s -> QUIT ∈ es -> exists s', frame dt now es s = Ok tt s' /\ running s' = false.
Proof.
  intros Hi Hq.
  assert (Hes : exists s1, handle_events now es s = Ok tt s1 /\ inv s1 /\ running s1 = false).
  { unfold handle_events. revert s Hi. induction es as [|e es IH]; intros s Hi; [by apply not_elem_of_nil in Hq|].
    simpl. destruct (decide (e = QUIT)) as [->|Hne].
    - py_tick. destruct (handle_events_abs now es (set_running false s)) as (s1 & E1 & I1 & P1);
        [eapply inv_same; [exact Hi | reflexivity..]|].
      exists s1. split_and!; [exact E1 | done |]. apply phase_of_Stopped.
      change (phase_of s1) with (aphase (abs s1)). rewrite P1. apply foldl_astep_Stopped.
    - apply elem_of_cons in Hq as [|Hq]; [done|].
      destruct (handle_event_ok now e s Hi) as (s1 & E1 & I1). py_run E1. by apply IH. }
  destruct Hes as (s1 & E1 & [W1 N1] & R1). unfold frame. py_run E1. py_tick.
  destruct (show_comparison s1); [by exists s1|].
  destruct (update_run dt now s1 W1) as (s2 & E2 & _).
  destruct (update_effect dt now s1 s2 W1 E2) as (_ & R2 & _).
  exists s2. split; [done | congruence].
Qed.

(** [main()] on any input and any state of [random]. *)
Lemma main_run `{!PyRandomLaws G} (g : G) (fs : list frame_input) :
  exists out s, main g fs = Ok out s /\ reachable s /\ Forall (fun c => cmd_ok c = true) out
    /\ (last out = Some Quit <-> running s = false).
Proof.
  destruct (new_game_ok g) as (s0 & E0 & _).
  destruct (run_reachable fs s0 (reachable_new g s0 E0)) as (out & s & E & R).
  exists out, s. unfold main. rewrite E0. by split.
Qed.

(** C5. [main()] never raises: whatever [random] draws and whatever the
    player does, [RaceSorterGame()] and its loop [run()] end normally, in
    a reachable state, and the last call is [pygame.quit()] exactly when
    the loop ended because [self.running] turned false. *)
Theorem main_never_raises `{!PyRandomLaws G} (g : G) (fs : list frame_input) :
  exists out s, main g fs = Ok out s /\ reachable s /\ (last out = Some Quit <-> running s = false).
Proof. destruct (main_run g fs) as (out & s & E & R & _ & L). by exists out, s. Qed.

(** C29. Every pygame call [main()] makes is well typed: every colour a
    call is given has its three components in [0, 255] (a [pygame.Color]
    would raise otherwise), on any input and any state of [random]. *)
Theorem main_well_typed `{!PyRandomLaws G} (g : G) (fs : list frame_input) :
  exists out s, main g fs = Ok out s /\ Forall (fun c => cmd_ok c = true) out.
Proof. destruct (main_run g fs) as (out & s & E & _ & C & _). by exists out, s. Qed.

(** C13. Closing the window ends the loop: in a reachable running state,
    a turn whose events hold QUIT draws its frame, then [while
    self.running] exits and [pygame.quit()] is called, whatever input
    would have followed. *)
Theorem quit_ends_loop `{!PyRandomLaws G} (ms : Z) (now : Q) (es : list Event) (fs : list frame_input)
    (s : Game G) :
  reachable s -> running s = true -> QUIT ∈ es ->
  exists s1, run ((ms, now, es) :: fs) s = Ok (frame_display s1 ++ [Quit]) s1 /\ running s1 = false.
Proof.
  intros Hr Hrun Hq. destruct (frame_quit (frame_dt ms) now es s (reachable_inv_run s Hr) Hq) as (s1 & E1 & R1).
  exists s1. split; [|done]. apply (run_step ms now es fs s s1 s1 [Quit] Hrun E1). by apply run_stopped.
Qed.

(** ** Liveness of a race *)

(** The loop on inputs without events and with frame times of at least
    [dt0]: it runs every turn, each carries every racer still in the race
    [min_advance dt0] further, and the last screen drawn is the frame of
    the final state. *)
Lemma run_in_race (dt0 k : Q) (fs : list frame_input) (s : Game G) :
  in_race k s -> 0 < dt0 -> Forall (fun f : frame_input => dt0 <= frame_dt f.1.1 /\ f.2 = []) fs ->
  exists out s', run fs s = Ok out s'
    /\ in_race (k + inject_Z (Z.of_nat (length fs)) * min_advance dt0) s'
    /\ ((out = [] /\ s' = s) \/ exists pre, out = pre ++ frame_display s').
Proof.
  revert k s. induction fs as [|[[ms now] es] fs IH]; intros k s Hin Hd0 Hfs.
  - pose proof Hin as (_ & Hrun & _). exists [], s. split_and!.
    + simpl. unfold pbind, pget, pret. by rewrite Hrun.
    + eapply in_race_weaken; [|exact Hin]. simpl length. change (inject_Z (Z.of_nat 0)) with 0. lra.
    + by left.
  - apply Forall_cons in Hfs as [[Hd Hes] Hfs]. simpl in Hd, Hes. subst es.
    pose proof Hin as (_ & Hrun & _).
    destruct (frame_in_race dt0 (frame_dt ms) now k s Hin Hd0 Hd) as (s1 & E1 & H1).
    destruct (IH _ s1 H1 Hd0 Hfs) as (out & s' & E' & H' & Hl).
    exists (frame_display s1 ++ out), s'. split_and!; [by eapply run_step | |].
    + eapply in_race_weaken; [|exact H'].
      cbn [length]. rewrite Nat2Z.inj_succ, <-Z.add_1_r, inject_Z_plus. change (inject_Z 1) with 1. lra.
    + right. destruct Hl as [[-> ->] | [pre ->]].
      * exists []. by rewrite app_nil_r.
      * exists (frame_display s1 ++ pre). by rewrite app_assoc.
Qed.

(** The run of the liveness theorems: SPACE, then turns without input,
    end far enough into the race, with the final frame drawn last. *)
Lemma race_run `{!PyRandomLaws G} (dt0 : Q) (ms1 : Z) (now : Q) (fs : list frame_input) (s : Game G) :
  wf s -> running s = true -> racing s = false -> show_comparison s = false ->
  0 < dt0 -> dt0 <= frame_dt ms1 -> Forall (fun f : frame_input => dt0 <= frame_dt f.1.1 /\ f.2 = []) fs ->
  (race_frames dt0 <= S (length fs))%nat ->
  exists out s' k, run ((ms1, now, [KEYDOWN K_SPACE]) :: fs) s = Ok out s' /\ 475 <= k /\ in_race k s'
    /\ exists pre, out = pre ++ frame_display s'.
Proof.
  intros Hwf Hrun Hr Hsc Hd0 Hd1 Hfs Hn.
  destruct (start_race_in_race now s Hwf Hrun Hsc) as (s1 & E1 & H1).
  assert (Ef : frame (frame_dt ms1) now [KEYDOWN K_SPACE] s = frame (frame_dt ms1) now [] s1).
  { assert (Eh : handle_event now (KEYDOWN K_SPACE) s = Ok tt s1)
      by (unfold handle_event, pbind, pget; rewrite Hr; exact E1).
    assert (Ehs : handle_events now [KEYDOWN K_SPACE] s = Ok tt s1)
      by (unfold handle_events; simpl; py_run Eh; reflexivity).
    unfold frame. py_run Ehs. reflexivity. }
  destruct (frame_in_race dt0 (frame_dt ms1) now 0 s1 H1 Hd0 Hd1) as (s2 & E2 & H2).
  rewrite <-Ef in E2.
  destruct (run_in_race dt0 _ fs s2 H2 Hd0 Hfs) as (out & s' & E' & H' & Hl).
  exists (frame_display s2 ++ out), s', (0 + min_advance dt0 + inject_Z (Z.of_nat (length fs)) * min_advance dt0).
  split_and!; [by eapply run_step | | exact H' |].
  - pose proof (race_frames_enough dt0 _ Hd0 Hn) as Hk.
    rewrite Nat2Z.inj_succ, <-Z.add_1_r, inject_Z_plus in Hk. change (inject_Z 1) with 1 in Hk. nra.
  - destruct Hl as [[-> ->] | [pre ->]].
    + exists []. by rewrite app_nil_r.
    + exists (frame_display s2 ++ pre). by rewrite app_assoc.
Qed.

(** C7. Liveness of a race: from a well-formed game that is running, not
    racing and not showing the comparison, the player presses SPACE in a
    turn of at least [dt0 > 0] seconds and then gives no input.  After
    [race_frames dt0] turns of at least [dt0] seconds the race is
    complete and [finish_order] holds every racer exactly once, whatever
    [random] draws. *)
Theorem race_completes `{!PyRandomLaws G} (dt0 : Q) (ms1 : Z) (now : Q) (fs : list frame_input) (s : Game G) :
  wf s -> running s = true -> racing s = false -> show_comparison s = false ->
  0 < dt0 -> dt0 <= frame_dt ms1 -> Forall (fun f : frame_input => dt0 <= frame_dt f.1.1 /\ f.2 = []) fs ->
  (race_frames dt0 <= S (length fs))%nat ->
  exists out s', run ((ms1, now, [KEYDOWN K_SPACE]) :: fs) s = Ok out s'
    /\ race_complete s' = true /\ finish_order s' ≡ₚ racers s' /\ running s' = true.
Proof.
  intros Hwf Hrun Hr Hsc Hd0 Hd1 Hfs Hn.
  destruct (race_run dt0 ms1 now fs s Hwf Hrun Hr Hsc Hd0 Hd1 Hfs Hn) as (out & s' & k & E & Hk & H' & _).
  destruct (in_race_complete k s' Hk H') as [Hc Hp].
  exists out, s'. split_and!; [exact E | exact Hc | exact Hp | apply H'].
Qed.

(** C28. What the player sees at the end of that race: the last screen
    the loop draws shows "Race Complete! Press ENTER to race again" and a
    line of the finish panel for every racer. *)
Theorem race_end_display `{!PyRandomLaws G} (dt0 : Q) (ms1 : Z) (now : Q) (fs : list frame_input) (s : Game G) :
  wf s -> running s = true -> racing s = false -> show_comparison s = false ->
  0 < dt0 -> dt0 <= frame_dt ms1 -> Forall (fun f : frame_input => dt0 <= frame_dt f.1.1 /\ f.2 = []) fs ->
  (race_frames dt0 <= S (length fs))%nat ->
  exists out s' pre, run ((ms1, now, [KEYDOWN K_SPACE]) :: fs) s = Ok out s'
    /\ out = pre ++ frame_display s'
    /\ BlitCentered (Render font_medium "Race Complete! Press ENTER to race again" GREEN) (HALF_WIDTH, 150)
         ∈ frame_display s'
    /\ forall r, r ∈ racers s' -> exists i,
         Blit (Render font_small (finish_line_text i (store s' r)) (rcolor (store s' r)))
              (SCREEN_WIDTH - 300, 140 + inject_Z (Z.of_nat i) * 25) ∈ frame_display s'.
Proof.
  intros Hwf Hrun Hr Hsc Hd0 Hd1 Hfs Hn.
  destruct (race_run dt0 ms1 now fs s Hwf Hrun Hr Hsc Hd0 Hd1 Hfs Hn) as (out & s' & k & E & Hk & H' & pre & Hpre).
  destruct (in_race_complete k s' Hk H') as [Hc Hp]. pose proof H' as (_ & _ & _ & Hsc' & _).
  exists out, s', pre. split_and!; [exact E | exact Hpre | by apply complete_banner_in |].
  intros r Hr'. rewrite <-Hp in Hr'. apply list_elem_of_lookup in Hr' as [i Hi].
  exists i. by apply finish_line_in.
Qed.

End Main.

(** ** Concrete runs *)

#[local] Existing Instance LCG.lcg.
#[local] Existing Instance LCG.lcg_laws.

(** [n] turns of 100 ms without input. *)
Definition idle_frames (n : nat) : list frame_input := repeat (100%Z, 0, []) n.

Lemma game0_ready : wf game0 /\ running game0 = true /\ racing game0 = false /\ show_comparison game0 = false.
Proof. split_and!; [apply wfb_sound | ..]; vm_compute; reflexivity. Qed.

Lemma idle_frames_ok (n : nat) :
  Forall (fun f : frame_input => 1 # 10 <= frame_dt f.1.1 /\ f.2 = []) (idle_frames n).
Proof.
  apply Forall_forall. intros f Hf. unfold idle_frames in Hf.
  apply list_elem_of_In, repeat_spec in Hf as ->. split; [vm_compute; discriminate | reflexivity].
Qed.

Lemma idle_frames_enough : (race_frames (1 # 10) <= S (length (idle_frames 2375)))%nat.
Proof. unfold idle_frames. rewrite repeat_length. apply Nat.leb_le. vm_compute. reflexivity. Qed.

Lemma race_completes_witness :
  wf game0 /\ running game0 = true /\ racing game0 = false /\ show_comparison game0 = false
  /\ 0 < 1 # 10 /\ 1 # 10 <= frame_dt 100
  /\ Forall (fun f : frame_input => 1 # 10 <= frame_dt f.1.1 /\ f.2 = []) (idle_frames 2375)
  /\ (race_frames (1 # 10) <= S (length (idle_frames 2375)))%nat
  /\ exists out s', run ((100%Z, 0, [KEYDOWN K_SPACE]) :: idle_frames 2375) game0 = Ok out s'
    /\ race_complete s' = true /\ finish_order s' ≡ₚ racers s' /\ running s' = true.
Proof.
  destruct game0_ready as (W & Ru & Ra & Sc).
  assert (D0 : 0 < 1 # 10) by (vm_compute; reflexivity).
  assert (D1 : 1 # 10 <= frame_dt 100) by (vm_compute; discriminate).
  split_and!; try assumption; [apply idle_frames_ok | apply idle_frames_enough |].
  exact (race_completes (1 # 10) 100 0 (idle_frames 2375) game0 W Ru Ra Sc D0 D1 (idle_frames_ok 2375) idle_frames_enough).
Defined.

Lemma race_end_display_witness :
  wf game0 /\ running game0 = true /\ racing game0 = false /\ show_comparison game0 = false
  /\ 0 < 1 # 10 /\ 1 # 10 <= frame_dt 100
  /\ Forall (fun f : frame_input => 1 # 10 <= frame_dt f.1.1 /\ f.2 = []) (idle_frames 2375)
  /\ (race_frames (1 # 10) <= S (length (idle_frames 2375)))%nat
  /\ exists out s' pre, run ((100%Z, 0, [KEYDOWN K_SPACE]) :: idle_frames 2375) game0 = Ok out s'
    /\ out = pre ++ frame_display s'
    /\ BlitCentered (Render font_medium "Race Complete! Press ENTER to race again" GREEN) (HALF_WIDTH, 150)
         ∈ frame_display s'
    /\ forall r, r ∈ racers s' -> exists i,
         Blit (Render font_small (finish_line_text i (store s' r)) (rcolor (store s' r)))
              (SCREEN_WIDTH - 300, 140 + inject_Z (Z.of_nat i) * 25) ∈ frame_display s'.
Proof.
  destruct game0_ready as (W & Ru & Ra & Sc).
  assert (D0 : 0 < 1 # 10) by (vm_compute; reflexivity).
  assert (D1 : 1 # 10 <= frame_dt 100) by (vm_compute; discriminate).
  split_and!; try assumption; [apply idle_frames_ok | apply idle_frames_enough |].
  exact (race_end_display (1 # 10) 100 0 (idle_frames 2375) game0 W Ru Ra Sc D0 D1 (idle_frames_ok 2375) idle_frames_enough).
Defined.

Lemma quit_ends_loop_witness :
  reachable game0 /\ running game0 = true /\ QUIT ∈ [QUIT]
  /\ exists s1, run ((16%Z, 0, [QUIT]) :: idle_frames 3) game0 = Ok (frame_display s1 ++ [Quit]) s1
       /\ running s1 = false.
Proof.
  assert (R : reachable game0) by (apply (reachable_new 7%Z); vm_compute; reflexivity).
  assert (Ru : running game0 = true) by (vm_compute; reflexivity).
  assert (Q1 : QUIT ∈ [QUIT]) by constructor.
  split_and!; try assumption.
  exact (quit_ends_loop 16 0 [QUIT] (idle_frames 3) game0 R Ru Q1).
Defined.

Lemma main_never_raises_witness :
  exists out s, main 7%Z ((100%Z, 0, [KEYDOWN K_SPACE]) :: idle_frames 5 ++ [(16%Z, 1, [QUIT])]) = Ok out s
    /\ reachable s /\ (last out = Some Quit <-> running s = false).
Proof. exact (main_never_raises 7%Z ((100%Z, 0, [KEYDOWN K_SPACE]) :: idle_frames 5 ++ [(16%Z, 1, [QUIT])])). Defined.

Lemma main_well_typed_witness :
  exists out s, main 7%Z ((100%Z, 0, [KEYDOWN K_SPACE]) :: idle_frames 5 ++ [(16%Z, 1, [KEYDOWN K_c])]) = Ok out s
    /\ Forall (fun c => cmd_ok c = true) out.
Proof. exact (main_well_typed 7%Z ((100%Z, 0, [KEYDOWN K_SPACE]) :: idle_frames 5 ++ [(16%Z, 1, [KEYDOWN K_c])])). Defined.
