(* ===== verification/Timing.v ===== *)
(** * Timing: the finish times of the finish panel

    [update] stamps a racer with [racer.finish_time = time.time() -
    self.race_start_time] (line 220) in the frame it first crosses the
    line, when it joins [self.finish_order]; [start_race] resets
    [race_start_time] to [time.time()] and empties [finish_order]
    (lines 172-175).  [draw_ui] prints the finish order with these
    times.  The invariant [timed t s] says that, at a clock reading [t],
    the times of [finish_order] are in order and lie in
    [[0, t - race_start_time]].  Every handler keeps it as long as the
    clock does not go back ([clock_from]), and so does every run of
    [main].  The clock [time.time()] is read once per turn. *)

From stdpp Require Import sorting sets.
From S2P Require Import Prelude PyRandom Racer Lomuto State Engine Game Display Race Phases Main.
Import Lomuto.Lomuto RaceSorterGame.

#[local] Open Scope Q_scope.

(** The clock readings of a list of turns never go back, from [t] on. *)
Fixpoint clock_from (t : Q) (fs : list frame_input) : bool :=
  match fs with
  | [] => true
  | (_, now, _) :: fs' => Qle_bool t now && clock_from now fs'
  end.

Section Timing.
Context {G : Type} `{PyRandom G}.

Definition ftime (s : Game G) (r : nat) : Q := finish_time (store s r).

Definition timed (t : Q) (s : Game G) : Prop :=
  race_start_time s <= t /\ StronglySorted Qle (ftime s <$> finish_order s)
  /\ Forall (fun r => 0 <= ftime s r <= t - race_start_time s) (finish_order s).

(** A step that keeps the race result: the same finish order, start
    time and times. *)
Definition keeps_times (s s' : Game G) : Prop :=
  finish_order s' = finish_order s /\ race_start_time s' = race_start_time s
  /\ Forall (fun r => ftime s' r = ftime s r) (finish_order s).

Lemma const_sorted (f : nat -> Q) (c : Q) (l : list nat) :
  Forall (fun r => f r = c) l -> StronglySorted Qle (f <$> l).
Proof.
  induction 1 as [|r l Hr Hl IH]; simpl; constructor; [done|].
  apply Forall_fmap. eapply Forall_impl; [exact Hl|]. intros r' Hr'. simpl. rewrite Hr, Hr'. apply Qle_refl.
Qed.

(** The finish order grows by racers stamped at [now]. *)
Lemma timed_append (t now : Q) (l : list nat) (s s' : Game G) :
  timed t s -> t <= now -> race_start_time s' = race_start_time s ->
  finish_order s' = finish_order s ++ l ->
  Forall (fun r => ftime s' r = ftime s r) (finish_order s) ->
  Forall (fun r => ftime s' r = now - race_start_time s) l -> timed now s'.
Proof.
  intros (Hst & Hso & Hb) Ht Er Ef Hold Hnew. unfold timed. rewrite Er, Ef. split_and!.
  - lra.
  - rewrite fmap_app. erewrite (Forall_fmap_ext_1 (ftime s')); [|exact Hold].
    apply StronglySorted_app_2; [| done | by eapply const_sorted].
    intros x1 x2 (r1 & -> & Hr1)%list_elem_of_fmap (r2 & -> & Hr2)%list_elem_of_fmap.
    rewrite Forall_forall in Hb, Hnew. rewrite (Hnew r2 Hr2). specialize (Hb r1 Hr1). lra.
  - apply Forall_app. split.
    + rewrite Forall_forall in Hb, Hold |- *. intros r Hr. rewrite (Hold r Hr). specialize (Hb r Hr). lra.
    + eapply Forall_impl; [exact Hnew|]. intros r ->. lra.
Qed.

Lemma timed_keeps (t now : Q) (s s' : Game G) : timed t s -> t <= now -> keeps_times s s' -> timed now s'.
Proof.
  intros Ht Hle (Ef & Er & Ho). apply (timed_append t now [] s s' Ht Hle Er); [by rewrite app_nil_r | exact Ho | constructor].
Qed.

Lemma keeps_times_refl (s : Game G) : keeps_times s s.
Proof. split_and!; [done | done | by apply Forall_forall]. Qed.

Lemma timed_restart (now : Q) (s : Game G) : finish_order s = [] -> race_start_time s = now -> timed now s.
Proof. intros Ef Er. unfold timed. rewrite Ef, Er. split_and!; [lra | constructor | constructor]. Qed.

(** [Racer.update] does not touch [finish_time]. *)
Lemma update_finish_time (dt boost : Q) (v : Racer) (g : G) :
  finish_time (Racer.update dt boost v g).1 = finish_time v.
Proof. unfold Racer.update. destruct (finished v); [done|]. by destruct (random g). Qed.

(** The body of the loop of [update] for [r]: it changes no other
    racer, and either leaves the finish order and [r]'s time alone or
    appends [r], not yet in it, stamped with [now - race_start_time]. *)
Lemma update_racer_times (dt now : Q) (r : nat) (s : Game G) :
  exists b s', update_racer dt now r s = Ok b s' /\ race_start_time s' = race_start_time s
   /\ (forall r', r' <> r -> store s' r' = store s r')
   /\ ((finish_order s' = finish_order s /\ ftime s' r = ftime s r)
       \/ (finish_order s' = finish_order s ++ [r] /\ ftime s' r = now - race_start_time s
           /\ r ∉ finish_order s)).
Proof.
  unfold update_racer. py_tick. cbn zeta.
  match goal with |- context [racer_update r dt ?b] => set (boost := b) end.
  py_run (racer_update_eq r dt boost s). py_tick.
  pose proof (update_finish_time dt boost (store s r) (rng s)) as Hv.
  set (v := (Racer.update dt boost (store s r) (rng s)).1) in *.
  set (s1 := set_rng _ (set_store (store_set (store s) r v) s)).
  assert (Hpow : exists s2, (if power_active (store s1 r) then pmodify (update_obj r (tick_power dt))
                             else pret tt) s1 = Ok tt s2 /\ ftime s2 r = ftime s r
                 /\ (forall r', r' <> r -> store s2 r' = store s r') /\ finish_order s2 = finish_order s
                 /\ race_start_time s2 = race_start_time s).
  { destruct (power_active (store s1 r)); eexists; (split; [reflexivity|]); unfold ftime;
      cbn; rewrite ?store_set_eq; split_and!; try done; intros r' Hr'; rewrite ?store_set_ne by done; done. }
  destruct Hpow as (s2 & E2 & T2 & O2 & F2 & R2). py_run E2. py_tick.
  destruct (finished (store s2 r) && negb (bool_decide (r ∈ finish_order s2))) eqn:Ef.
  - apply andb_true_iff in Ef as [_ Hn%negb_true_iff%bool_decide_eq_false].
    do 2 py_tick. do 2 eexists. split; [reflexivity|]. unfold ftime. cbn. rewrite store_set_eq.
    split_and!; [done | | right; rewrite F2, R2 in *; split_and!; [done | done | done]].
    intros r' Hr'. rewrite store_set_ne by done. auto.
  - do 2 py_tick. do 2 eexists. split; [reflexivity|]. split_and!; [done | done | by left].
Qed.

Lemma ftime_other (r : nat) (s s' : Game G) :
  (forall r', r' <> r -> store s' r' = store s r') -> forall r', r' <> r -> ftime s' r' = ftime s r'.
Proof. intros O r' Hr'. unfold ftime. by rewrite O. Qed.

(** The loop of [update]: the finish order grows by racers stamped at
    [now], and the racers already in it keep their times. *)
Lemma update_loop_times (dt now : Q) (rs : list nat) (af : bool) (s : Game G) :
  exists b s', update_loop dt now rs af s = Ok b s' /\ race_start_time s' = race_start_time s
   /\ exists l, finish_order s' = finish_order s ++ l
   /\ Forall (fun r => ftime s' r = ftime s r) (finish_order s)
   /\ Forall (fun r => ftime s' r = now - race_start_time s) l.
Proof.
  revert af s. induction rs as [|r rs IH]; intros af s; simpl.
  { do 2 eexists. split_and!; [reflexivity | done |].
    exists []. split_and!; [by rewrite app_nil_r | by apply Forall_forall | constructor]. }
  destruct (update_racer_times dt now r s) as (b1 & s1 & E1 & R1 & O1 & C1). py_run E1.
  destruct (IH (af && b1) s1) as (b2 & s2 & E2 & R2 & l2 & F2 & H2 & N2).
  exists b2, s2. split_and!; [done | congruence |]. rewrite R1 in N2.
  pose proof (ftime_other r s s1 O1) as Hne. rewrite Forall_forall in H2.
  destruct C1 as [(F1 & T1) | (F1 & T1 & Hr)].
  - exists l2. rewrite F2, F1. split_and!; [done | | done].
    apply Forall_forall. intros r0 Hr0. rewrite H2 by (by rewrite F1).
    destruct (decide (r0 = r)) as [->|]; [done | by apply Hne].
  - exists (r :: l2). rewrite F2, F1, <-app_assoc. split_and!; [done | |].
    + apply Forall_forall. intros r0 Hr0. rewrite H2 by (rewrite F1; set_solver).
      apply Hne. by intros ->.
    + constructor; [|done]. rewrite H2 by (rewrite F1; set_solver). done.
Qed.

(** [update]: the same for the whole frame. *)
Lemma update_times (dt now : Q) (s s' : Game G) :
  update dt now s = Ok tt s' -> race_start_time s' = race_start_time s
   /\ exists l, finish_order s' = finish_order s ++ l
   /\ Forall (fun r => ftime s' r = ftime s r) (finish_order s)
   /\ Forall (fun r => ftime s' r = now - race_start_time s) l.
Proof.
  unfold update. py_tick. destruct (racing s && negb (race_complete s)).
  - destruct (update_loop_times dt now (racers s) true s) as (f & s1 & E1 & R1 & T1). py_run E1.
    intros E. destruct f; injection E as <-; by split.
  - intros E. injection E as <-. split; [done|].
    exists []. split_and!; [by rewrite app_nil_r | by apply Forall_forall | constructor].
Qed.

Lemma init_racers_times `{!PyRandomLaws G} (s s' : Game G) :
  col_inv s -> init_racers s = Ok tt s' -> keeps_times s s'.
Proof.
  intros [_ Hf] E. destruct (init_racers_ok s) as (s1 & E1 & _ & _ & Old & _ & Fr).
  rewrite E in E1. injection E1 as <-.
  split_and!; [by rewrite Fr | by rewrite Fr |].
  eapply Forall_impl; [exact Hf|]. intros r Hr. unfold ftime. by rewrite Old.
Qed.

Ltac reinit_times E Hc :=
  left; match type of E with init_racers ?s0 = _ => exact (init_racers_times s0 _ Hc E) end.

Ltac same_times E := injection E as <-; left; split_and!; [reflexivity | reflexivity | by apply Forall_forall].

(** An event either keeps the race result (every handler but SPACE) or
    starts a race at [now] with an empty finish order (SPACE). *)
Lemma handle_event_times `{!PyRandomLaws G} (now : Q) (e : Event) (s s' : Game G) :
  wf s -> col_inv s -> handle_event now e s = Ok tt s' ->
  keeps_times s s' \/ (finish_order s' = [] /\ race_start_time s' = now).
Proof.
  intros Hwf Hc E. destruct e as [|k|]; [| destruct k |]; cbv [handle_event pbind pget pmodify pret] in E;
    try by same_times E.
  - destruct (show_comparison s); same_times E.
  - destruct (racing s); cbn [negb] in E; [same_times E|].
    destruct (start_race_run now s Hwf) as (s1 & E1 & _ & _ & _ & _ & _ & F & T & _). right. rewrite E in E1. injection E1 as <-. by split.
  - reinit_times E Hc.
  - reinit_times E Hc.
  - destruct (race_complete s); [|same_times E]. reinit_times E Hc.
Qed.

(** A frame at a clock reading [now] not before [t] keeps [timed]. *)
Lemma frame_timed `{!PyRandomLaws G} (t dt now : Q) (es : list Event) (s s' : Game G) :
  inv s -> col_inv s -> timed t s -> t <= now -> frame dt now es s = Ok tt s' -> timed now s'.
Proof.
  intros Hi Hc Ht Hle E.
  assert (Hes : exists s1, handle_events now es s = Ok tt s1 /\ inv s1 /\ timed now s1).
  { assert (Hn : timed now s) by (apply (timed_keeps t now s s Ht Hle), keeps_times_refl).
    clear Ht Hle E. unfold handle_events. revert s Hi Hc Hn.
    induction es as [|e es IH]; intros s Hi Hc Hn; [by exists s|].
    destruct (handle_event_col now e s Hi Hc) as (s1 & E1 & I1 & C1). simpl. py_run E1.
    apply (IH s1 I1 C1). destruct (handle_event_times now e s s1 (proj1 Hi) Hc E1) as [K | [F R]].
    - apply (timed_keeps now now s s1 Hn (Qle_refl now) K).
    - by apply timed_restart. }
  destruct Hes as (s1 & E1 & _ & T1). revert E. unfold frame. py_run E1. py_tick.
  destruct (show_comparison s1); intros E; [injection E as <-; done|].
  destruct (update_times dt now s1 s' E) as (R & l & F & Ho & Hn).
  exact (timed_append now now l s1 s' T1 (Qle_refl now) R F Ho Hn).
Qed.

Lemma run_timed `{!PyRandomLaws G} (fs : list frame_input) (t : Q) (s : Game G) :
  reachable s -> timed t s -> clock_from t fs = true ->
  exists out s' t', run fs s = Ok out s' /\ timed t' s'.
Proof.
  revert t s. induction fs as [|[[ms now] es] fs IH]; intros t s Hr Ht Hcl.
  { exists (if running s then [] else [Quit]), s, t. simpl. unfold pbind, pget, pret. done. }
  simpl in Hcl. apply andb_true_iff in Hcl as [Hle%Qle_bool_imp_le Hcl].
  destruct (running s) eqn:Hrun; [|exists [Quit], s, t; by rewrite run_stopped].
  destruct (frame_ok (frame_dt ms) now es s (reachable_inv_run s Hr)) as (s1 & E1 & _).
  assert (T1 : timed now s1)
    by exact (frame_timed t _ now es s s1 (reachable_inv_run s Hr) (reachable_col s Hr) Ht Hle E1).
  destruct (IH now s1 (reachable_frame _ _ _ s s1 Hr Hrun E1) T1 Hcl) as (out & s' & t' & E' & T').
  exists (frame_display s1 ++ out), s', t'. split; [by eapply run_step | done].
Qed.

(** C30. The finish panel is in the order of the times it prints: on
    any input whose clock readings [time.time()] never go back (from
    0), and any state of [random], the racers of [finish_order] at the
    end of [main] have non-negative [finish_time]s in non-decreasing
    order. *)
Theorem finish_times_sorted `{!PyRandomLaws G} (g : G) (fs : list frame_input) :
  clock_from 0 fs = true ->
  exists out s, main g fs = Ok out s
    /\ StronglySorted Qle ((fun r => finish_time (store s r)) <$> finish_order s)
    /\ Forall (fun r => 0 <= finish_time (store s r)) (finish_order s).
Proof.
  intros Hcl. destruct (new_game_ok g) as (s0 & E0 & _).
  assert (T0 : timed 0 s0).
  { destruct (init_racers_ok (mkGame (fun _ => no_racer) 0 g true false false RANDOMIZED false [] [] 0%Q 0 []))
      as (s1 & E1 & _ & _ & _ & _ & Fr).
    unfold new_game in E0. rewrite E0 in E1. injection E1 as <-.
    apply timed_restart; by rewrite Fr. }
  destruct (run_timed fs 0 s0 (reachable_new g s0 E0) T0 Hcl) as (out & s & t & E & _ & So & B).
  exists out, s. unfold main. rewrite E0. split_and!; [done | done |].
  eapply Forall_impl; [exact B|]. intros r [Hr _]. exact Hr.
Qed.

End Timing.

(** ** A concrete run *)

#[local] Existing Instance LCG.lcg.
#[local] Existing Instance LCG.lcg_laws.

(** [n] turns of 100 ms without input, the clock reading [t], [t + 0.1],
    ... *)
Fixpoint ticking_frames (t : Q) (n : nat) : list frame_input :=
  match n with
  | O => []
  | S n' => (100%Z, t, []) :: ticking_frames (t + (1 # 10)) n'
  end.

Lemma finish_times_sorted_witness :
  clock_from 0 ((100%Z, 1, [KEYDOWN K_SPACE]) :: ticking_frames 1 30) = true
  /\ exists out s, main 7%Z ((100%Z, 1, [KEYDOWN K_SPACE]) :: ticking_frames 1 30) = Ok out s
    /\ StronglySorted Qle ((fun r => finish_time (store s r)) <$> finish_order s)
    /\ Forall (fun r => 0 <= finish_time (store s r)) (finish_order s).
Proof.
  assert (C : clock_from 0 ((100%Z, 1, [KEYDOWN K_SPACE]) :: ticking_frames 1 30) = true)
    by (vm_compute; reflexivity).
  split; [exact C|].
  exact (finish_times_sorted 7%Z ((100%Z, 1, [KEYDOWN K_SPACE]) :: ticking_frames 1 30) C).
Defined.
